(** * Fruit counter: request store, detection adapter and upload pipeline

    A shallow embedding of [app/db.py], [app/model.py] and the upload
    handler of [app/main.py], with the properties of the request store
    (insert, recent, all, summary, per-class totals), of the detection
    adapter (class resolution, restricted and unrestricted calls, count
    normalisation) and of the pipeline (validation, staging, persistence).

    Modelling conventions.
    - A Python [str] is the list of its code points ([pystr]); a [bytes]
      value is the list of its bytes.  Python [int] is [Z].  SQLite's
      INTEGER has 64 bits: binding an [int] outside them raises, and so
      does binding a [str] that has no UTF-8 encoding; the running sum
      of SUM overflows at 64 bits, and AUTOINCREMENT stops at the
      largest rowid.
    - A Python [dict] is an association list without repeated keys, in
      insertion order ([pydict]).
    - An exception is a value of [exn]; a call that may raise returns
      [res A].  Module globals and the disk are threaded explicitly.
    - [json.dumps] and [json.loads] are the standard library's encoder and
      decoder; the decoder follows [json/decoder.py] and [json/scanner.py].
      The encoder refuses an [int] of more than 4300 digits, which
      [insert_request] checks where it calls it; the decoder's limits
      (recursion depth, digits) are left out, and the theorems about
      stored text speak of rows written from mappings the encoder prints,
      or name the decoder's outcome.
    - SQLite's AVG yields a binary64 ([spec_float], with the operations
      of IEEE 754): the running sum of the column, added up as floats,
      over the number of rows. *)

From Stdlib Require Import Ascii String DecimalN DecimalPos DecimalFacts SpecFloat.
From stdpp Require Import gmap list sorting numbers strings.

Open Scope Z_scope.
#[local] Set Warnings "-register-all".

(** ** Python values *)

Module py.

(** Code points and strings. *)
Abbreviation pystr := (list N) (only parsing).

Definition ord (a : ascii) : N := N_of_ascii a.

(** The [str] value of an ASCII literal. *)
Definition str (s : string) : pystr := ord <$> list_ascii_of_string s.

(** The exceptions that occur; [DetectorError] stands for whatever the
    detector library raises. *)
Inductive exn : Type :=
| JSONDecodeError
| AttributeError
| TypeError
| ValueError
| OverflowError
| RecursionError
| UnicodeEncodeError
| OperationalError
| DetectorError.

Inductive res (A : Type) : Type :=
| Ok (a : A)
| Raise (e : exn).
Global Arguments Ok {A} a.
Global Arguments Raise {A} e.

Global Instance res_ret : MRet res := λ A a, Ok a.
Global Instance res_bind : MBind res := λ A B k m,
  match m with
  | Ok a => k a
  | Raise e => Raise e
  end.

Global Instance exn_eq_dec : EqDecision exn.
Proof. solve_decision. Defined.

(** [dict]: insertion-ordered, one entry per key. *)
Abbreviation pydict K V := (list (K * V)) (only parsing).

Section dict.
Context {K V : Type} `{EqDecision K}.

(** [d.get(k)] *)
Fixpoint dict_get (d : pydict K V) (k : K) : option V :=
  match d with
  | [] => None
  | (k', v) :: d' => if decide (k' = k) then Some v else dict_get d' k
  end.

(** [d.get(k, dflt)] *)
Definition dict_get_default (d : pydict K V) (k : K) (dflt : V) : V :=
  default dflt (dict_get d k).

(** [d[k] = v]: an existing key keeps its position, a new one goes last. *)
Fixpoint dict_set (d : pydict K V) (k : K) (v : V) : pydict K V :=
  match d with
  | [] => [(k, v)]
  | (k', v') :: d' =>
      if decide (k' = k) then (k', v) :: d' else (k', v') :: dict_set d' k v
  end.

(** [dict(pairs)] *)
Definition dict_of_pairs (pairs : list (K * V)) : pydict K V :=
  foldl (λ d kv, dict_set d kv.1 kv.2) [] pairs.

Definition dict_keys (d : pydict K V) : list K := d.*1.
Definition dict_values (d : pydict K V) : list V := d.*2.

End dict.

(** [sum(xs)] over integers. *)
Definition sum (xs : list Z) : Z := foldr Z.add 0 xs.

(** [str(z)] and [repr(z)] of an [int] raise beyond 4300 digits
    ([sys.int_info.default_max_str_digits]). *)
Definition int_max_str_digits : Z := 4300.
Definition str_int_ok (z : Z) : Prop := Z.abs z < 10 ^ int_max_str_digits.

Global Instance str_int_ok_dec z : Decision (str_int_ok z).
Proof. unfold str_int_ok. apply _. Defined.

(** [str.lower] on the ASCII letters and on U+212A (the Kelvin sign, whose
    lower case is k).  No other character has a lower-case form made of
    ASCII characters only, so every comparison of a lower-cased string with
    an ASCII allow-list comes out as in Python. *)
Definition lower_char (c : N) : N :=
  if ((65 <=? c) && (c <=? 90))%N then (c + 32)%N
  else if (c =? 8490)%N then 107%N
  else c.

Definition lower (s : pystr) : pystr := lower_char <$> s.

End py.
Export py.

(** ** The json module *)

Module json.

Inductive value : Type :=
| JNull
| JBool (b : bool)
| JInt (z : Z)
| JFloat (lexeme : pystr)
| JStr (s : pystr)
| JList (l : list value)
| JDict (d : pydict pystr value).

(** *** Encoder: [json.dumps(counts, ensure_ascii=False)] for a
    [Dict[str, int]] *)

Definition hex_digit (n : N) : N :=
  if (n <? 10)%N then (48 + n)%N else (87 + n)%N.

(** [ESCAPE_DCT]: the replacement of one character, [None] when the
    character is written as it is. *)
Definition escape_char (c : N) : option pystr :=
  if (c =? 34)%N then Some (str "\" ++ [34%N])
  else if (c =? 92)%N then Some (str "\\")
  else if (c =? 8)%N then Some (str "\b")
  else if (c =? 12)%N then Some (str "\f")
  else if (c =? 10)%N then Some (str "\n")
  else if (c =? 13)%N then Some (str "\r")
  else if (c =? 9)%N then Some (str "\t")
  else if (c <? 32)%N then
    Some (str "\u00" ++ [hex_digit (c / 16); hex_digit (c mod 16)])
  else None.

(** [encode_basestring] *)
Definition encode_basestring (s : pystr) : pystr :=
  [34%N] ++ mbind (λ c, default [c] (escape_char c)) s ++ [34%N].

Fixpoint uint_chars (u : Decimal.uint) : pystr :=
  match u with
  | Decimal.Nil => []
  | Decimal.D0 u => 48%N :: uint_chars u
  | Decimal.D1 u => 49%N :: uint_chars u
  | Decimal.D2 u => 50%N :: uint_chars u
  | Decimal.D3 u => 51%N :: uint_chars u
  | Decimal.D4 u => 52%N :: uint_chars u
  | Decimal.D5 u => 53%N :: uint_chars u
  | Decimal.D6 u => 54%N :: uint_chars u
  | Decimal.D7 u => 55%N :: uint_chars u
  | Decimal.D8 u => 56%N :: uint_chars u
  | Decimal.D9 u => 57%N :: uint_chars u
  end.

(** [int.__repr__] *)
Definition int_repr (z : Z) : pystr :=
  match z with
  | Z0 => str "0"
  | Zpos p => uint_chars (Pos.to_uint p)
  | Zneg p => ord "-" :: uint_chars (Pos.to_uint p)
  end.

Definition encode_item (kv : pystr * Z) : pystr :=
  encode_basestring kv.1 ++ str ": " ++ int_repr kv.2.

Fixpoint join (sep : pystr) (parts : list pystr) : pystr :=
  match parts with
  | [] => []
  | [p] => p
  | p :: ps => p ++ sep ++ join sep ps
  end.

Definition dumps (counts : pydict pystr Z) : pystr :=
  str "{" ++ join (str ", ") (encode_item <$> counts) ++ str "}".

(** *** Decoder: [json.loads] *)

(** [WHITESPACE]: blank, tab, line feed, carriage return. *)
Definition is_ws (c : N) : bool :=
  (c =? 32)%N || (c =? 9)%N || (c =? 10)%N || (c =? 13)%N.

Fixpoint skip_ws (s : pystr) : pystr :=
  match s with
  | c :: r => if is_ws c then skip_ws r else s
  | [] => []
  end.

(** [s[idx:idx + len(p)] == p], returning the text after the match. *)
Fixpoint strip_prefix (p s : pystr) : option pystr :=
  match p, s with
  | [], _ => Some s
  | a :: p', b :: s' => if (a =? b)%N then strip_prefix p' s' else None
  | _ :: _, [] => None
  end.

Definition is_digit (c : N) : bool := (48 <=? c)%N && (c <=? 57)%N.

Definition hex_value (c : N) : option N :=
  if is_digit c then Some (c - 48)%N
  else if ((97 <=? c) && (c <=? 102))%N then Some (c - 87)%N
  else if ((65 <=? c) && (c <=? 70))%N then Some (c - 55)%N
  else None.

(** [_decode_uXXXX]: four hexadecimal digits. *)
Definition decode_uXXXX (h1 h2 h3 h4 : N) : option N :=
  a ← hex_value h1; b ← hex_value h2; c ← hex_value h3; d ← hex_value h4;
  Some (((a * 16 + b) * 16 + c) * 16 + d)%N.

(** [BACKSLASH]: the one-letter escapes. *)
Definition unescape (e : N) : option N :=
  if (e =? 34)%N then Some 34%N
  else if (e =? 92)%N then Some 92%N
  else if (e =? 47)%N then Some 47%N
  else if (e =? 98)%N then Some 8%N
  else if (e =? 102)%N then Some 12%N
  else if (e =? 110)%N then Some 10%N
  else if (e =? 114)%N then Some 13%N
  else if (e =? 116)%N then Some 9%N
  else None.

Definition is_high_surrogate (u : N) : bool := (55296 <=? u)%N && (u <=? 56319)%N.
Definition is_low_surrogate (u : N) : bool := (56320 <=? u)%N && (u <=? 57343)%N.
Definition join_surrogates (u u2 : N) : N :=
  (65536 + N.lor (N.shiftl (u - 55296) 10) (u2 - 56320))%N.

Definition push (c : N) (r : res (pystr * pystr)) : res (pystr * pystr) :=
  '(content, rest) ← r; Ok (c :: content, rest).

(** [scanstring(s, end, strict=True)], entered after the opening quote:
    the decoded string and the text after the closing quote. *)
Fixpoint scanstring (s : pystr) : res (pystr * pystr) :=
  match s with
  | [] => Raise JSONDecodeError
  | c :: r =>
    if (c =? 34)%N then Ok ([], r)
    else if (c =? 92)%N then
      match r with
      | [] => Raise JSONDecodeError
      | e :: r1 =>
        if (e =? 117)%N then
          match r1 with
          | h1 :: h2 :: h3 :: h4 :: r2 =>
            match decode_uXXXX h1 h2 h3 h4 with
            | None => Raise JSONDecodeError
            | Some uni =>
              if is_high_surrogate uni then
                match r2 with
                | b :: u :: r3 =>
                  if ((b =? 92) && (u =? 117))%N then
                    match r3 with
                    | g1 :: g2 :: g3 :: g4 :: r4 =>
                      match decode_uXXXX g1 g2 g3 g4 with
                      | None => Raise JSONDecodeError
                      | Some uni2 =>
                        if is_low_surrogate uni2
                        then push (join_surrogates uni uni2) (scanstring r4)
                        else push uni (scanstring r2)
                      end
                    | _ => Raise JSONDecodeError
                    end
                  else push uni (scanstring r2)
                | _ => push uni (scanstring r2)
                end
              else push uni (scanstring r2)
            end
          | _ => Raise JSONDecodeError
          end
        else
          match unescape e with
          | None => Raise JSONDecodeError
          | Some ch => push ch (scanstring r1)
          end
      end
    else if (c <? 32)%N then Raise JSONDecodeError
    else push c (scanstring r)
  end.

(** The longest run of decimal digits at the head of the text. *)
Fixpoint span_digits (s : pystr) : pystr * pystr :=
  match s with
  | c :: r =>
    if is_digit c then let '(ds, rest) := span_digits r in (c :: ds, rest)
    else ([], s)
  | [] => ([], [])
  end.

Fixpoint chars_uint (ds : pystr) : Decimal.uint :=
  match ds with
  | [] => Decimal.Nil
  | c :: r =>
    let u := chars_uint r in
    match (c - 48)%N with
    | 0%N => Decimal.D0 u | 1%N => Decimal.D1 u | 2%N => Decimal.D2 u
    | 3%N => Decimal.D3 u | 4%N => Decimal.D4 u | 5%N => Decimal.D5 u
    | 6%N => Decimal.D6 u | 7%N => Decimal.D7 u | 8%N => Decimal.D8 u
    | _ => Decimal.D9 u
    end
  end.

(** [int(integer)] for a run of decimal digits with an optional sign. *)
Definition parse_int (neg : bool) (ds : pystr) : Z :=
  let n := Z.of_N (N.of_uint (chars_uint ds)) in
  if neg then - n else n.

(** The integer part of [NUMBER_RE]: [0|[1-9][0-9]*]. *)
Definition match_integer (s : pystr) : option (pystr * pystr) :=
  match s with
  | c :: r =>
    if (c =? 48)%N then Some ([c], r)
    else if is_digit c then let '(ds, rest) := span_digits r in Some (c :: ds, rest)
    else None
  | [] => None
  end.

(** The optional fraction [\.[0-9]+]. *)
Definition match_frac (s : pystr) : pystr * pystr :=
  match s with
  | c :: r =>
    if (c =? 46)%N then
      match span_digits r with
      | ([], _) => ([], s)
      | (ds, rest) => (c :: ds, rest)
      end
    else ([], s)
  | [] => ([], [])
  end.

(** The optional exponent [[eE][-+]?[0-9]+]. *)
Definition match_exp (s : pystr) : pystr * pystr :=
  match s with
  | c :: r =>
    if ((c =? 101) || (c =? 69))%N then
      let '(sign, r') :=
        match r with
        | g :: r' => if ((g =? 45) || (g =? 43))%N then ([g], r') else ([], r)
        | [] => ([], r)
        end in
      match span_digits r' with
      | ([], _) => ([], s)
      | (ds, rest) => (c :: sign ++ ds, rest)
      end
    else ([], s)
  | [] => ([], [])
  end.

(** [NUMBER_RE.match] followed by [parse_float] or [parse_int]. *)
Definition match_number (s : pystr) : option (value * pystr) :=
  let '(neg, s1) :=
    match s with
    | c :: r => if (c =? 45)%N then (true, r) else (false, s)
    | [] => (false, s)
    end in
  '(ds, s2) ← match_integer s1;
  let '(frac, s3) := match_frac s2 in
  let '(exp, s4) := match_exp s3 in
  match frac, exp with
  | [], [] => Some (JInt (parse_int neg ds), s4)
  | _, _ => Some (JFloat ((if neg then [45%N] else []) ++ ds ++ frac ++ exp), s4)
  end.

Section scanner.
(** [scan_once], as handed to [JSONObject] and [JSONArray]. *)
Variable scan : pystr → res (value * pystr).

(** The loop of [JSONArray], entered before a value. *)
Fixpoint array_loop (fuel : nat) (s : pystr) (values : list value)
  : res (value * pystr) :=
  match fuel with
  | O => Raise RecursionError
  | S fuel =>
    '(v, s1) ← scan s;
    let values := values ++ [v] in
    match skip_ws s1 with
    | c :: s2 =>
      if (c =? 93)%N then Ok (JList values, s2)
      else if (c =? 44)%N then array_loop fuel (skip_ws s2) values
      else Raise JSONDecodeError
    | [] => Raise JSONDecodeError
    end
  end.

Definition JSONArray (s : pystr) : res (value * pystr) :=
  match skip_ws s with
  | c :: r => if (c =? 93)%N then Ok (JList [], r)
              else array_loop (S (length s)) (skip_ws s) []
  | [] => array_loop (S (length s)) [] []
  end.

(** The loop of [JSONObject], entered after the opening quote of a key. *)
Fixpoint object_loop (fuel : nat) (s : pystr) (pairs : list (pystr * value))
  : res (value * pystr) :=
  match fuel with
  | O => Raise RecursionError
  | S fuel =>
    '(key, s1) ← scanstring s;
    match skip_ws s1 with
    | c :: s2 =>
      if (c =? 58)%N then
        '(v, s3) ← scan (skip_ws s2);
        let pairs := pairs ++ [(key, v)] in
        match skip_ws s3 with
        | d :: s4 =>
          if (d =? 125)%N then Ok (JDict (dict_of_pairs pairs), s4)
          else if (d =? 44)%N then
            match skip_ws s4 with
            | q :: s5 =>
              if (q =? 34)%N then object_loop fuel s5 pairs
              else Raise JSONDecodeError
            | [] => Raise JSONDecodeError
            end
          else Raise JSONDecodeError
        | [] => Raise JSONDecodeError
        end
      else Raise JSONDecodeError
    | [] => Raise JSONDecodeError
    end
  end.

Definition JSONObject (s : pystr) : res (value * pystr) :=
  match skip_ws s with
  | c :: r =>
    if (c =? 34)%N then object_loop (length s) r []
    else if (c =? 125)%N then Ok (JDict [], r)
    else Raise JSONDecodeError
  | [] => Raise JSONDecodeError
  end.

(** One step of [_scan_once]; [StopIteration] reaches every caller as
    [JSONDecodeError]. *)
Definition scan_step (s : pystr) : res (value * pystr) :=
  match s with
  | [] => Raise JSONDecodeError
  | c :: r =>
    if (c =? 34)%N then '(content, rest) ← scanstring r; Ok (JStr content, rest)
    else if (c =? 123)%N then JSONObject r
    else if (c =? 91)%N then JSONArray r
    else
      match strip_prefix (str "null") s, strip_prefix (str "true") s,
            strip_prefix (str "false") s with
      | Some rest, _, _ => Ok (JNull, rest)
      | _, Some rest, _ => Ok (JBool true, rest)
      | _, _, Some rest => Ok (JBool false, rest)
      | None, None, None =>
        match match_number s with
        | Some (v, rest) => Ok (v, rest)
        | None =>
          match strip_prefix (str "NaN") s, strip_prefix (str "Infinity") s,
                strip_prefix (str "-Infinity") s with
          | Some rest, _, _ => Ok (JFloat (str "NaN"), rest)
          | _, Some rest, _ => Ok (JFloat (str "Infinity"), rest)
          | _, _, Some rest => Ok (JFloat (str "-Infinity"), rest)
          | None, None, None => Raise JSONDecodeError
          end
        end
      end
  end.
End scanner.

(** [scan_once] to nesting depth [depth]. *)
Fixpoint scan_once (depth : nat) (s : pystr) : res (value * pystr) :=
  match depth with
  | O => Raise RecursionError
  | S depth => scan_step (scan_once depth) s
  end.

(** [JSONDecoder.decode] behind [json.loads].  The interpreter's recursion
    limit is not modelled: the depth allowed is the length of the text,
    which no text exhausts. *)
Definition loads (s : pystr) : res value :=
  match s with
  | 65279%N :: _ => Raise JSONDecodeError
  | _ =>
    '(obj, rest) ← scan_once (S (length s)) (skip_ws s);
    match skip_ws rest with
    | [] => Ok obj
    | _ :: _ => Raise JSONDecodeError
    end
  end.

End json.

(** ** State and exceptions *)

(** A computation over a state [S] that returns or raises; the state
    reached is kept in both cases. *)
Definition M (S A : Type) : Type := S → res A * S.

Global Instance M_ret {S} : MRet (M S) := λ A a s, (Ok a, s).
Global Instance M_bind {S} : MBind (M S) := λ A B k m s,
  match m s with
  | (Ok a, s') => k a s'
  | (Raise e, s') => (Raise e, s')
  end.

Definition get {S} : M S S := λ s, (Ok s, s).
Definition put {S} (s : S) : M S () := λ _, (Ok (), s).
Definition modify {S} (f : S → S) : M S () := λ s, (Ok (), f s).
Definition lift_res {S A} (r : res A) : M S A := λ s, (r, s).

(** Run a computation on a component of the state. *)
Definition zoom {S T A} (proj : S → T) (upd : T → S → S) (m : M T A) : M S A :=
  λ s, let '(r, t) := m (proj s) in (r, upd t s).

(** A [for] loop whose body may raise. *)
Fixpoint for_each {A B} (body : B → A → res B) (acc : B) (xs : list A) : res B :=
  match xs with
  | [] => Ok acc
  | x :: xs' => acc' ← body acc x; for_each body acc' xs'
  end.

(** ** The detector library and the rest of the environment *)

Module ultralytics.

(** [Results]: the class names, [boxes.cls] ([None] when there are no
    boxes; the entries are class identifiers) and the plotted image. *)
Record Results : Type := {
  r_names : option (pydict Z pystr);
  r_boxes_cls : option (list Z);
  r_plot : list N
}.

(** A loaded [YOLO] object: its class names and its inference call, from
    the source path and the optional [classes] restriction to the first
    result, [None] when inference raises. *)
Record YOLO : Type := {
  names : option (pydict Z pystr);
  predict : pystr → option (list Z) → option Results
}.

End ultralytics.
Export ultralytics.

(** What the pipeline takes from outside during one request. *)
Class Env : Type := {
  (** [int(s)] on a [str]; [None] when it raises [ValueError] *)
  int_of_str : pystr → option Z;
  (** [int(x)] on the float a lexeme denotes; [None] on an infinity *)
  float_trunc : pystr → option Z;
  (** [YOLO(MODEL_NAME)]; [None] when loading raises *)
  yolo_new : option YOLO;
  (** [time.perf_counter()] difference around inference, in ms *)
  elapsed_ms : Z;
  (** [uuid.uuid4().hex] *)
  uuid4_hex : pystr;
  (** whether [Image.open(...).verify()] passes on these bytes *)
  image_verifies : list N → bool;
  (** [datetime.now().strftime(...)] *)
  now : pystr
}.

(** ** db.py *)

Module db.

(** The columns of [requests] other than the key. *)
Record request : Type := {
  filename : pystr;
  output_path : pystr;
  counts_json : pystr;
  total_count : Z;
  model_name : pystr;
  created_at : pystr;
  processing_ms : Z
}.

(** [dict(row)] *)
Record row : Type := Row { id : Z; data : request }.

(** The database: the table keyed by [id] and the AUTOINCREMENT counter
    kept in [sqlite_sequence]. *)
Record store : Type := {
  requests : gmap Z request;
  sqlite_sequence : Z
}.

(** SQL values of the aggregate query; a REAL is a binary64. *)
Inductive sqlval : Type :=
| SqlNull
| SqlInt (z : Z)
| SqlReal (x : spec_float).

(** An INTEGER: 64 bits, signed. *)
Definition int64 (z : Z) : Prop := - 2 ^ 63 ≤ z < 2 ^ 63.

Global Instance int64_dec z : Decision (int64 z).
Proof. unfold int64. apply _. Defined.

(** A [str] that has a UTF-8 encoding: no surrogate among its code
    points. *)
Definition scalar (c : N) : Prop := (c < 55296 ∨ 57343 < c < 1114112)%N.
Definition utf8 (s : pystr) : Prop := Forall scalar s.

Global Instance utf8_dec s : Decision (utf8 s).
Proof. unfold utf8, scalar. apply _. Defined.

(** Binding a parameter of a statement: [sqlite3] refuses an [int]
    outside 64 bits and a [str] without an encoding. *)
Definition bind_int (z : Z) : res () :=
  if decide (int64 z) then Ok () else Raise OverflowError.
Definition bind_text (s : pystr) : res () :=
  if decide (utf8 s) then Ok () else Raise UnicodeEncodeError.

Definition table_scan (s : store) : list row :=
  (λ kv, Row kv.1 kv.2) <$> map_to_list (requests s).

(** The rows in the order a scan of the table visits them: by rowid. *)
Definition id_asc (a b : row) : Prop := id a ≤ id b.

Global Instance id_asc_dec : RelDecision id_asc.
Proof. intros a b. unfold id_asc. apply _. Defined.

Definition rowid_scan (s : store) : list row := merge_sort id_asc (table_scan s).

(** ORDER BY id DESC *)
Definition id_desc (a b : row) : Prop := id b ≤ id a.

Global Instance id_desc_dec : RelDecision id_desc.
Proof. intros a b. unfold id_desc. apply _. Defined.

Definition order_by_id_desc (rows : list row) : list row :=
  merge_sort id_desc rows.

(** LIMIT n: a negative [n] is no limit. *)
Definition sql_limit (n : Z) (rows : list row) : list row :=
  if decide (n < 0) then rows else take (Z.to_nat n) rows.

Definition sql_count (rows : list row) : sqlval := SqlInt (Z.of_nat (length rows)).

(** SUM of an INTEGER column: the running sum is an INTEGER, and the
    aggregate fails with "integer overflow" once a step leaves 64 bits. *)
Definition sum_step (acc x : Z) : res Z :=
  if decide (int64 (acc + x)) then Ok (acc + x) else Raise OperationalError.

Definition sql_sum (xs : list Z) : res sqlval :=
  match xs with
  | [] => Ok SqlNull
  | _ => total ← for_each sum_step 0 xs; Ok (SqlInt total)
  end.

(** AVG: the values are added up one by one as binary64, and the sum is
    divided by the number of rows. *)
Definition real_of_int (z : Z) : spec_float := binary_normalize 53 1024 z 0 false.

Definition sql_avg (xs : list Z) : sqlval :=
  match xs with
  | [] => SqlNull
  | _ =>
    SqlReal (SFdiv 53 1024
               (foldl (λ r x, SFadd 53 1024 r (real_of_int x)) (S754_zero false) xs)
               (real_of_int (Z.of_nat (length xs))))
  end.

Definition coalesce (v dflt : sqlval) : sqlval :=
  match v with
  | SqlNull => dflt
  | _ => v
  end.

(** The rowid an AUTOINCREMENT insert takes. *)
Definition next_rowid (s : store) : Z :=
  let ids := id <$> table_scan s in
  let after_table := match ids with [] => 1 | i :: rest => foldr Z.max i rest + 1 end in
  Z.max after_table (sqlite_sequence s + 1).

(** [json.dumps(counts, ensure_ascii=False)] raises when a value has too
    many digits to print.  The seven parameters are bound in the order of
    the statement, and the first that [sqlite3] refuses raises; nothing is
    written then, nor when the largest rowid is taken. *)
Definition insert_request (filename output_path : pystr) (counts : pydict pystr Z)
    (total_count : Z) (model_name created_at : pystr) (processing_ms : Z)
  : M store Z :=
  counts_json ← lift_res (if decide (Forall str_int_ok (dict_values counts))
                          then Ok (json.dumps counts) else Raise ValueError);
  lift_res (bind_text filename);;
  lift_res (bind_text output_path);;
  lift_res (bind_text counts_json);;
  lift_res (bind_int total_count);;
  lift_res (bind_text model_name);;
  lift_res (bind_text created_at);;
  lift_res (bind_int processing_ms);;
  s ← get;
  let lastrowid := next_rowid s in
  if decide (int64 lastrowid) then
    put {| requests :=
             <[lastrowid := {| filename := filename; output_path := output_path;
                               counts_json := counts_json; total_count := total_count;
                               model_name := model_name; created_at := created_at;
                               processing_ms := processing_ms |}]> (requests s);
           sqlite_sequence := lastrowid |};;
    mret lastrowid
  else lift_res (Raise OperationalError).

Definition fetch_recent (limit : Z) : M store (list row) :=
  lift_res (bind_int limit);;
  s ← get;
  mret (sql_limit limit (order_by_id_desc (table_scan s))).

Definition fetch_all : M store (list row) :=
  s ← get;
  mret (order_by_id_desc (table_scan s)).

Record summary : Type := {
  total_requests : sqlval;
  total_fruits : sqlval;
  avg_per_request : sqlval
}.

Definition get_summary : M store summary :=
  s ← get;
  let rows := rowid_scan s in
  let col := (λ r, total_count (data r)) <$> rows in
  total ← lift_res (sql_sum col);
  mret {| total_requests := sql_count rows;
          total_fruits := coalesce total (SqlInt 0);
          avg_per_request := coalesce (sql_avg col) (SqlInt 0) |}.

Section counts.
Context `{Env}.

(** [counts.items()] *)
Definition items (v : json.value) : res (list (pystr * json.value)) :=
  match v with
  | json.JDict d => Ok d
  | _ => Raise AttributeError
  end.

(** [int(value)] *)
Definition py_int (v : json.value) : res Z :=
  match v with
  | json.JInt z => Ok z
  | json.JBool b => Ok (if b then 1 else 0)
  | json.JFloat lexeme =>
      if decide (lexeme = str "NaN") then Raise ValueError
      else match float_trunc lexeme with
           | Some z => Ok z
           | None => Raise OverflowError
           end
  | json.JStr s =>
      match int_of_str s with
      | Some z => Ok z
      | None => Raise ValueError
      end
  | json.JNull | json.JList _ | json.JDict _ => Raise TypeError
  end.

(** [totals[key] = totals.get(key, 0) + int(value)] *)
Definition add_item (totals : pydict pystr Z) (kv : pystr * json.value)
  : res (pydict pystr Z) :=
  n ← py_int kv.2;
  Ok (dict_set totals kv.1 (dict_get_default totals kv.1 0 + n)).

(** The body of the loop over the rows. *)
Definition add_row (totals : pydict pystr Z) (r : row) : res (pydict pystr Z) :=
  counts ← match json.loads (counts_json (data r)) with
           | Raise JSONDecodeError => Ok (json.JDict [])
           | loaded => loaded
           end;
  kvs ← items counts;
  for_each add_item totals kvs.

Definition get_counts_by_class : M store (pydict pystr Z) :=
  rows ← fetch_all;
  lift_res (for_each add_row [] rows).

End counts.

End db.

(** ** pathlib and sorting *)

Module pathlib.

(** [s.split(sep)] *)
Fixpoint split (sep : N) (s : pystr) : list pystr :=
  match s with
  | [] => [[]]
  | c :: r =>
    if (c =? sep)%N then [] :: split sep r
    else match split sep r with
         | part :: parts => (c :: part) :: parts
         | [] => [[c]]
         end
  end.

(** [PurePosixPath(p).name]: the last component, empty components and
    single dots dropped. *)
Definition name (p : pystr) : pystr :=
  let parts := filter (λ x, x ≠ [] ∧ x ≠ str ".") (split 47 p) in
  default [] (last parts).

(** [s.rfind(c)], [None] for -1. *)
Fixpoint rfind (c : N) (s : pystr) : option nat :=
  match s with
  | [] => None
  | x :: r =>
    match rfind c r with
    | Some i => Some (S i)
    | None => if (x =? c)%N then Some O else None
    end
  end.

(** [PurePosixPath(p).suffix] *)
Definition suffix (p : pystr) : pystr :=
  let nm := name p in
  match rfind 46 nm with
  | Some i => if bool_decide (0 < i < length nm - 1)%nat then drop i nm else []
  | None => []
  end.

End pathlib.

(** Comparison of [str] values, by code points. *)
Fixpoint str_le (a b : pystr) : Prop :=
  match a, b with
  | [], _ => True
  | _ :: _, [] => False
  | x :: a', y :: b' => (x < y)%N ∨ (x = y ∧ str_le a' b')
  end.

Global Instance str_le_dec : RelDecision str_le.
Proof.
  intros a. induction a as [|x a IH]; intros [|y b]; simpl; apply _.
Defined.

(** [sorted(set(xs))] *)
Definition sorted_set (xs : list pystr) : list pystr :=
  merge_sort str_le (remove_dups xs).

(** ** model.py *)

Module model.

Definition FRUIT_CLASSES : list pystr := [str "apple"; str "banana"; str "orange"].
Definition MODEL_NAME : pystr := str "yolov8n.pt".

(** The module globals, and the detector's invocations so far (source
    and [classes] argument, oldest first). *)
Record globals : Type := {
  _model : option YOLO;
  _supported : option (list pystr);
  _fruit_class_ids : option (list Z);
  calls : list (pystr * option (list Z))
}.

Section model.
Context `{Env}.

Definition load_model : M globals YOLO :=
  g ← get;
  match _model g with
  | Some m => mret m
  | None =>
    match yolo_new with
    | Some m =>
      put {| _model := Some m; _supported := _supported g;
             _fruit_class_ids := _fruit_class_ids g; calls := calls g |};;
      mret m
    | None => lift_res (Raise DetectorError)
    end
  end.

Definition get_supported_fruits (allow_load : bool) : M globals (list pystr) :=
  g ← get;
  match _supported g with
  | Some supported => mret supported
  | None =>
    if negb allow_load && bool_decide (_model g = None) then mret []
    else
      m ← load_model;
      let nms := default [] (names m) in
      let supported :=
        sorted_set (filter (λ nm, nm ∈ FRUIT_CLASSES) (lower <$> nms.*2)) in
      modify (λ g, {| _model := _model g; _supported := Some supported;
                      _fruit_class_ids := _fruit_class_ids g; calls := calls g |});;
      mret supported
  end.

Definition _get_fruit_class_ids : M globals (list Z) :=
  g ← get;
  match _fruit_class_ids g with
  | Some ids => mret ids
  | None =>
    m ← load_model;
    let nms := default [] (names m) in
    let ids := (filter (λ kv, lower kv.2 ∈ FRUIT_CLASSES) nms).*1 in
    modify (λ g, {| _model := _model g; _supported := _supported g;
                    _fruit_class_ids := Some ids; calls := calls g |});;
    mret ids
  end.

(** [model(str(image_path), imgsz=..., conf=..., iou=...[, classes=...])[0]] *)
Definition invoke (m : YOLO) (source : pystr) (classes : option (list Z))
  : M globals Results :=
  modify (λ g, {| _model := _model g; _supported := _supported g;
                  _fruit_class_ids := _fruit_class_ids g;
                  calls := calls g ++ [(source, classes)] |});;
  match predict m source classes with
  | Some r => mret r
  | None => lift_res (Raise DetectorError)
  end.

(** The body of the loop over [result.boxes.cls.tolist()]. *)
Definition count_box (nms : pydict Z pystr) (counts : pydict pystr Z) (cls_id : Z)
  : pydict pystr Z :=
  let nm := dict_get_default nms cls_id (str "unknown") in
  let key := lower nm in
  if bool_decide (key ∈ FRUIT_CLASSES)
  then dict_set counts key (dict_get_default counts key 0 + 1)
  else counts.

Definition run_detection (image_path : pystr)
  : M globals (pydict pystr Z * Z * list N * Z) :=
  m ← load_model;
  fruit_ids ← _get_fruit_class_ids;
  result ← match fruit_ids with
           | _ :: _ => invoke m image_path (Some fruit_ids)
           | [] => invoke m image_path None
           end;
  let processing_ms := elapsed_ms in
  let nms := default [] (r_names result) in
  let counts :=
    match r_boxes_cls result with
    | Some cls => foldl (count_box nms) [] cls
    | None => []
    end in
  let total := sum (dict_values counts) in
  mret (counts, total, r_plot result, processing_ms).

End model.

End model.

(** ** main.py *)

Module main.

Definition UPLOAD_DIR : pystr := str "data/uploads".
Definition OUTPUT_DIR : pystr := str "data/outputs".
Definition MAX_FILE_MB : Z := 20.
Definition ALLOWED_EXTENSIONS : list pystr := [str ".jpg"; str ".jpeg"; str ".png"].

(** The database, the files on disk and the globals of [model]. *)
Record world : Type := {
  store : db.store;
  disk : gmap pystr (list N);
  globals : model.globals
}.

(** Run a [db] call or a [model] call in the world. *)
Definition in_db {A} (m : M db.store A) : M world A :=
  zoom store (λ s w, {| store := s; disk := disk w; globals := globals w |}) m.
Definition in_model {A} (m : M model.globals A) : M world A :=
  zoom globals (λ g w, {| store := store w; disk := disk w; globals := g |}) m.

(** [path.write_bytes(data)] and [path.unlink(missing_ok=True)] *)
Definition write_bytes (path : pystr) (data : list N) : M world () :=
  modify (λ w, {| store := store w; disk := <[path := data]> (disk w);
                  globals := globals w |}).
Definition unlink (path : pystr) : M world () :=
  modify (λ w, {| store := store w; disk := delete path (disk w);
                  globals := globals w |}).

Record UploadFile : Type := {
  filename : option pystr;
  contents : list N
}.

(** The four rejection messages of the handler. *)
Inductive message : Type :=
| NoFileSelected
| UnsupportedType
| FileTooLarge
| NotAnImage.

Record result : Type := {
  request_id : Z;
  original_name : pystr;
  output_url : pystr;
  counts : pydict pystr Z;
  total : Z;
  processing_ms : Z;
  created_at : pystr
}.

(** The template context, which is the response. *)
Record context : Type := {
  summary : db.summary;
  counts_by_class : pydict pystr Z;
  recent : list db.row;
  ctx_result : option result;
  error : option message;
  supported_fruits : pystr;
  max_file_mb : Z;
  allowed_ext : pystr
}.

Section main.
Context `{Env}.

Definition _build_context (res : option result) (err : option message)
    (load_model_info : bool) : M world context :=
  summary ← in_db db.get_summary;
  counts_by_class ← in_db db.get_counts_by_class;
  recent ← in_db (db.fetch_recent 10);
  supported ← in_model (model.get_supported_fruits load_model_info);
  mret {| summary := summary; counts_by_class := counts_by_class;
          recent := recent; ctx_result := res; error := err;
          supported_fruits := json.join (str ", ") supported;
          max_file_mb := MAX_FILE_MB;
          allowed_ext := json.join (str ", ") (sorted_set ALLOWED_EXTENSIONS) |}.

Definition process_image (image : option UploadFile) : M world context :=
  match image with
  | None => _build_context None (Some NoFileSelected) false
  | Some image =>
    match filename image with
    | None => _build_context None (Some NoFileSelected) false
    | Some fname =>
      let ext := lower (pathlib.suffix fname) in
      if bool_decide (ext ∉ ALLOWED_EXTENSIONS)
      then _build_context None (Some UnsupportedType) false
      else
        let data := contents image in
        if bool_decide (MAX_FILE_MB * 1024 * 1024 < Z.of_nat (length data))
        then _build_context None (Some FileTooLarge) false
        else
          let file_id := uuid4_hex in
          let upload_path := UPLOAD_DIR ++ str "/" ++ file_id ++ ext in
          write_bytes upload_path data;;
          w ← get;
          if negb (from_option image_verifies false (disk w !! upload_path))
          then
            unlink upload_path;;
            _build_context None (Some NotAnImage) false
          else
            '(counts, total, annotated_image, processing_ms) ←
              in_model (model.run_detection upload_path);
            let output_filename := file_id ++ str "_result.jpg" in
            let output_path := OUTPUT_DIR ++ str "/" ++ output_filename in
            write_bytes output_path annotated_image;;
            let created_at := now in
            request_id ← in_db (db.insert_request fname output_filename counts
                                  total model.MODEL_NAME created_at processing_ms);
            let res := {| request_id := request_id; original_name := fname;
                          output_url := str "/outputs/" ++ output_filename;
                          counts := counts; total := total;
                          processing_ms := processing_ms;
                          created_at := created_at |} in
            _build_context (Some res) None true
    end
  end.

(** [index]: the page without a result or an error; the model is not
    loaded for it. *)
Definition index : M world context := _build_context None None false.

End main.

End main.

(** * Verification *)

Import json.

(** ** Vocabulary of the statements *)

(** The end of a number: nothing, or a character that continues neither
    the digits nor a fraction nor an exponent. *)
Definition number_end (tail : list N) : Prop :=
  match tail with
  | [] => True
  | c :: _ => is_digit c = false ∧ c ≠ 46%N ∧ c ≠ 101%N ∧ c ≠ 69%N
  end.

(** The decoded form of a [Dict[str, int]]. *)
Definition json_of (counts : list (list N * Z)) : value :=
  JDict ((λ kv, (kv.1, JInt kv.2)) <$> counts).

(** A key as [encode_basestring] writes it between the quotes. *)
Definition escaped (k : list N) : list N := k ≫= λ c, default [c] (escape_char c).

(** The encoded items after the first, each behind its separator. *)
Definition more_items (items : list (list N * Z)) : list N :=
  items ≫= λ kv, str ", " ++ encode_item kv.

(** The exceptions of the decoder. *)
Definition decoder_error (e : exn) : Prop := e = JSONDecodeError ∨ e = RecursionError.

(** A scanner that, on texts shorter than [n], does not run out of depth
    and consumes at least one character when it returns. *)
Definition scan_good (scan : list N → res (value * list N)) (n : nat) : Prop :=
  ∀ s, (length s < n)%nat →
    scan s ≠ Raise RecursionError
    ∧ ∀ v rest, scan s = Ok (v, rest) → (length rest < length s)%nat.

(** Strictly descending identifiers. *)
Definition id_gt (a b : db.row) : Prop := db.id b < db.id a.
Definition id_lt (a b : db.row) : Prop := db.id a < db.id b.

(** The [total_count] of the rows with an identifier up to [i]. *)
Definition column_up_to (i : Z) (rows : list db.row) : list Z :=
  (λ r, db.total_count (db.data r)) <$> filter (λ r, db.id r ≤ i) rows.

(** The records a store holds, most recent first. *)
Definition all_rows (s : db.store) : list db.row :=
  db.order_by_id_desc (db.table_scan s).

(** The number of persisted records and the sum of their [total_count]. *)
Definition persisted_count (s : db.store) : Z := Z.of_nat (size (db.requests s)).
Definition persisted_total (s : db.store) : Z :=
  map_fold (λ _ r acc, db.total_count r + acc) 0 (db.requests s).

(** The sum of the magnitudes of the persisted [total_count]. *)
Definition persisted_magnitude (s : db.store) : Z :=
  map_fold (λ _ r acc, Z.abs (db.total_count r) + acc) 0 (db.requests s).

(** The sum of the [total_count] of the records with an identifier up
    to [i], and the stores on which each of these sums is an INTEGER. *)
Definition total_up_to (s : db.store) (i : Z) : Z :=
  map_fold (λ j r acc, if decide (j ≤ i) then db.total_count r + acc else acc) 0
    (db.requests s).

Definition running_totals_fit (s : db.store) : Prop :=
  ∀ i, db.int64 (total_up_to s i).

(** The binary64 quotient of two integers: [a / b] in Python, for
    integers of at most 53 bits. *)
Definition binary64_quotient (a b : Z) : spec_float :=
  SFdiv 53 1024 (db.real_of_int a) (db.real_of_int b).

(** The mappings [json.dumps] prints: no value has more than 4300
    digits. *)
Definition printable (counts : list (list N * Z)) : Prop :=
  Forall str_int_ok (dict_values counts).

(** The record [insert_request] writes for its arguments, and the
    arguments it can write: counts it can print, strings that encode,
    integers of 64 bits. *)
Definition request_of (fn op : list N) (counts : list (list N * Z)) (tc : Z)
    (mn ca : list N) (ms : Z) : db.request :=
  {| db.filename := fn; db.output_path := op;
     db.counts_json := json.dumps counts; db.total_count := tc;
     db.model_name := mn; db.created_at := ca; db.processing_ms := ms |}.

Definition insertable (fn op : list N) (counts : list (list N * Z)) (tc : Z)
    (mn ca : list N) (ms : Z) : Prop :=
  printable counts
  ∧ db.utf8 fn ∧ db.utf8 op ∧ db.utf8 (json.dumps counts)
  ∧ db.int64 tc ∧ db.utf8 mn ∧ db.utf8 ca ∧ db.int64 ms.

(** The exceptions of [insert_request]. *)
Definition insert_error (e : exn) : Prop :=
  e = ValueError ∨ e = UnicodeEncodeError ∨ e = OverflowError ∨ e = OperationalError.

(** The store after an AUTOINCREMENT insert of [new]. *)
Definition inserted (new : db.request) (s : db.store) : db.store :=
  {| db.requests := <[db.next_rowid s := new]> (db.requests s);
     db.sqlite_sequence := db.next_rowid s |}.

(** A stored row whose [counts_json] was written from [counts]. *)
Definition written_with (counts : list (list N * Z)) (r : db.row) : Prop :=
  NoDup (dict_keys counts) ∧ db.counts_json (db.data r) = json.dumps counts.

(** How a stored row came about: written from a mapping, or holding text
    the decoder rejects. *)
Definition stored_as (c : option (list (list N * Z))) (r : db.row) : Prop :=
  match c with
  | Some counts => written_with counts r
  | None => json.loads (db.counts_json (db.data r)) = Raise JSONDecodeError
  end.

(** The sum of the mappings [cs] at key [k]; no entry when no mapping has
    the key. *)
Definition keywise_sum (cs : list (list (list N * Z))) (k : list N) : option Z :=
  if bool_decide (Exists (λ c, k ∈ dict_keys c) cs)
  then Some (sum ((λ c, dict_get_default c k 0) <$> cs))
  else None.

(** What the inner loop of [get_counts_by_class] does to [totals] for one
    decoded mapping. *)
Definition add_counts (totals counts : list (list N * Z)) : list (list N * Z) :=
  foldl (λ t kv, dict_set t kv.1 (dict_get_default t kv.1 0 + kv.2)) totals counts.

(** The lower-cased class names of the raw detections of a result, in
    order, and those among them that are allow-listed. *)
Definition raw_names (result : Results) : list (list N) :=
  match r_boxes_cls result with
  | Some cls =>
      (λ cls_id, lower (dict_get_default (default [] (r_names result)) cls_id
                          (str "unknown"))) <$> cls
  | None => []
  end.

Definition allowed_names (result : Results) : list (list N) :=
  filter (λ nm, nm ∈ model.FRUIT_CLASSES) (raw_names result).

(** The same, for a name table and a list of class identifiers. *)
Definition name_of (nms : list (Z * list N)) (cls_id : Z) : list N :=
  lower (dict_get_default nms cls_id (str "unknown")).

Definition allowed (nms : list (Z * list N)) (cls : list Z) : list (list N) :=
  filter (λ nm, nm ∈ model.FRUIT_CLASSES) (name_of nms <$> cls).

(** How often [k] occurs in [l]. *)
Definition occurrences (k : list N) (l : list (list N)) : Z :=
  Z.of_nat (length (filter (λ x, x = k) l)).

(** The counts [run_detection] derives from a result. *)
Definition counts_of (result : Results) : list (list N * Z) :=
  match r_boxes_cls result with
  | Some cls => foldl (model.count_box (default [] (r_names result))) [] cls
  | None => []
  end.

(** The identifiers of the allow-listed classes of a model. *)
Definition resolve (m : YOLO) : list Z :=
  (filter (λ kv, lower kv.2 ∈ model.FRUIT_CLASSES) (default [] (names m))).*1.

(** The [classes] argument for a resolved identifier list. *)
Definition restriction (ids : list Z) : option (list Z) :=
  match ids with
  | [] => None
  | _ :: _ => Some ids
  end.

(** Loading and resolving, the first two steps of [run_detection]. *)
Definition load_and_resolve `{Env} : M model.globals (YOLO * list Z) :=
  m ← model.load_model; ids ← model._get_fruit_class_ids; mret (m, ids).

(** Where the handler stages the upload named [fname]. *)
Definition upload_path `{Env} (fname : list N) : list N :=
  main.UPLOAD_DIR ++ str "/" ++ uuid4_hex ++ lower (pathlib.suffix fname).

Definition bad_extension (fname : list N) : Prop :=
  lower (pathlib.suffix fname) ∉ main.ALLOWED_EXTENSIONS.

Definition too_large (data : list N) : Prop :=
  main.MAX_FILE_MB * 1024 * 1024 < Z.of_nat (length data).

(** The arguments of the [insert_request] of the handler. *)
Definition inserts `{Env} (fname : list N) (counts : list (list N * Z))
    (total ms : Z) : M db.store Z :=
  db.insert_request fname (uuid4_hex ++ str "_result.jpg") counts total
    model.MODEL_NAME now ms.

(** The response is a rejection: it carries an error message and no
    result. *)
Definition rejection (out : res main.context) : Prop :=
  ∃ ctx msg, out = Ok ctx ∧ main.error ctx = Some msg ∧ main.ctx_result ctx = None.

(** The record and the response descriptor of a completed run. *)
Definition record_of `{Env} (fname : list N) (counts : list (list N * Z))
    (total ms : Z) : db.request :=
  {| db.filename := fname; db.output_path := uuid4_hex ++ str "_result.jpg";
     db.counts_json := json.dumps counts; db.total_count := total;
     db.model_name := model.MODEL_NAME; db.created_at := now;
     db.processing_ms := ms |}.

Definition descriptor_of `{Env} (i : Z) (fname : list N)
    (counts : list (list N * Z)) (total ms : Z) : main.result :=
  {| main.request_id := i; main.original_name := fname;
     main.output_url := str "/outputs/" ++ uuid4_hex ++ str "_result.jpg";
     main.counts := counts; main.total := total; main.processing_ms := ms;
     main.created_at := now |}.

(** A row as the pipeline writes it: [counts_json] written from a mapping
    over allow-listed classes with positive counts, and [total_count] the
    sum of that mapping. *)
Definition pipeline_row (c : list (list N * Z)) (r : db.row) : Prop :=
  written_with c r
  ∧ db.total_count (db.data r) = sum (dict_values c)
  ∧ (∀ k, k ∈ dict_keys c → k ∈ model.FRUIT_CLASSES).

Definition pipeline_written (s : db.store) : Prop :=
  ∃ cs, Forall2 pipeline_row cs (all_rows s).

(** The same, from mappings [json.dumps] prints. *)
Definition pipeline_printed (s : db.store) : Prop :=
  ∃ cs, Forall printable cs ∧ Forall2 pipeline_row cs (all_rows s).

(** The exceptions [int(value)] raises. *)
Definition conversion_error (e : exn) : Prop :=
  e = TypeError ∨ e = ValueError ∨ e = OverflowError.

(** A row the aggregation stops at with [e]: its text decodes to something
    that is no object, or to an object with a value [int] rejects, or the
    decoder raises something other than [JSONDecodeError]. *)
Definition indigestible `{Env} (r : db.row) (e : exn) : Prop :=
  match json.loads (db.counts_json (db.data r)) with
  | Ok (JDict d) => ∃ k x, (k, x) ∈ d ∧ db.py_int x = Raise e ∧ conversion_error e
  | Ok _ => e = AttributeError
  | Raise e' => e' = e ∧ e ≠ JSONDecodeError
  end.

(** Strictly ascending [str] values. *)
Definition str_lt (a b : list N) : Prop := str_le a b ∧ a ≠ b.

(** The list [get_supported_fruits] computes from a model. *)
Definition supported_by (m : YOLO) : list (list N) :=
  sorted_set (filter (λ nm, nm ∈ model.FRUIT_CLASSES)
                (lower <$> (default [] (names m)).*2)).

(** Where the handler writes the annotated image. *)
Definition annotated_path `{Env} : list N :=
  main.OUTPUT_DIR ++ str "/" ++ uuid4_hex ++ str "_result.jpg".

(** Unfold the monad of [M] and the projections of the states. *)
Ltac run_monad :=
  cbv beta iota zeta delta
    [mbind M_bind mret M_ret get put modify lift_res zoom
     main.in_db main.in_model main.write_bytes main.unlink
     db.bind_int db.bind_text
     main.store main.disk main.globals
     model._model model._supported model._fruit_class_ids model.calls
     fst snd].

(** ** Sample data *)

Definition apple : list N := str "apple".
Definition banana : list N := str "banana".

(** A stored request with the given [counts_json] and [total_count]. *)
Definition sample_request (counts_json : list N) (total : Z) : db.request :=
  {| db.filename := str "photo.jpg"; db.output_path := str "photo_result.jpg";
     db.counts_json := counts_json; db.total_count := total;
     db.model_name := model.MODEL_NAME; db.created_at := str "2024-01-01 10:00:00";
     db.processing_ms := 40 |}.

(** A store holding the given requests under the identifiers 1, 2, ... *)
Definition sample_store (rs : list db.request) : db.store :=
  {| db.requests := list_to_map (zip (Z.of_nat <$> seq 1 (length rs)) rs);
     db.sqlite_sequence := Z.of_nat (length rs) |}.

(** Three records, with counts {apple: 2}, {banana: 1, apple: 1} and {}. *)
Definition scenario_store : db.store :=
  sample_store [sample_request (json.dumps [(apple, 2)]) 2;
                sample_request (json.dumps [(banana, 1); (apple, 1)]) 2;
                sample_request (json.dumps []) 0].

(** The mappings the records of [scenario_store] were written from, most
    recent first. *)
Definition scenario_counts : list (list (list N * Z)) :=
  [[]; [(banana, 1); (apple, 1)]; [(apple, 2)]].

(** A detector that knows four classes and reports six boxes, and one
    whose inference raises. *)
Definition sample_names : list (Z * list N) :=
  [(0, str "person"); (46, str "banana"); (47, str "Apple"); (49, str "orange")].
Definition sample_result : Results :=
  {| r_names := Some sample_names; r_boxes_cls := Some [47; 47; 46; 0; 49; 47];
     r_plot := [255; 216; 255]%N |}.
Definition sample_yolo : YOLO :=
  {| names := Some sample_names; predict := λ _ _, Some sample_result |}.
Definition failing_yolo : YOLO :=
  {| names := Some sample_names; predict := λ _ _, None |}.

Definition sample_env (m : YOLO) (verifies : bool) : Env :=
  {| int_of_str := λ _, None; float_trunc := λ _, None; yolo_new := Some m;
     elapsed_ms := 12; uuid4_hex := str "0f8a"; image_verifies := λ _, verifies;
     now := str "2024-01-01 10:00:00" |}.

Definition fresh_globals : model.globals :=
  {| model._model := None; model._supported := None;
     model._fruit_class_ids := None; model.calls := [] |}.

Definition sample_world (s : db.store) : main.world :=
  {| main.store := s; main.disk := ∅; main.globals := fresh_globals |}.

Definition sample_upload (fname : string) : main.UploadFile :=
  {| main.filename := Some (str fname); main.contents := [137; 80; 78; 71]%N |}.

(** ** Strings survive encoding and scanning *)

Lemma push_ok c content rest r :
  r = Ok (content, rest) → push c r = Ok (c :: content, rest).
Proof. by intros ->. Qed.

Lemma N_below_32 (P : N → Prop) :
  Forall P (N.of_nat <$> seq 0 32) → ∀ c, (c < 32)%N → P c.
Proof.
  intros HP c Hc. rewrite Forall_forall in HP. apply HP.
  apply list_elem_of_fmap. exists (N.to_nat c). split; [lia|].
  apply elem_of_seq. lia.
Qed.

Lemma scanstring_escape c tail :
  scanstring (default [c] (escape_char c) ++ tail) = push c (scanstring tail).
Proof.
  destruct (decide (c < 32)%N) as [Hlt|Hge].
  - revert tail. revert c Hlt.
    apply (N_below_32 (λ c, ∀ tail,
      scanstring (default [c] (escape_char c) ++ tail) = push c (scanstring tail))).
    repeat (apply Forall_cons; split; [intros tail; reflexivity|]).
    apply Forall_nil_2.
  - unfold escape_char.
    destruct (N.eqb_spec c 34) as [->|H34]; [reflexivity|].
    destruct (N.eqb_spec c 92) as [->|H92]; [reflexivity|].
    repeat match goal with
           | |- context [(c =? ?k)%N] => destruct (N.eqb_spec c k) as [->|_]; [lia|]
           end.
    destruct (N.ltb_spec c 32) as [|_]; [lia|]. simpl.
    destruct (N.eqb_spec c 34) as [|_]; [done|].
    destruct (N.eqb_spec c 92) as [|_]; [done|].
    destruct (N.ltb_spec c 32) as [|_]; [lia|]. done.
Qed.

Lemma scanstring_encoded s tail :
  scanstring ((s ≫= λ c, default [c] (escape_char c)) ++ 34%N :: tail) = Ok (s, tail).
Proof.
  induction s as [|c s IH]; [done|].
  rewrite bind_cons, <-(assoc_L (++)), scanstring_escape.
  by apply push_ok.
Qed.

(** ** Integers survive printing and scanning *)

Lemma uint_chars_digits u : Forall (λ c, is_digit c = true) (uint_chars u).
Proof. induction u; simpl; constructor; done. Qed.

Lemma chars_uint_uint_chars u : chars_uint (uint_chars u) = u.
Proof. induction u; simpl; congruence. Qed.

Lemma span_digits_app ds tail :
  Forall (λ c, is_digit c = true) ds →
  match tail with [] => True | c :: _ => is_digit c = false end →
  span_digits (ds ++ tail) = (ds, tail).
Proof.
  intros Hds Htail. induction Hds as [|c ds Hc _ IH]; simpl.
  - destruct tail as [|c tail]; [done|]. simpl. by rewrite Htail.
  - by rewrite Hc, IH.
Qed.

Lemma to_uint_leading p :
  ∃ c ds, uint_chars (Pos.to_uint p) = c :: ds ∧ is_digit c = true ∧ c ≠ 48%N.
Proof.
  pose proof (Unsigned.to_uint_nonnil p) as Hnil.
  pose proof (Unsigned.to_uint_nonzero p) as Hzero.
  pose proof (Unsigned.to_of (Pos.to_uint p)) as Hnorm.
  rewrite Unsigned.of_to in Hnorm. simpl in Hnorm.
  destruct (Pos.to_uint p) as [|u|u|u|u|u|u|u|u|u|u] eqn:E; try done;
    try (eexists _, _; split; [reflexivity|done]).
  exfalso. rewrite unorm_D0 in Hnorm. unfold Decimal.unorm in Hnorm.
  pose proof (nzhead_nonzero u u) as Hnz.
  destruct (Decimal.nzhead u) eqn:Eu; by simplify_eq.
Qed.

Lemma frac_exp_at_end tail :
  number_end tail → match_frac tail = ([], tail) ∧ match_exp tail = ([], tail).
Proof.
  destruct tail as [|c tail]; [done|]. intros (_ & H46 & H101 & H69). simpl.
  destruct (N.eqb_spec c 46) as [|_]; [done|].
  destruct (N.eqb_spec c 101) as [|_]; [done|].
  by destruct (N.eqb_spec c 69) as [|_].
Qed.

Lemma number_end_not_digit tail :
  number_end tail → match tail with [] => True | c :: _ => is_digit c = false end.
Proof. destruct tail; [done|]. by intros [? _]. Qed.

Lemma match_number_digits (neg : bool) c ds tail :
  is_digit c = true → c ≠ 48%N → Forall (λ c, is_digit c = true) ds →
  number_end tail →
  match_number ((if neg then [45%N] else []) ++ c :: ds ++ tail)
  = Some (JInt (parse_int neg (c :: ds)), tail).
Proof.
  intros Hc H48 Hds Hend. unfold match_number.
  assert (c ≠ 45%N) as H45.
  { intros ->. done. }
  destruct neg; simpl.
  - destruct (N.eqb_spec c 48) as [|_]; [done|]. rewrite Hc.
    rewrite span_digits_app by (try apply number_end_not_digit; done). simpl.
    destruct (frac_exp_at_end tail Hend) as [-> ->]. done.
  - destruct (N.eqb_spec c 45) as [|_]; [done|]. simpl.
    destruct (N.eqb_spec c 48) as [|_]; [done|]. rewrite Hc.
    rewrite span_digits_app by (try apply number_end_not_digit; done). simpl.
    destruct (frac_exp_at_end tail Hend) as [-> ->]. done.
Qed.

Lemma match_number_int_repr z tail :
  number_end tail → match_number (int_repr z ++ tail) = Some (JInt z, tail).
Proof.
  intros Hend. destruct z as [|p|p].
  - unfold match_number. simpl.
    destruct (frac_exp_at_end tail Hend) as [-> ->]. done.
  - destruct (to_uint_leading p) as (c & ds & E & Hc & H48).
    pose proof (uint_chars_digits (Pos.to_uint p)) as Hds.
    unfold int_repr. rewrite E in Hds |- *. apply Forall_cons in Hds as [_ Hds].
    etrans; [exact (match_number_digits false c ds tail Hc H48 Hds Hend)|].
    unfold parse_int. rewrite <-E, chars_uint_uint_chars.
    unfold N.of_uint. rewrite Unsigned.of_to. done.
  - destruct (to_uint_leading p) as (c & ds & E & Hc & H48).
    pose proof (uint_chars_digits (Pos.to_uint p)) as Hds.
    unfold int_repr. rewrite E in Hds |- *. apply Forall_cons in Hds as [_ Hds].
    etrans; [exact (match_number_digits true c ds tail Hc H48 Hds Hend)|].
    unfold parse_int. rewrite <-E, chars_uint_uint_chars.
    unfold N.of_uint. rewrite Unsigned.of_to. done.
Qed.

(** ** Dictionaries *)

Section dict_facts.
Context {K V : Type} `{EqDecision K}.
Implicit Types (d : list (K * V)) (k : K) (v : V).

Lemma dict_get_None d k : dict_get d k = None ↔ k ∉ d.*1.
Proof.
  induction d as [|[k' v'] d IH]; csimpl.
  - split; [intros _; apply not_elem_of_nil|done].
  - rewrite not_elem_of_cons. destruct (decide (k' = k)) as [->|Hne].
    + split; [done|]. by intros [? _].
    + rewrite IH. split; [done|]. by intros [_ ?].
Qed.

Lemma dict_get_Some_elem d k v : dict_get d k = Some v → (k, v) ∈ d.
Proof.
  induction d as [|[k' v'] d IH]; csimpl; [done|].
  destruct (decide (k' = k)) as [->|Hne].
  - intros [= ->]. left.
  - intros. right. auto.
Qed.

Lemma dict_set_fresh d k v : k ∉ d.*1 → dict_set d k v = d ++ [(k, v)].
Proof.
  induction d as [|[k' v'] d IH]; csimpl; [done|].
  rewrite not_elem_of_cons. intros [Hne Hk].
  destruct (decide (k' = k)); [congruence|]. by rewrite IH.
Qed.

Lemma dict_get_set d k v k' :
  dict_get (dict_set d k v) k' = if decide (k = k') then Some v else dict_get d k'.
Proof.
  induction d as [|[k0 v0] d IH]; csimpl.
  - by destruct (decide (k = k')).
  - destruct (decide (k0 = k)) as [->|Hne]; csimpl.
    + by destruct (decide (k = k')).
    + rewrite IH. destruct (decide (k0 = k')) as [->|]; [|done].
      by destruct (decide (k = k')).
Qed.

Lemma dict_keys_set d k v :
  (dict_set d k v).*1 = if bool_decide (k ∈ d.*1) then d.*1 else d.*1 ++ [k].
Proof.
  induction d as [|[k' v'] d IH]; csimpl; [done|].
  destruct (decide (k' = k)) as [->|Hne]; csimpl.
  - rewrite bool_decide_eq_true_2 by left. done.
  - rewrite IH. destruct (bool_decide_reflect (k ∈ d.*1)) as [Hin|Hnin].
    + rewrite bool_decide_eq_true_2 by (by right). done.
    + rewrite bool_decide_eq_false_2; [done|].
      rewrite elem_of_cons. intros [?|?]; by simplify_eq.
Qed.

Lemma dict_set_NoDup d k v : NoDup d.*1 → NoDup (dict_set d k v).*1.
Proof.
  intros Hd. rewrite dict_keys_set. case_bool_decide as Hin; [done|].
  apply NoDup_app. split_and!; [done| |apply NoDup_singleton].
  intros x Hx ->%list_elem_of_singleton. done.
Qed.

Lemma dict_of_pairs_app (acc pairs : list (K * V)) :
  NoDup (acc ++ pairs).*1 →
  foldl (λ d kv, dict_set d kv.1 kv.2) acc pairs = acc ++ pairs.
Proof.
  revert acc. induction pairs as [|[k v] pairs IH]; intros acc Hnd; csimpl.
  - by rewrite app_nil_r.
  - rewrite dict_set_fresh.
    + rewrite IH; rewrite <-(assoc_L (++)); done.
    + rewrite fmap_app in Hnd. apply NoDup_app in Hnd as (_ & Hdisj & _).
      intros Hin. apply (Hdisj k Hin). left.
Qed.

Lemma dict_of_pairs_NoDup (pairs : list (K * V)) :
  NoDup pairs.*1 → dict_of_pairs pairs = pairs.
Proof. intros Hnd. by apply (dict_of_pairs_app []). Qed.

End dict_facts.

(** ** A counts mapping survives [dumps] and [loads] *)

Lemma join_items kv items :
  join (str ", ") (encode_item <$> kv :: items) = encode_item kv ++ more_items items.
Proof.
  revert kv. induction items as [|kv' items IH]; intros kv.
  - simpl. by rewrite app_nil_r.
  - change (encode_item kv ++ str ", " ++ join (str ", ") (encode_item <$> kv' :: items)
            = encode_item kv ++ more_items (kv' :: items)).
    rewrite IH. unfold more_items. rewrite bind_cons.
    by rewrite <-!(assoc_L (++)).
Qed.

Lemma int_repr_head z :
  ∃ c r, int_repr z = c :: r ∧ (c = 45%N ∨ is_digit c = true).
Proof.
  destruct z as [|p|p]; simpl.
  - eexists _, _. split; [reflexivity|by right].
  - destruct (to_uint_leading p) as (c & ds & -> & Hc & _). eauto.
  - eexists _, _. split; [reflexivity|by left].
Qed.

Lemma skip_ws_int_repr z tail : skip_ws (int_repr z ++ tail) = int_repr z ++ tail.
Proof.
  destruct (int_repr_head z) as (c & r & -> & Hc). simpl.
  replace (is_ws c) with false; [done|].
  unfold is_ws, is_digit in *.
  destruct Hc as [->|Hc]; [done|].
  apply andb_true_iff in Hc as [?%N.leb_le ?%N.leb_le].
  symmetry. rewrite !orb_false_iff, !N.eqb_neq. lia.
Qed.

Lemma strip_prefix_head p c s :
  hd_error p ≠ Some c → p ≠ [] → strip_prefix p (c :: s) = None.
Proof.
  destruct p as [|a p]; [done|]. simpl. intros Hne _.
  destruct (N.eqb_spec a c) as [->|]; done.
Qed.

Section scan_int.
Variable scan : list N → res (value * list N).

Lemma scan_step_int z tail :
  number_end tail → scan_step scan (int_repr z ++ tail) = Ok (JInt z, tail).
Proof.
  intros Hend. pose proof (match_number_int_repr z tail Hend) as Hnum.
  destruct (int_repr_head z) as (c & r & E & Hc). rewrite E in Hnum |- *.
  assert (48 ≤ c ≤ 57 ∨ c = 45)%N as Hrange.
  { destruct Hc as [->|Hc]; [by right|left].
    apply andb_true_iff in Hc as [?%N.leb_le ?%N.leb_le]. done. }
  unfold scan_step. simpl app. lazy beta iota.
  destruct (N.eqb_spec c 34) as [|_]; [lia|].
  destruct (N.eqb_spec c 123) as [|_]; [lia|].
  destruct (N.eqb_spec c 91) as [|_]; [lia|].
  rewrite (strip_prefix_head (str "null")), (strip_prefix_head (str "true")),
    (strip_prefix_head (str "false")) by (simpl; first [done | intros [=]; lia]).
  simpl app in Hnum. by rewrite Hnum.
Qed.
End scan_int.

Lemma encode_item_eq k z :
  encode_item (k, z) = 34%N :: escaped k ++ 34%N :: 58%N :: 32%N :: int_repr z.
Proof.
  unfold encode_item, encode_basestring. cbn [fst snd].
  change (str ": ") with [58%N; 32%N]. fold (escaped k).
  by rewrite <-!(assoc_L (++)).
Qed.

Lemma more_items_cons k z items :
  more_items ((k, z) :: items)
  = 44%N :: 32%N :: 34%N :: escaped k ++ 34%N :: 58%N :: 32%N :: int_repr z
      ++ more_items items.
Proof.
  unfold more_items. rewrite bind_cons. cbn [fst snd]. rewrite encode_item_eq.
  change (str ", ") with [44%N; 32%N].
  rewrite <-!(assoc_L (++)). cbn [app]. by rewrite <-!(assoc_L (++)).
Qed.

Lemma more_items_end items tail : number_end (more_items items ++ 125%N :: tail).
Proof.
  destruct items as [|[k z] items]; [done|]. rewrite more_items_cons. done.
Qed.

Lemma skip_ws_more_items items tail :
  skip_ws (more_items items ++ 125%N :: tail) = more_items items ++ 125%N :: tail.
Proof.
  destruct items as [|[k z] items]; [done|]. rewrite more_items_cons. done.
Qed.

Section object_items.
Variable scan : list N → res (value * list N).
Hypothesis scan_int :
  ∀ z tail, number_end tail → scan (int_repr z ++ tail) = Ok (JInt z, tail).

Lemma object_loop_items items : ∀ k z pairs fuel tail,
  (length items < fuel)%nat →
  object_loop scan fuel
    (escaped k ++ 34%N :: 58%N :: 32%N :: int_repr z
       ++ more_items items ++ 125%N :: tail) pairs
  = Ok (JDict (dict_of_pairs
                 (pairs ++ ((λ kv, (kv.1, JInt kv.2)) <$> (k, z) :: items))), tail).
Proof.
  induction items as [|[k' z'] items IH]; intros k z pairs fuel tail Hfuel;
    (destruct fuel as [|fuel]; [simpl in Hfuel; lia|]);
    cbn [object_loop]; unfold escaped at 1; rewrite scanstring_encoded;
    cbn [mbind res_bind skip_ws is_ws N.eqb Pos.eqb orb];
    rewrite skip_ws_int_repr, scan_int by apply more_items_end;
    cbn [mbind res_bind]; rewrite skip_ws_more_items.
  - done.
  - rewrite more_items_cons. rewrite <-!app_comm_cons.
    cbn [N.eqb Pos.eqb skip_ws is_ws orb].
    rewrite <-!(assoc_L (++)). rewrite <-!app_comm_cons.
    rewrite <-!(assoc_L (++)).
    rewrite (IH k' z' _ fuel tail) by (simpl in Hfuel; lia).
    by rewrite <-(assoc_L (++)).
Qed.
End object_items.

Lemma scan_once_int depth z tail :
  number_end tail → scan_once (S depth) (int_repr z ++ tail) = Ok (JInt z, tail).
Proof. apply scan_step_int. Qed.

(** Encoding a mapping with [str] keys and [int] values and decoding the
    text gives the mapping back, whatever characters the keys hold and
    whatever the sign and size of the values. *)
Lemma loads_dumps (counts : list (list N * Z)) :
  NoDup (dict_keys counts) → loads (dumps counts) = Ok (json_of counts).
Proof.
  intros Hnd. unfold loads, dumps, json_of.
  destruct counts as [|[k z] items]; [done|].
  rewrite join_items, encode_item_eq.
  change (str "{") with [123%N]. change (str "}") with [125%N].
  rewrite <-!app_comm_cons, <-!(assoc_L (++)), <-!app_comm_cons.
  cbn [app]. rewrite <-?(assoc_L (++)).
  set (text := escaped k ++ _).
  cbn [scan_once skip_ws is_ws N.eqb Pos.eqb orb scan_step JSONObject].
  cbn [length]. subst text.
  rewrite (object_loop_items _ (scan_once_int _) items k z []).
  - cbn [mbind res_bind skip_ws app]. rewrite dict_of_pairs_NoDup; [done|].
    unfold dict_keys in Hnd. by rewrite <-list_fmap_compose.
  - rewrite !length_app. cbn [length]. rewrite !length_app. cbn [length].
    clear. induction items as [|[k' z'] items IH]; [simpl; lia|].
    rewrite more_items_cons. cbn [length]. rewrite !length_app. cbn [length].
    rewrite !length_app. lia.
Qed.

(** ** The decoder raises nothing but its own errors *)

Lemma push_raise c r e : push c r = Raise e → r = Raise e.
Proof. destruct r as [[??]|]; [done|]. by intros [= ->]. Qed.

Lemma scanstring_raises s e : scanstring s = Raise e → e = JSONDecodeError.
Proof.
  remember (length s) as n eqn:Hn. assert (length s ≤ n)%nat as Hlen by lia. clear Hn.
  revert s Hlen. induction n as [|n IH]; intros s Hlen.
  - destruct s; [|simpl in Hlen; lia]. by intros [= <-].
  - destruct s as [|c r]; [by intros [= <-]|]. simpl in Hlen. simpl scanstring.
    intros Hr.
    repeat (case_match; simplify_eq; try done);
      apply push_raise in Hr; (eapply IH; [|exact Hr]); simpl in *; lia.
Qed.

Section loops.
Variable scan : list N → res (value * list N).
Hypothesis scan_raises : ∀ s e, scan s = Raise e → decoder_error e.

Lemma array_loop_raises fuel s values e :
  array_loop scan fuel s values = Raise e → decoder_error e.
Proof.
  revert s values. induction fuel as [|fuel IH]; intros s values; simpl.
  - intros [= <-]. by right.
  - destruct (scan s) as [[v s1]|e'] eqn:Es; simpl.
    + repeat (case_match; simplify_eq; try done); try (intros [= <-]; by left).
      apply IH.
    + intros [= <-]. eauto.
Qed.

Lemma object_loop_raises fuel s pairs e :
  object_loop scan fuel s pairs = Raise e → decoder_error e.
Proof.
  revert s pairs. induction fuel as [|fuel IH]; intros s pairs; simpl.
  - intros [= <-]. by right.
  - destruct (scanstring s) as [[key s1]|e'] eqn:Ek; simpl.
    + repeat (case_match; simplify_eq; try done); try (intros [= <-]; by left).
      destruct (scan _) as [[v s3]|e'] eqn:Es; simpl.
      * repeat (case_match; simplify_eq; try done); try (intros [= <-]; by left).
        apply IH.
      * intros [= <-]. eauto.
    + intros [= <-]. left. by eapply scanstring_raises.
Qed.

Lemma scan_step_raises s e : scan_step scan s = Raise e → decoder_error e.
Proof.
  unfold scan_step, JSONObject, JSONArray.
  repeat (case_match; simplify_eq; try done);
    try (intros [= <-]; by left);
    eauto using array_loop_raises, object_loop_raises.
  destruct (scanstring _) as [[??]|e'] eqn:Es; simpl; [done|].
  intros [= <-]. left. by eapply scanstring_raises.
Qed.
End loops.

Lemma scan_once_raises depth s e : scan_once depth s = Raise e → decoder_error e.
Proof.
  revert s e. induction depth as [|depth IH]; intros s e; simpl.
  - intros [= <-]. by right.
  - by apply scan_step_raises.
Qed.

Lemma loads_raises s e : loads s = Raise e → decoder_error e.
Proof.
  unfold loads.
  assert ((scan_once (S (length s)) (skip_ws s) ≫= λ '(obj, rest),
            match skip_ws rest with [] => Ok obj | _ :: _ => Raise JSONDecodeError end)
          = Raise e → decoder_error e) as Hscan.
  { destruct (scan_once _ _) as [[obj rest]|e'] eqn:Es; simpl.
    - case_match; [done|]. intros [= <-]. by left.
    - intros [= <-]. by eapply scan_once_raises. }
  repeat (case_match; simplify_eq; try done); try (intros [= <-]; by left).
Qed.

(** ** The decoder never runs out of depth *)

Lemma push_inv c r content rest :
  push c r = Ok (content, rest) → ∃ content', r = Ok (content', rest).
Proof. destruct r as [[??]|]; [|done]. intros [= <- <-]. eauto. Qed.

Lemma scanstring_shorter s content rest :
  scanstring s = Ok (content, rest) → (length rest < length s)%nat.
Proof.
  remember (length s) as n eqn:Hn. assert (length s ≤ n)%nat as Hlen by lia.
  rewrite Hn. clear Hn.
  revert s content rest Hlen. induction n as [|n IH]; intros s content rest Hlen.
  - destruct s; [done|simpl in Hlen; lia].
  - destruct s as [|c r]; [done|]. simpl in Hlen. simpl scanstring.
    intros Hr.
    repeat (case_match; simplify_eq; try done); simpl; try lia;
      apply push_inv in Hr as [content' Hr]; apply IH in Hr; simpl in *; lia.
Qed.

Lemma skip_ws_length s : (length (skip_ws s) ≤ length s)%nat.
Proof. induction s as [|c s IH]; simpl; [done|]. case_match; simpl; lia. Qed.

Lemma span_digits_length s ds rest :
  span_digits s = (ds, rest) → (length rest ≤ length s)%nat.
Proof.
  revert ds rest. induction s as [|c s IH]; intros ds rest; simpl.
  - by intros [= <- <-].
  - case_match; [|intros [= <- <-]; simpl; lia].
    destruct (span_digits s) as [ds' rest'] eqn:E. intros [= <- <-].
    specialize (IH _ _ eq_refl). lia.
Qed.

Lemma strip_prefix_length p s rest :
  strip_prefix p s = Some rest → length s = (length p + length rest)%nat.
Proof.
  revert s. induction p as [|a p IH]; intros [|b s]; simpl; try done.
  - by intros [= <-].
  - by intros [= <-].
  - case_match; [|done]. intros Hr. apply IH in Hr. lia.
Qed.

Lemma match_integer_shorter s ds rest :
  match_integer s = Some (ds, rest) → (length rest < length s)%nat.
Proof.
  unfold match_integer. destruct s as [|c r]; [done|].
  case_match; [intros [= <- <-]; simpl; lia|]. case_match; [|done].
  destruct (span_digits r) as [ds' rest'] eqn:E. intros [= <- <-].
  apply span_digits_length in E. simpl. lia.
Qed.

Lemma match_frac_length s frac rest :
  match_frac s = (frac, rest) → (length rest ≤ length s)%nat.
Proof.
  unfold match_frac. destruct s as [|c r]; [by intros [= <- <-]|].
  case_match; [|by intros [= <- <-]].
  destruct (span_digits r) as [[|d ds] rest'] eqn:E; intros [= <- <-]; [done|].
  apply span_digits_length in E. simpl. lia.
Qed.

Lemma match_exp_length s exp rest :
  match_exp s = (exp, rest) → (length rest ≤ length s)%nat.
Proof.
  unfold match_exp. destruct s as [|c r]; [by intros [= <- <-]|].
  case_match; [|by intros [= <- <-]].
  assert (∃ sign r', (match r with
                      | g :: r' => if ((g =? 45) || (g =? 43))%N then ([g], r') else ([], r)
                      | [] => ([], r)
                      end) = (sign, r') ∧ (length r' ≤ length r)%nat)
    as (sign & r' & -> & Hr').
  { destruct r as [|g r']; [by eexists _, _|].
    case_match; eexists _, _; (split; [done|]); simpl; lia. }
  destruct (span_digits r') as [[|d ds] rest'] eqn:E; intros [= <- <-]; [done|].
  apply span_digits_length in E. simpl. lia.
Qed.

Lemma match_number_shorter s v rest :
  match_number s = Some (v, rest) → (length rest < length s)%nat.
Proof.
  unfold match_number.
  assert (∃ neg s1, (match s with
                     | c :: r => if (c =? 45)%N then (true, r) else (false, s)
                     | [] => (false, s)
                     end) = (neg, s1) ∧ (length s1 ≤ length s)%nat)
    as (neg & s1 & -> & Hs1).
  { destruct s as [|c r]; [by eexists _, _|].
    case_match; eexists _, _; (split; [done|]); simpl; lia. }
  destruct (match_integer s1) as [[ds s2]|] eqn:Ei; [|done].
  apply match_integer_shorter in Ei. cbn [mbind option_bind].
  destruct (match_frac s2) as [frac s3] eqn:Ef. apply match_frac_length in Ef.
  destruct (match_exp s3) as [exp s4] eqn:Ee. apply match_exp_length in Ee.
  destruct frac, exp; intros [= <- <-]; lia.
Qed.

Section loops_good.
Variable scan : list N → res (value * list N).
Variable n : nat.
Hypothesis scan_ok : scan_good scan n.

Lemma array_loop_good fuel : ∀ s values,
  (length s < n)%nat → (length s < fuel)%nat →
  array_loop scan fuel s values ≠ Raise RecursionError
  ∧ ∀ v rest, array_loop scan fuel s values = Ok (v, rest) →
      (length rest < length s)%nat.
Proof.
  induction fuel as [|fuel IH]; intros s values Hn Hfuel; [lia|].
  cbn [array_loop]. destruct (scan_ok s Hn) as [Hnr Hshort].
  destruct (scan s) as [[v s1]|e] eqn:Es; cbn [mbind res_bind].
  - specialize (Hshort _ _ eq_refl). pose proof (skip_ws_length s1) as Hws.
    destruct (skip_ws s1) as [|c s2] eqn:E1; [done|]. simpl in Hws.
    case_match; [split; [done|]; intros ?? [= <- <-]; lia|].
    case_match; [|done].
    pose proof (skip_ws_length s2) as Hws2.
    destruct (IH (skip_ws s2) (values ++ [v])) as [IH1 IH2]; [lia|lia|].
    split; [done|]. intros v' rest Hr. apply IH2 in Hr. lia.
  - split; [congruence|done].
Qed.

Lemma JSONArray_good s :
  (length s < n)%nat →
  JSONArray scan s ≠ Raise RecursionError
  ∧ ∀ v rest, JSONArray scan s = Ok (v, rest) → (length rest ≤ length s)%nat.
Proof.
  intros Hn. unfold JSONArray. pose proof (skip_ws_length s) as Hws.
  destruct (skip_ws s) as [|c r] eqn:E.
  - destruct (array_loop_good (S (length s)) [] []) as [H1 H2]; [simpl; lia..|].
    split; [done|]. intros v rest Hr. apply H2 in Hr. simpl in Hr. lia.
  - case_match; [split; [done|]; intros ?? [= <- <-]; simpl in Hws; lia|].
    rewrite <-E in Hws |- *.
    destruct (array_loop_good (S (length s)) (skip_ws s) []) as [H1 H2]; [lia..|].
    split; [done|]. intros v rest Hr. apply H2 in Hr. lia.
Qed.

Lemma object_loop_good fuel : ∀ s pairs,
  (length s < n)%nat → (length s < fuel)%nat →
  object_loop scan fuel s pairs ≠ Raise RecursionError
  ∧ ∀ v rest, object_loop scan fuel s pairs = Ok (v, rest) →
      (length rest < length s)%nat.
Proof.
  induction fuel as [|fuel IH]; intros s pairs Hn Hfuel; [lia|].
  cbn [object_loop].
  destruct (scanstring s) as [[key s1]|e] eqn:Ek; cbn [mbind res_bind].
  - apply scanstring_shorter in Ek. pose proof (skip_ws_length s1) as Hws1.
    destruct (skip_ws s1) as [|c s2] eqn:E1; [done|]. simpl in Hws1.
    case_match; [|done].
    pose proof (skip_ws_length s2) as Hws2.
    destruct (scan_ok (skip_ws s2)) as [Hnr Hshort]; [lia|].
    destruct (scan (skip_ws s2)) as [[v s3]|e] eqn:Es; cbn [mbind res_bind].
    + specialize (Hshort _ _ eq_refl). pose proof (skip_ws_length s3) as Hws3.
      destruct (skip_ws s3) as [|d s4] eqn:E3; [done|]. simpl in Hws3.
      case_match; [split; [done|]; intros ?? [= <- <-]; lia|].
      case_match; [|done].
      pose proof (skip_ws_length s4) as Hws4.
      destruct (skip_ws s4) as [|q s5] eqn:E4; [done|]. simpl in Hws4.
      case_match; [|done].
      destruct (IH s5 (pairs ++ [(key, v)])) as [IH1 IH2]; [lia|lia|].
      split; [done|]. intros v' rest Hr. apply IH2 in Hr. lia.
    + split; [congruence|done].
  - split; [|done]. intros [= ->]. by apply scanstring_raises in Ek.
Qed.

Lemma JSONObject_good s :
  (length s < n)%nat →
  JSONObject scan s ≠ Raise RecursionError
  ∧ ∀ v rest, JSONObject scan s = Ok (v, rest) → (length rest ≤ length s)%nat.
Proof.
  intros Hn. unfold JSONObject. pose proof (skip_ws_length s) as Hws.
  destruct (skip_ws s) as [|c r] eqn:E; [done|]. simpl in Hws.
  case_match.
  - destruct (object_loop_good (length s) r []) as [H1 H2]; [lia..|].
    split; [done|]. intros v rest Hr. apply H2 in Hr. lia.
  - case_match; [|done]. split; [done|]. intros ?? [= <- <-]. lia.
Qed.

Lemma scan_step_good : scan_good (scan_step scan) (S n).
Proof.
  intros s Hs. unfold scan_step. destruct s as [|c r]; [done|]. simpl in Hs.
  case_match.
  { destruct (scanstring r) as [[content rest]|e] eqn:Ek; cbn [mbind res_bind].
    - apply scanstring_shorter in Ek. split; [done|].
      intros ?? [= <- <-]. simpl. lia.
    - split; [|done]. intros [= ->]. by apply scanstring_raises in Ek. }
  case_match.
  { destruct (JSONObject_good r) as [Hobj1 Hobj2]; [lia|]. split; [done|].
    intros v rest Hr. apply Hobj2 in Hr. simpl. lia. }
  case_match.
  { destruct (JSONArray_good r) as [Harr1 Harr2]; [lia|]. split; [done|].
    intros v rest Hr. apply Harr2 in Hr. simpl. lia. }
  repeat match goal with
         | |- context [strip_prefix ?p (c :: r)] =>
             let E := fresh "E" in
             destruct (strip_prefix p (c :: r)) as [?|] eqn:E;
             [apply strip_prefix_length in E; simpl in E;
              split; [done|]; intros ?? [= <- <-]; simpl; lia|]
         | |- context [match_number (c :: r)] =>
             let E := fresh "E" in
             destruct (match_number (c :: r)) as [[??]|] eqn:E;
             [apply match_number_shorter in E;
              split; [done|]; by intros ?? [= <- <-]|]
         end.
  done.
Qed.
End loops_good.

Lemma scan_once_good depth : scan_good (scan_once depth) depth.
Proof.
  induction depth as [|depth IH]; [intros s Hs; lia|].
  by apply scan_step_good.
Qed.

(** With the depth it is given here, the decoder does not run out of
    depth: [loads] returns a value or raises [JSONDecodeError]. *)
Lemma loads_raises_decode s e : loads s = Raise e → e = JSONDecodeError.
Proof.
  intros Hl. destruct (loads_raises s e Hl) as [->| ->]; [done|]. exfalso.
  revert Hl. unfold loads.
  pose proof (skip_ws_length s) as Hws.
  destruct (scan_once_good (S (length s)) (skip_ws s)) as [Hnr _]; [lia|].
  destruct (scan_once (S (length s)) (skip_ws s)) as [[obj rest]|e] eqn:Es;
    cbn [mbind res_bind]; repeat (case_match; try done); congruence.
Qed.

(** ** The request table *)

Section table.
Implicit Types (s : db.store) (r : db.request) (i : Z).

Lemma elem_of_table_scan s i r :
  db.Row i r ∈ db.table_scan s ↔ db.requests s !! i = Some r.
Proof.
  unfold db.table_scan. rewrite list_elem_of_fmap. split.
  - intros ([i' r'] & [= -> ->] & Hin). by apply elem_of_map_to_list in Hin.
  - intros Hl. exists (i, r). split; [done|]. by apply elem_of_map_to_list.
Qed.

Lemma table_scan_ids s : db.id <$> db.table_scan s = (map_to_list (db.requests s)).*1.
Proof. unfold db.table_scan. by rewrite <-list_fmap_compose. Qed.

Lemma table_scan_NoDup s : NoDup (db.id <$> db.table_scan s).
Proof. rewrite table_scan_ids. apply NoDup_fst_map_to_list. Qed.

Lemma length_table_scan s : length (db.table_scan s) = size (db.requests s).
Proof. unfold db.table_scan. by rewrite length_fmap, length_map_to_list. Qed.

Global Instance id_desc_total : Total db.id_desc.
Proof. intros a b. unfold db.id_desc. lia. Qed.
Global Instance id_desc_trans : Transitive db.id_desc.
Proof. intros a b c. unfold db.id_desc. lia. Qed.

Lemma order_by_id_desc_perm rows : db.order_by_id_desc rows ≡ₚ rows.
Proof. apply merge_sort_Permutation. Qed.

Lemma order_by_id_desc_sorted rows : StronglySorted db.id_desc (db.order_by_id_desc rows).
Proof. apply StronglySorted_merge_sort; apply _. Qed.

Lemma StronglySorted_id_gt rows :
  NoDup (db.id <$> rows) → StronglySorted db.id_desc rows → StronglySorted id_gt rows.
Proof.
  induction 2 as [|a rows Hs IH Hall]; [constructor|].
  rewrite fmap_cons in H. apply NoDup_cons in H as [Hnin Hnd].
  constructor; [by apply IH|].
  rewrite Forall_forall in Hall |- *. intros b Hb.
  specialize (Hall b Hb). unfold db.id_desc, id_gt in *.
  destruct (decide (db.id b = db.id a)) as [Heq|]; [|lia].
  exfalso. apply Hnin. rewrite <-Heq. by apply list_elem_of_fmap_2.
Qed.

Lemma id_gt_unique l1 l2 :
  StronglySorted id_gt l1 → StronglySorted id_gt l2 → l1 ≡ₚ l2 → l1 = l2.
Proof.
  apply StronglySorted_unique_strong.
  unfold id_gt. intros ????. lia.
Qed.

End table.

(** ** Integers as binary64 *)

Section binary64.

Lemma iter_pos_iter {A} (f : A → A) n : ∀ x, SpecFloat.iter_pos f n x = Pos.iter f x n.
Proof.
  induction n as [n IH|n IH|]; intros x; simpl; [|by rewrite !IH|done].
  by rewrite !IH, <-!Pos.iter_swap.
Qed.

Lemma digits2_pos_size p : digits2_pos p = Pos.size p.
Proof. induction p; simpl; congruence. Qed.

Lemma digits2_pos_double p n :
  Z.pos (digits2_pos (Pos.iter xO p n)) = Z.pos (digits2_pos p) + Z.pos n.
Proof.
  induction n as [|n IH] using Pos.peano_ind; simpl; [lia|].
  rewrite Pos.iter_succ. simpl. lia.
Qed.

(** Doubling the mantissa and lowering the exponent by one rounds to the
    same float. *)
Lemma binary_round_double prec emax s m e :
  binary_round prec emax s (xO m) (e - 1) = binary_round prec emax s m e.
Proof.
  unfold binary_round.
  replace (Z.pos (digits2_pos m~0) + (e - 1)) with (Z.pos (digits2_pos m) + e)
    by (simpl; lia).
  set (t := fexp prec emax (Z.pos (digits2_pos m) + e)).
  unfold shl_align.
  destruct (t - e) as [|d|d] eqn:Ed.
  - (* t = e: nothing for (m, e), one step to the right for (2m, e-1) *)
    replace (t - (e - 1)) with 1 by lia.
    unfold binary_round_aux, shr_fexp.
    replace (Zdigits2 (Z.pos m~0) + (e - 1)) with (Zdigits2 (Z.pos m) + e)
      by (simpl; lia).
    simpl Zdigits2. fold t. rewrite Ed.
    replace (t - (e - 1)) with 1 by lia.
    simpl shr_record_of_loc. unfold shr at 1 3. simpl SpecFloat.iter_pos.
    by replace (e - 1 + 1) with e by lia.
  - (* t > e: both are shifted to the right *)
    replace (t - (e - 1)) with (Z.pos (Pos.succ d)) by lia.
    unfold binary_round_aux, shr_fexp.
    replace (Zdigits2 (Z.pos m~0) + (e - 1)) with (Zdigits2 (Z.pos m) + e)
      by (simpl; lia).
    simpl Zdigits2. fold t. rewrite Ed.
    replace (t - (e - 1)) with (Z.pos (Pos.succ d)) by lia.
    simpl shr_record_of_loc. unfold shr at 1 3.
    rewrite !iter_pos_iter, Pos.iter_succ_r. simpl shr_1.
    by replace (e - 1 + Z.pos (Pos.succ d)) with (e + Z.pos d) by lia.
  - (* t < e: both are shifted to the left, up to the same mantissa *)
    destruct (decide (d = 1%positive)) as [->|Hd].
    + replace (t - (e - 1)) with 0 by lia. simpl Pos.iter.
      by replace (e - 1) with t by lia.
    + replace (t - (e - 1)) with (Z.neg (Pos.pred d)) by lia.
      replace d with (Pos.succ (Pos.pred d)) at 2 by lia.
      by rewrite Pos.iter_succ_r.
Qed.

Lemma binary_round_scaled prec emax s m e k :
  binary_round prec emax s (Pos.iter xO m k) (e - Z.pos k) = binary_round prec emax s m e.
Proof.
  revert e. induction k as [|k IH] using Pos.peano_ind; intros e.
  - apply binary_round_double.
  - rewrite Pos.iter_succ.
    replace (e - Z.pos (Pos.succ k)) with (e - Z.pos k - 1) by lia.
    rewrite binary_round_double. apply IH.
Qed.

Lemma Zpos_iter_double m k : Z.pos (Pos.iter xO m k) = Z.pos m * 2 ^ Z.pos k.
Proof.
  induction k as [|k IH] using Pos.peano_ind; [simpl; lia|].
  rewrite Pos.iter_succ, Pos2Z.inj_succ, Z.pow_succ_r by lia.
  rewrite Pos2Z.inj_xO, IH. lia.
Qed.

Lemma binary_normalize_scaled prec emax z e k sz :
  0 ≤ k →
  binary_normalize prec emax (z * 2 ^ k) (e - k) sz = binary_normalize prec emax z e sz.
Proof.
  intros Hk. destruct k as [|k|k]; [|clear Hk|lia].
  { by rewrite Z.mul_1_r, Z.sub_0_r. }
  destruct z as [|m|m]; simpl binary_normalize; [done| |].
  - replace (Z.pos m * 2 ^ Z.pos k) with (Z.pos (Pos.iter xO m k))
      by apply Zpos_iter_double.
    apply binary_round_scaled.
  - replace (Z.neg m * 2 ^ Z.pos k) with (Z.neg (Pos.iter xO m k))
      by (rewrite <-!Pos2Z.opp_pos, Zpos_iter_double; lia).
    apply binary_round_scaled.
Qed.

Lemma binary_round_aux_canonical prec emax s m e :
  fexp prec emax (Z.pos (digits2_pos m) + e) = e → e ≤ emax - prec →
  binary_round_aux prec emax s (Z.pos m) e loc_Exact = S754_finite s m e.
Proof.
  intros Hcanon Hmax. unfold binary_round_aux, shr_fexp. simpl Zdigits2.
  rewrite Hcanon, Z.sub_diag. simpl. rewrite Hcanon, Z.sub_diag. simpl.
  by rewrite (proj2 (Z.leb_le _ _) Hmax).
Qed.

(** The float of a non-zero integer of at most 53 bits, or of 2^53: its
    sign, and a mantissa and an exponent that give back its magnitude. *)
Lemma real_of_int_finite a :
  a ≠ 0 → Z.abs a ≤ 2 ^ 53 →
  ∃ m e, db.real_of_int a = S754_finite (bool_decide (a < 0)) m e
         ∧ -52 ≤ e ≤ 1 ∧ Z.pos m * 2 ^ (e + 52) = Z.abs a * 2 ^ 52.
Proof.
  intros Ha Hle.
  assert (∀ s p, Z.pos p ≤ 2 ^ 53 →
    ∃ m e, binary_round 53 1024 s p 0 = S754_finite s m e
           ∧ -52 ≤ e ≤ 1 ∧ Z.pos m * 2 ^ (e + 52) = Z.pos p * 2 ^ 52) as Hround.
  { intros s p Hp.
    pose proof (Pos.size_gt p) as Hgt. pose proof (Pos.size_le p) as Hsize.
    pose proof (digits2_pos_size p) as Hd.
    apply Pos2Z.pos_lt_pos in Hgt. apply Pos2Z.pos_le_pos in Hsize.
    rewrite Pos2Z.inj_pow in Hgt, Hsize.
    rewrite <-Hd in Hgt, Hsize. set (d := Z.pos (digits2_pos p)) in *.
    assert (1 ≤ d) as Hd1 by (unfold d; lia).
    assert (d ≤ 54) as Hd54.
    { destruct (decide (d ≤ 54)) as [|Hn]; [done|]. exfalso.
      assert (2 ^ 55 ≤ 2 ^ d) by (apply Z.pow_le_mono_r; lia). lia. }
    destruct (decide (d = 54)) as [Hd'|Hd'].
    - assert (p = (2 ^ 53)%positive) as ->.
      { rewrite Hd' in Hsize. apply Pos2Z.inj. rewrite Pos2Z.inj_pow. lia. }
      eexists _, _. split; [vm_compute; reflexivity|]. split; [lia|]. vm_compute. done.
    - unfold binary_round. rewrite Z.add_0_r. fold d.
      assert (fexp 53 1024 d = d - 53) as Ht by (unfold fexp, emin; lia).
      rewrite Ht. unfold shl_align.
      destruct (d - 53 - 0) as [|k|k] eqn:Ek; [|lia|].
      + exists p, 0. rewrite binary_round_aux_canonical.
        * split; [done|]. split; [lia|]. done.
        * rewrite Z.add_0_r. fold d. lia.
        * lia.
      + exists (Pos.iter xO p k), (d - 53). rewrite binary_round_aux_canonical.
        * split; [done|]. split; [lia|]. rewrite Zpos_iter_double.
          rewrite <-Z.mul_assoc, <-Z.pow_add_r by lia. do 2 f_equal. lia.
        * rewrite digits2_pos_double. fold d. unfold fexp, emin. lia.
        * lia. }
  unfold db.real_of_int. destruct a as [|p|p]; [done| |]; simpl binary_normalize.
  - destruct (Hround false p Hle) as (m & e & -> & He & Hm).
    exists m, e. rewrite bool_decide_eq_false_2 by lia. done.
  - destruct (Hround true p Hle) as (m & e & -> & He & Hm).
    exists m, e. rewrite bool_decide_eq_true_2 by lia. done.
Qed.

Lemma shl_align_value m e e' :
  e' ≤ e → Z.pos (fst (shl_align m e e')) = Z.pos m * 2 ^ (e - e').
Proof.
  intros He. unfold shl_align. destruct (e' - e) as [|k|k] eqn:Ek; [|lia|]; simpl.
  - replace (e - e') with 0 by lia. lia.
  - rewrite Zpos_iter_double. f_equal. f_equal. lia.
Qed.

(** Adding two integers as floats is exact as long as the operands and
    the sum stay within 2^53. *)
Lemma binary64_add_exact a b :
  Z.abs a ≤ 2 ^ 53 → Z.abs b ≤ 2 ^ 53 → Z.abs (a + b) ≤ 2 ^ 53 →
  SFadd 53 1024 (db.real_of_int a) (db.real_of_int b) = db.real_of_int (a + b).
Proof.
  intros Ha Hb Hab.
  destruct (decide (a = 0)) as [->|Ha0].
  { destruct (decide (b = 0)) as [->|Hb0]; [done|].
    destruct (real_of_int_finite b Hb0 Hb) as (m & e & Hfb & _).
    rewrite Z.add_0_l, Hfb. done. }
  destruct (decide (b = 0)) as [->|Hb0].
  { destruct (real_of_int_finite a Ha0 Ha) as (m & e & Hfa & _).
    rewrite Z.add_0_r, Hfa. done. }
  destruct (real_of_int_finite a Ha0 Ha) as (ma & ea & -> & Hea & Hma).
  destruct (real_of_int_finite b Hb0 Hb) as (mb & eb & -> & Heb & Hmb).
  unfold SFadd. set (ez := Z.min ea eb).
  set (M := cond_Zopp _ _ + cond_Zopp _ _).
  assert (M * 2 ^ (ez + 52) = (a + b) * 2 ^ 52) as HM.
  { unfold M. rewrite !shl_align_value by (unfold ez; lia).
    assert (∀ (x : Z) m e, -52 ≤ ez ≤ e →
              Z.pos m * 2 ^ (e + 52) = Z.abs x * 2 ^ 52 →
              cond_Zopp (bool_decide (x < 0)) (Z.pos m * 2 ^ (e - ez)) * 2 ^ (ez + 52)
              = x * 2 ^ 52) as Hside.
    { intros x m e He Hm.
      assert (Z.pos m * 2 ^ (e - ez) * 2 ^ (ez + 52) = Z.abs x * 2 ^ 52) as Hv.
      { rewrite <-Hm, <-Z.mul_assoc, <-Z.pow_add_r by lia. do 2 f_equal. lia. }
      unfold cond_Zopp. case_bool_decide; lia. }
    rewrite Z.mul_add_distr_r.
    rewrite (Hside a ma ea), (Hside b mb eb) by (done || unfold ez; lia). lia. }
  unfold db.real_of_int.
  rewrite <-(binary_normalize_scaled 53 1024 (a + b) 0 52) by lia.
  rewrite <-(binary_normalize_scaled 53 1024 M ez (ez + 52)) by (unfold ez; lia).
  rewrite HM. f_equal. lia.
Qed.

End binary64.

(** ** Reads *)

Section reads.
Implicit Types (s : db.store) (n : Z).

Lemma fetch_all_eq s : db.fetch_all s = (Ok (all_rows s), s).
Proof. done. Qed.

Lemma fetch_recent_eq s n :
  db.fetch_recent n s
  = (if decide (db.int64 n) then Ok (db.sql_limit n (all_rows s)) else Raise OverflowError,
     s).
Proof. unfold db.fetch_recent. run_monad. by case_decide. Qed.

Lemma fetch_recent_10 s : db.fetch_recent 10 s = (Ok (take 10 (all_rows s)), s).
Proof. by rewrite fetch_recent_eq. Qed.

Lemma all_rows_perm s : all_rows s ≡ₚ db.table_scan s.
Proof. apply order_by_id_desc_perm. Qed.

Lemma length_all_rows s : length (all_rows s) = size (db.requests s).
Proof. by rewrite all_rows_perm, length_table_scan. Qed.

Lemma elem_of_all_rows s i r :
  db.Row i r ∈ all_rows s ↔ db.requests s !! i = Some r.
Proof. by rewrite all_rows_perm, elem_of_table_scan. Qed.

Lemma all_rows_descending s : StronglySorted id_gt (all_rows s).
Proof.
  apply StronglySorted_id_gt; [|apply order_by_id_desc_sorted].
  rewrite all_rows_perm. apply table_scan_NoDup.
Qed.

Lemma StronglySorted_take {A} (R : relation A) k l :
  StronglySorted R l → StronglySorted R (take k l).
Proof.
  intros Hl. revert k. induction Hl as [|x l Hl IH Hx]; intros [|k]; simpl;
    try constructor; [by apply IH|].
  eapply Forall_take. done.
Qed.

Lemma sql_limit_prefix n (rows : list db.row) : db.sql_limit n rows `prefix_of` rows.
Proof. unfold db.sql_limit. case_decide; [done|]. apply prefix_take. Qed.

End reads.

Lemma sum_Permutation (xs ys : list Z) : xs ≡ₚ ys → sum xs = sum ys.
Proof. unfold sum. induction 1; simpl; lia. Qed.

Lemma rowid_scan_perm s : db.rowid_scan s ≡ₚ db.table_scan s.
Proof. apply merge_sort_Permutation. Qed.

Lemma sum_total_count s :
  sum ((λ r, db.total_count (db.data r)) <$> db.table_scan s) = persisted_total s.
Proof.
  unfold persisted_total, db.table_scan. rewrite map_fold_foldr.
  induction (map_to_list (db.requests s)) as [|[i r] l IH]; [done|].
  csimpl. unfold sum in *. simpl. by rewrite IH.
Qed.

Lemma sum_magnitude s :
  sum (Z.abs <$> ((λ r, db.total_count (db.data r)) <$> db.table_scan s))
  = persisted_magnitude s.
Proof.
  unfold persisted_magnitude, db.table_scan. rewrite map_fold_foldr.
  induction (map_to_list (db.requests s)) as [|[i r] l IH]; [done|].
  csimpl. unfold sum in *. simpl. by rewrite IH.
Qed.

(** The column SUM and AVG run over, with its sum, the sum of its
    magnitudes and its length. *)
Lemma rowid_column s :
  let col := (λ r, db.total_count (db.data r)) <$> db.rowid_scan s in
  sum col = persisted_total s
  ∧ sum (Z.abs <$> col) = persisted_magnitude s
  ∧ Z.of_nat (length col) = persisted_count s.
Proof.
  cbn zeta. split_and!.
  - rewrite <-sum_total_count. apply sum_Permutation. by rewrite rowid_scan_perm.
  - rewrite <-sum_magnitude. apply sum_Permutation. by rewrite rowid_scan_perm.
  - unfold persisted_count. by rewrite length_fmap, rowid_scan_perm, length_table_scan.
Qed.

Lemma sum_cons x xs : sum (x :: xs) = x + sum xs.
Proof. done. Qed.

Lemma sum_magnitude_nonneg (xs : list Z) : 0 ≤ sum (Z.abs <$> xs).
Proof. induction xs as [|x xs IH]; [done|]. rewrite fmap_cons, sum_cons. lia. Qed.

Lemma for_each_sum_step_raises xs : ∀ acc e,
  for_each db.sum_step acc xs = Raise e → e = OperationalError.
Proof.
  induction xs as [|x xs IH]; intros acc e; [done|].
  cbn [for_each]. destruct (db.sum_step acc x) as [acc'|e'] eqn:E; simpl; [apply IH|].
  intros [= <-]. unfold db.sum_step in E. case_decide; congruence.
Qed.

Lemma sql_sum_raises xs e : db.sql_sum xs = Raise e → e = OperationalError.
Proof.
  destruct xs as [|x xs]; [done|]. unfold db.sql_sum.
  destruct (for_each db.sum_step 0 (x :: xs)) eqn:E; [done|]. simpl.
  intros [= <-]. by eapply for_each_sum_step_raises.
Qed.

(** The scan visits the rows by ascending identifier. *)
Global Instance id_asc_total : Total db.id_asc.
Proof. intros a b. unfold db.id_asc. lia. Qed.
Global Instance id_asc_trans : Transitive db.id_asc.
Proof. intros a b c. unfold db.id_asc. lia. Qed.

Lemma StronglySorted_id_lt rows :
  NoDup (db.id <$> rows) → StronglySorted db.id_asc rows → StronglySorted id_lt rows.
Proof.
  induction 2 as [|a rows Hs IH Hall]; [constructor|].
  rewrite fmap_cons in H. apply NoDup_cons in H as [Hnin Hnd].
  constructor; [by apply IH|].
  rewrite Forall_forall in Hall |- *. intros b Hb.
  specialize (Hall b Hb). unfold db.id_asc, id_lt in *.
  destruct (decide (db.id b = db.id a)) as [Heq|]; [|lia].
  exfalso. apply Hnin. rewrite <-Heq. by apply list_elem_of_fmap_2.
Qed.

Lemma rowid_scan_ascending s : StronglySorted id_lt (db.rowid_scan s).
Proof.
  apply StronglySorted_id_lt.
  - rewrite rowid_scan_perm. apply table_scan_NoDup.
  - apply StronglySorted_merge_sort; apply _.
Qed.

Lemma column_up_to_cons i a rows :
  column_up_to i (a :: rows)
  = if decide (db.id a ≤ i) then db.total_count (db.data a) :: column_up_to i rows
    else column_up_to i rows.
Proof. unfold column_up_to. rewrite filter_cons. by case_decide. Qed.

Lemma column_up_to_nil i rows :
  Forall (λ b, i < db.id b) rows → column_up_to i rows = [].
Proof.
  induction 1 as [|b rows Hb _ IH]; [done|].
  rewrite column_up_to_cons, decide_False by lia. done.
Qed.

Lemma total_up_to_table_scan s i :
  total_up_to s i = sum (column_up_to i (db.table_scan s)).
Proof.
  unfold total_up_to, db.table_scan. rewrite map_fold_foldr.
  induction (map_to_list (db.requests s)) as [|[j r] l IH]; [done|].
  rewrite fmap_cons, column_up_to_cons. cbn [foldr uncurry fst snd db.id db.data].
  rewrite IH. case_decide; [by rewrite sum_cons|done].
Qed.

Lemma total_up_to_rowid_scan s i :
  total_up_to s i = sum (column_up_to i (db.rowid_scan s)).
Proof.
  rewrite total_up_to_table_scan. apply sum_Permutation.
  unfold column_up_to. by rewrite rowid_scan_perm.
Qed.

Lemma column_up_to_magnitude i rows :
  Z.abs (sum (column_up_to i rows))
  ≤ sum (Z.abs <$> ((λ r, db.total_count (db.data r)) <$> rows)).
Proof.
  induction rows as [|a rows IH]; [done|].
  rewrite column_up_to_cons, !fmap_cons, sum_cons.
  case_decide; rewrite ?sum_cons; lia.
Qed.

(** SUM over rows in ascending order of their identifiers: it returns
    the sum when the sum up to each identifier is an INTEGER, and raises
    when one is not. *)
Lemma for_each_sum_step_sorted rows : ∀ acc,
  StronglySorted id_lt rows → db.int64 acc →
  match for_each db.sum_step acc ((λ r, db.total_count (db.data r)) <$> rows) with
  | Ok total =>
      total = acc + sum ((λ r, db.total_count (db.data r)) <$> rows)
      ∧ ∀ i, db.int64 (acc + sum (column_up_to i rows))
  | Raise e =>
      e = OperationalError ∧ ∃ i, ¬ db.int64 (acc + sum (column_up_to i rows))
  end.
Proof.
  induction rows as [|a rows IH]; intros acc Hsorted Hacc.
  - simpl. split; [unfold sum; simpl; lia|]. intros i.
    unfold column_up_to, sum. simpl. by rewrite Z.add_0_r.
  - apply StronglySorted_inv in Hsorted as [Hsorted Hall].
    rewrite fmap_cons. cbn [for_each].
    destruct (db.sum_step acc (db.total_count (db.data a))) as [acc'|e] eqn:Estep;
      unfold db.sum_step in Estep; case_decide as Hfit; simplify_eq.
    + specialize (IH _ Hsorted Hfit). cbn [mbind res_bind].
      destruct (for_each db.sum_step _ _) as [total|e].
      * destruct IH as [-> Hall']. split; [rewrite sum_cons; lia|].
        intros i. rewrite column_up_to_cons. case_decide.
        -- rewrite sum_cons, Z.add_assoc. apply Hall'.
        -- rewrite column_up_to_nil; [unfold sum; simpl; by rewrite Z.add_0_r|].
           eapply Forall_impl; [exact Hall|]. unfold id_lt. intros b ?. lia.
      * destruct IH as [-> [i Hi]]. split; [done|]. exists i.
        rewrite column_up_to_cons. case_decide.
        -- by rewrite sum_cons, Z.add_assoc.
        -- exfalso. apply Hi. rewrite column_up_to_nil; [unfold sum; simpl; by rewrite Z.add_0_r|].
           eapply Forall_impl; [exact Hall|]. unfold id_lt. intros b ?. lia.
    + cbn [mbind res_bind]. split; [done|]. exists (db.id a).
      rewrite column_up_to_cons, decide_True by lia.
      rewrite column_up_to_nil; [unfold sum; simpl; by rewrite Z.add_0_r|].
      eapply Forall_impl; [exact Hall|]. unfold id_lt. intros b ?. lia.
Qed.

Lemma int64_0 : db.int64 0.
Proof. unfold db.int64. lia. Qed.

Lemma sql_sum_rowid_scan s :
  match db.sql_sum ((λ r, db.total_count (db.data r)) <$> db.rowid_scan s) with
  | Ok total =>
      db.coalesce total (db.SqlInt 0) = db.SqlInt (persisted_total s)
      ∧ running_totals_fit s
  | Raise e => e = OperationalError ∧ ¬ running_totals_fit s
  end.
Proof.
  pose proof (for_each_sum_step_sorted _ 0 (rowid_scan_ascending s) int64_0) as Hrun.
  destruct (rowid_column s) as (Hsum & _ & _). unfold db.sql_sum.
  destruct ((λ r, db.total_count (db.data r)) <$> db.rowid_scan s) as [|x xs] eqn:Ecol.
  - destruct Hrun as [_ Hfit]. split; [by rewrite <-Hsum|].
    intros i. rewrite total_up_to_rowid_scan. apply (Hfit i).
  - destruct (for_each db.sum_step 0 (x :: xs)) as [total|e]; cbn [mbind res_bind].
    + destruct Hrun as [-> Hfit]. split; [by rewrite Z.add_0_l, Hsum|].
      intros i. rewrite total_up_to_rowid_scan. apply (Hfit i).
    + destruct Hrun as [-> [i Hi]]. split; [done|]. intros Hfit. apply Hi.
      rewrite Z.add_0_l, <-total_up_to_rowid_scan. apply Hfit.
Qed.

Lemma magnitude_fits s : persisted_magnitude s < 2 ^ 63 → running_totals_fit s.
Proof.
  intros Hmag i. rewrite total_up_to_table_scan.
  pose proof (column_up_to_magnitude i (db.table_scan s)) as Hle.
  rewrite sum_magnitude in Hle. unfold db.int64. lia.
Qed.

(** The running sum of AVG is exact when the magnitudes add up to at most
    2^53. *)
Lemma foldl_add_exact xs : ∀ acc,
  Z.abs acc + sum (Z.abs <$> xs) ≤ 2 ^ 53 →
  foldl (λ r x, SFadd 53 1024 r (db.real_of_int x)) (db.real_of_int acc) xs
  = db.real_of_int (acc + sum xs).
Proof.
  induction xs as [|x xs IH]; intros acc Hacc.
  - simpl. f_equal. unfold sum. simpl. lia.
  - rewrite fmap_cons, sum_cons in Hacc. pose proof (sum_magnitude_nonneg xs).
    cbn [foldl]. rewrite binary64_add_exact by lia.
    rewrite IH by lia. f_equal. rewrite sum_cons. lia.
Qed.

Lemma get_summary_eq s :
  let col := (λ r, db.total_count (db.data r)) <$> db.rowid_scan s in
  db.get_summary s =
    (total ← db.sql_sum col;
     Ok {| db.total_requests := db.sql_count (db.rowid_scan s);
           db.total_fruits := db.coalesce total (db.SqlInt 0);
           db.avg_per_request := db.coalesce (db.sql_avg col) (db.SqlInt 0) |}, s).
Proof. unfold db.get_summary. run_monad. by destruct (db.sql_sum _). Qed.

Lemma get_summary_store s : (db.get_summary s).2 = s.
Proof. by rewrite get_summary_eq. Qed.

Lemma get_summary_raises s e : (db.get_summary s).1 = Raise e → e = OperationalError.
Proof.
  rewrite get_summary_eq. simpl.
  destruct (db.sql_sum _) eqn:E; [done|]. simpl. intros [= <-].
  by eapply sql_sum_raises.
Qed.

(** What [get_summary] returns, and when. *)
Lemma get_summary_exact s :
  (running_totals_fit s →
     ∃ avg,
       db.get_summary s =
         (Ok {| db.total_requests := db.SqlInt (persisted_count s);
                db.total_fruits := db.SqlInt (persisted_total s);
                db.avg_per_request := avg |}, s)
       ∧ (persisted_count s = 0 → avg = db.SqlInt 0)
       ∧ (0 < persisted_count s → ∃ x, avg = db.SqlReal x)
       ∧ (0 < persisted_count s → persisted_magnitude s ≤ 2 ^ 53 →
            avg = db.SqlReal
                    (binary64_quotient (persisted_total s) (persisted_count s))))
  ∧ (¬ running_totals_fit s → db.get_summary s = (Raise OperationalError, s)).
Proof.
  rewrite get_summary_eq. cbn zeta.
  pose proof (sql_sum_rowid_scan s) as Hsql.
  destruct (rowid_column s) as (Hsum & Hmag & Hlen).
  unfold db.sql_count. rewrite <-(length_fmap (λ r, db.total_count (db.data r))), Hlen.
  destruct (db.sql_sum _) as [total|e]; cbn [mbind res_bind].
  - destruct Hsql as [-> Hfit]. split; [intros _|done].
    destruct ((λ r, db.total_count (db.data r)) <$> db.rowid_scan s) as [|x xs] eqn:Ecol.
    + exists (db.SqlInt 0). simpl in Hlen. split_and!; [done|done|lia|lia].
    + eexists. split; [reflexivity|].
      split_and!; [cbn [length] in Hlen; lia|eauto|].
      intros _ Hexact. unfold db.sql_avg, db.coalesce, binary64_quotient. do 2 f_equal.
      * change (S754_zero false) with (db.real_of_int 0).
        rewrite foldl_add_exact by (rewrite Hmag; simpl; lia).
        by rewrite Z.add_0_l, Hsum.
      * by rewrite Hlen.
  - destruct Hsql as [-> Hover]. split; [done|]. by intros _.
Qed.

(** What [get_summary] returns while the magnitudes add up to less than
    2^63. *)
Lemma get_summary_value s :
  persisted_magnitude s < 2 ^ 63 →
  ∃ avg,
    db.get_summary s =
      (Ok {| db.total_requests := db.SqlInt (persisted_count s);
             db.total_fruits := db.SqlInt (persisted_total s);
             db.avg_per_request := avg |}, s)
    ∧ (persisted_count s = 0 → avg = db.SqlInt 0)
    ∧ (0 < persisted_count s → ∃ x, avg = db.SqlReal x)
    ∧ (0 < persisted_count s → persisted_magnitude s ≤ 2 ^ 53 →
         avg = db.SqlReal (binary64_quotient (persisted_total s) (persisted_count s))).
Proof. intros Hmag. by apply get_summary_exact, magnitude_fits. Qed.

(** C1, amended: [get_summary] leaves the store as it is, and returns
    exactly on the stores where the sum of [total_count] over the records
    up to each identifier is a 64-bit integer, as it is whenever the
    magnitudes of the [total_count] add up to less than 2^63; on the
    other stores it raises.  When it returns, [total_requests] is the
    number of persisted records and [total_fruits] the sum of their
    [total_count]; on a store without records [avg_per_request] is the
    integer zero; otherwise it is a binary64, and while the magnitudes
    add up to at most 2^53 it is the binary64 quotient of that sum by
    that number. *)
Theorem get_summary_spec (s : db.store) :
  (running_totals_fit s →
     ∃ avg,
       db.get_summary s =
         (Ok {| db.total_requests := db.SqlInt (persisted_count s);
                db.total_fruits := db.SqlInt (persisted_total s);
                db.avg_per_request := avg |}, s)
       ∧ (persisted_count s = 0 → avg = db.SqlInt 0)
       ∧ (0 < persisted_count s → ∃ x, avg = db.SqlReal x)
       ∧ (0 < persisted_count s → persisted_magnitude s ≤ 2 ^ 53 →
            avg = db.SqlReal
                    (binary64_quotient (persisted_total s) (persisted_count s))))
  ∧ (¬ running_totals_fit s → db.get_summary s = (Raise OperationalError, s))
  ∧ (persisted_magnitude s < 2 ^ 63 → running_totals_fit s).
Proof.
  destruct (get_summary_exact s) as [Hfit Hover].
  split; [exact Hfit|]. split; [exact Hover|]. apply magnitude_fits.
Qed.

Lemma get_counts_by_class_eq `{Env} s :
  db.get_counts_by_class s = (for_each db.add_row [] (all_rows s), s).
Proof. done. Qed.

(** C8: reading the summary or the per-class totals twice in a row gives
    the same result twice, and the store the first call leaves is the one
    it was given. *)
Theorem reads_idempotent `{Env} (s : db.store) :
  (db.get_summary s).2 = s
  ∧ (db.get_summary (db.get_summary s).2).1 = (db.get_summary s).1
  ∧ (db.get_counts_by_class s).2 = s
  ∧ (db.get_counts_by_class (db.get_counts_by_class s).2).1
    = (db.get_counts_by_class s).1.
Proof.
  rewrite get_counts_by_class_eq. rewrite !get_summary_store. done.
Qed.

(** C5, amended: for every limit [n] that fits in 64 bits,
    [fetch_recent n] returns a prefix of what [fetch_all] returns, which
    are the persisted records, strictly descending by [id]; the prefix is
    all of it when [n] is negative or the store holds at most [n]
    records, and for [n ≥ 0] it has at most [n] records.  For the other
    limits [fetch_recent] raises. *)
Theorem fetch_recent_spec (s : db.store) (n : Z) :
  (db.int64 n →
     ∃ rows all,
       db.fetch_recent n s = (Ok rows, s) ∧ db.fetch_all s = (Ok all, s)
       ∧ StronglySorted id_gt all
       ∧ (∀ i r, db.Row i r ∈ all ↔ db.requests s !! i = Some r)
       ∧ rows `prefix_of` all
       ∧ StronglySorted id_gt rows
       ∧ (n < 0 ∨ persisted_count s ≤ n → rows = all)
       ∧ (0 ≤ n → Z.of_nat (length rows) ≤ n))
  ∧ (¬ db.int64 n → db.fetch_recent n s = (Raise OverflowError, s)).
Proof.
  split; [|by intros Hn; rewrite fetch_recent_eq, decide_False].
  intros Hn. exists (db.sql_limit n (all_rows s)), (all_rows s).
  rewrite fetch_recent_eq, decide_True by done.
  split_and!; try done.
  - apply all_rows_descending.
  - apply elem_of_all_rows.
  - apply sql_limit_prefix.
  - unfold db.sql_limit. case_decide; [apply all_rows_descending|].
    apply StronglySorted_take, all_rows_descending.
  - unfold db.sql_limit, persisted_count. case_decide; [done|].
    intros [?|Hle]; [lia|]. apply take_ge. rewrite length_all_rows. lia.
  - intros Hpos. unfold db.sql_limit. rewrite decide_False by lia.
    rewrite length_take. lia.
Qed.

(** C10, amended: [fetch_recent 0] is empty; a negative limit that fits
    in 64 bits returns every persisted record, each once, most recent
    first; a limit outside 64 bits raises; and among the limits that
    fit, the bound "at most [n] records" holds on every store exactly
    for [n ≥ 0], a store with a record breaking it for the others. *)
Theorem fetch_recent_limit_edge (s : db.store) (n : Z) :
  db.fetch_recent 0 s = (Ok [], s)
  ∧ (n < 0 → db.int64 n →
       ∃ rows, db.fetch_recent n s = (Ok rows, s)
               ∧ StronglySorted id_gt rows
               ∧ Z.of_nat (length rows) = persisted_count s
               ∧ ∀ i r, db.Row i r ∈ rows ↔ db.requests s !! i = Some r)
  ∧ (¬ db.int64 n → db.fetch_recent n s = (Raise OverflowError, s))
  ∧ (0 ≤ n → ∀ rows, db.fetch_recent n s = (Ok rows, s) → Z.of_nat (length rows) ≤ n)
  ∧ (n < 0 → ∀ rows, db.fetch_recent n s = (Ok rows, s) →
       0 < persisted_count s → 0 < Z.of_nat (length rows)).
Proof.
  rewrite !fetch_recent_eq. split_and!.
  - done.
  - intros Hneg Hfit. rewrite decide_True by done. eexists. split; [done|].
    unfold db.sql_limit. rewrite decide_True by done.
    split_and!; [apply all_rows_descending| |apply elem_of_all_rows].
    unfold persisted_count. by rewrite length_all_rows.
  - intros Hout. by rewrite decide_False.
  - intros Hpos rows. case_decide; [|done]. intros [= <-].
    unfold db.sql_limit. rewrite decide_False by lia. rewrite length_take. lia.
  - intros Hneg rows. case_decide; [|done]. intros [= <-].
    unfold db.sql_limit, persisted_count. rewrite decide_True by done.
    rewrite length_all_rows. lia.
Qed.

(** ** Insertion *)

Section insert.
Implicit Types (s : db.store).

Lemma foldr_max_ge (i : Z) (l : list Z) : i ≤ foldr Z.max i l ∧ Forall (λ j, j ≤ foldr Z.max i l) l.
Proof.
  induction l as [|j l [IH1 IH2]]; simpl; [split; [lia|constructor]|].
  split; [lia|]. constructor; [lia|].
  eapply Forall_impl; [done|]. simpl. intros. lia.
Qed.

Lemma next_rowid_above s i r : db.requests s !! i = Some r → i < db.next_rowid s.
Proof.
  intros Hi%elem_of_table_scan. unfold db.next_rowid.
  apply (list_elem_of_fmap_2 db.id) in Hi. simpl in Hi.
  destruct (db.id <$> db.table_scan s) as [|j l]; [by apply elem_of_nil in Hi|].
  destruct (foldr_max_ge j l) as [Hj Hl]. rewrite Forall_forall in Hl.
  apply elem_of_cons in Hi as [->|Hi]; [lia|]. specialize (Hl i Hi). lia.
Qed.

Lemma next_rowid_fresh s : db.requests s !! db.next_rowid s = None.
Proof.
  destruct (db.requests s !! db.next_rowid s) as [r|] eqn:E; [|done].
  apply next_rowid_above in E. lia.
Qed.

(** The two outcomes of [insert_request]. *)
Lemma insert_request_inv fn op counts tc mn ca ms s out s' :
  db.insert_request fn op counts tc mn ca ms s = (out, s') →
  match out with
  | Ok i =>
      i = db.next_rowid s ∧ db.int64 i
      ∧ s' = inserted (request_of fn op counts tc mn ca ms) s
      ∧ insertable fn op counts tc mn ca ms
  | Raise e =>
      s' = s ∧ insert_error e
      ∧ ¬ (insertable fn op counts tc mn ca ms ∧ db.int64 (db.next_rowid s))
  end.
Proof.
  unfold db.insert_request, insertable, printable, insert_error. run_monad.
  repeat (case_decide; run_monad;
          [|intros [= <- <-]; split; [done|]; split; [eauto|tauto]]).
  intros [= <- <-]. done.
Qed.

Lemma table_scan_inserted new s :
  db.table_scan (inserted new s) ≡ₚ db.Row (db.next_rowid s) new :: db.table_scan s.
Proof.
  unfold db.table_scan. simpl.
  rewrite map_to_list_insert by apply next_rowid_fresh. done.
Qed.

Lemma all_rows_inserted new s :
  all_rows (inserted new s) = db.Row (db.next_rowid s) new :: all_rows s.
Proof.
  apply id_gt_unique.
  - apply all_rows_descending.
  - constructor; [apply all_rows_descending|].
    apply Forall_forall. intros [i r] Hin%elem_of_all_rows.
    unfold id_gt. simpl. by eapply next_rowid_above.
  - rewrite !all_rows_perm. apply table_scan_inserted.
Qed.

End insert.

(** ** Per-class totals *)

Section totals.
Context `{Env}.

Lemma for_each_add_item totals counts :
  for_each db.add_item totals ((λ kv, (kv.1, json.JInt kv.2)) <$> counts)
  = Ok (add_counts totals counts).
Proof.
  revert totals. induction counts as [|[k v] counts IH]; intros totals; [done|].
  csimpl. unfold db.add_item at 1. simpl. apply IH.
Qed.

Lemma add_row_written totals counts r :
  written_with counts r → db.add_row totals r = Ok (add_counts totals counts).
Proof.
  intros [Hnd Hjson]. unfold db.add_row. rewrite Hjson, loads_dumps by done.
  simpl. apply for_each_add_item.
Qed.

Lemma add_row_undecodable totals r :
  json.loads (db.counts_json (db.data r)) = Raise JSONDecodeError →
  db.add_row totals r = Ok totals.
Proof. intros Hjson. unfold db.add_row. by rewrite Hjson. Qed.

Lemma for_each_add_row totals cs rows :
  Forall2 written_with cs rows →
  for_each db.add_row totals rows = Ok (foldl add_counts totals cs).
Proof.
  intros Hall. revert totals. induction Hall as [|c r cs rows Hc _ IH]; intros totals; [done|].
  simpl. rewrite (add_row_written _ c) by done. simpl. apply IH.
Qed.

Lemma dict_get_add_counts totals counts k :
  NoDup (dict_keys counts) →
  dict_get (add_counts totals counts) k =
    match dict_get counts k with
    | Some v => Some (dict_get_default totals k 0 + v)
    | None => dict_get totals k
    end.
Proof.
  unfold dict_keys, add_counts. revert totals.
  induction counts as [|[k1 v1] counts IH]; intros totals Hnd; [done|].
  rewrite fmap_cons in Hnd. apply NoDup_cons in Hnd as [Hk1 Hnd].
  simpl. rewrite IH by done. unfold dict_get_default. rewrite dict_get_set.
  destruct (decide (k1 = k)) as [->|Hne]; [|done].
  simpl in Hk1. apply dict_get_None in Hk1. by rewrite Hk1.
Qed.

Lemma dict_get_foldl_add_counts cs : ∀ totals k,
  Forall (λ c, NoDup (dict_keys c)) cs →
  dict_get (foldl add_counts totals cs) k =
    if bool_decide (is_Some (dict_get totals k) ∨ Exists (λ c, k ∈ dict_keys c) cs)
    then Some (dict_get_default totals k 0 + sum ((λ c, dict_get_default c k 0) <$> cs))
    else None.
Proof.
  induction cs as [|c cs IH]; intros totals k Hnd.
  - cbn [foldl fmap list_fmap]. unfold dict_get_default.
    destruct (dict_get totals k) as [v|] eqn:E.
    + rewrite bool_decide_eq_true_2 by (left; eauto). simpl. f_equal. unfold sum. simpl. lia.
    + rewrite bool_decide_eq_false_2; [done|].
      intros [[? [=]]|Hex]. by apply Exists_nil in Hex.
  - apply Forall_cons in Hnd as [Hc Hnd]. cbn [foldl]. rewrite IH by done.
    rewrite fmap_cons, sum_cons.
    unfold dict_get_default at 1. rewrite dict_get_add_counts by done.
    set (rest := sum (_ <$> cs)). unfold dict_get_default.
    destruct (dict_get c k) as [v|] eqn:Ec.
    + rewrite !bool_decide_eq_true_2.
      * simpl. f_equal. lia.
      * right. left. apply dict_get_Some_elem in Ec.
        unfold dict_keys. by apply (list_elem_of_fmap_2 fst) in Ec.
      * left. eauto.
    + apply dict_get_None in Ec.
      assert ((is_Some (dict_get totals k) ∨ Exists (λ c, k ∈ dict_keys c) cs)
              ↔ (is_Some (dict_get totals k) ∨ Exists (λ c, k ∈ dict_keys c) (c :: cs)))
        as Hiff.
      { rewrite Exists_cons. unfold dict_keys at 2. tauto. }
      rewrite (bool_decide_ext _ _ Hiff). case_bool_decide; done.
Qed.

Lemma dict_get_totals cs k :
  Forall (λ c, NoDup (dict_keys c)) cs →
  dict_get (foldl add_counts [] cs) k = keywise_sum cs k.
Proof.
  intros Hnd. rewrite dict_get_foldl_add_counts by done. unfold keywise_sum.
  assert ((is_Some (dict_get ([] : list (list N * Z)) k) ∨ Exists (λ c, k ∈ dict_keys c) cs)
          ↔ Exists (λ c, k ∈ dict_keys c) cs) as Hiff.
  { split; [|by right]. intros [[? [=]]|]; done. }
  rewrite (bool_decide_ext _ _ Hiff). case_bool_decide; done.
Qed.

(** C9: a record that [insert_request] inserts from a [Dict[str, int]]
    is stored under the identifier the call returns, which was not in
    use, with every field as supplied; its [counts_json] decodes back to
    the same mapping; [fetch_all] then returns it ahead of the records
    held before; and when the records held before were written the same
    way, from mappings [json.dumps] prints, the per-class totals are the
    keywise sums of all the inserted mappings. *)
Theorem insert_request_round_trip fn op counts tc mn ca ms (s : db.store) i s' :
  NoDup (dict_keys counts) →
  db.insert_request fn op counts tc mn ca ms s = (Ok i, s') →
  let new := {| db.filename := fn; db.output_path := op;
                db.counts_json := json.dumps counts; db.total_count := tc;
                db.model_name := mn; db.created_at := ca;
                db.processing_ms := ms |} in
  ∃ old,
    db.fetch_all s = (Ok old, s)
    ∧ json.loads (db.counts_json new) = Ok (json_of counts)
    ∧ db.requests s !! i = None
    ∧ db.requests s' = <[i := new]> (db.requests s)
    ∧ db.fetch_all s' = (Ok (db.Row i new :: old), s')
    ∧ ∀ cs, Forall printable cs → Forall2 written_with cs old →
        ∃ totals, db.get_counts_by_class s' = (Ok totals, s')
                  ∧ ∀ k, dict_get totals k = keywise_sum (counts :: cs) k.
Proof.
  intros Hnd Hins new. apply insert_request_inv in Hins as (-> & _ & -> & _).
  fold new. change (request_of fn op counts tc mn ca ms) with new.
  exists (all_rows s). split; [apply fetch_all_eq|].
  split; [by apply loads_dumps|]. split; [apply next_rowid_fresh|].
  split; [done|]. rewrite fetch_all_eq, all_rows_inserted. split; [done|].
  intros cs _ Hcs. eexists. rewrite get_counts_by_class_eq, all_rows_inserted.
  rewrite (for_each_add_row _ (counts :: cs)).
  - split; [done|]. intros k. apply dict_get_totals.
    constructor; [done|]. clear -Hcs.
    induction Hcs as [|???? [? _]]; constructor; done.
  - constructor; [done|done].
Qed.

End totals.

(** ** The detection adapter *)

Section adapter.
Context `{Env}.

Lemma load_and_resolve_inv g m ids g1 :
  load_and_resolve g = (Ok (m, ids), g1) →
  model._model g1 = Some m ∧ model._fruit_class_ids g1 = Some ids
  ∧ model.calls g1 = model.calls g
  ∧ (model._model g = None → yolo_new = Some m)
  ∧ (∀ m0, model._model g = Some m0 → m = m0)
  ∧ (model._fruit_class_ids g = None → ids = resolve m)
  ∧ (∀ ids0, model._fruit_class_ids g = Some ids0 → ids = ids0).
Proof.
  unfold load_and_resolve, model.load_model, model._get_fruit_class_ids, model.load_model.
  destruct g as [md sp fi cl]. run_monad.
  destruct md as [m0|], yolo_new as [m1|], fi as [ids0|]; run_monad;
    intros [=]; subst; split_and!; try done; by intros ? [= ->].
Qed.

Lemma load_and_resolve_fail g e g1 :
  load_and_resolve g = (Raise e, g1) →
  e = DetectorError ∧ g1 = g ∧ model._model g = None ∧ yolo_new = None.
Proof.
  unfold load_and_resolve, model.load_model, model._get_fruit_class_ids, model.load_model.
  destruct g as [md sp fi cl]. run_monad.
  destruct md as [m0|], yolo_new as [m1|], fi as [ids0|]; run_monad;
    intros [=]; subst; done.
Qed.

Lemma run_detection_eq path g :
  model.run_detection path g =
    match load_and_resolve g with
    | (Ok (m, ids), g1) =>
        let g2 := {| model._model := model._model g1;
                     model._supported := model._supported g1;
                     model._fruit_class_ids := model._fruit_class_ids g1;
                     model.calls := model.calls g1 ++ [(path, restriction ids)] |} in
        match predict m path (restriction ids) with
        | Some result =>
            (Ok (counts_of result, sum (dict_values (counts_of result)),
                 r_plot result, elapsed_ms), g2)
        | None => (Raise DetectorError, g2)
        end
    | (Raise e, g1) => (Raise e, g1)
    end.
Proof.
  unfold model.run_detection, load_and_resolve, model.load_model,
    model._get_fruit_class_ids, model.load_model, model.invoke, counts_of.
  destruct g as [md sp fi cl]. run_monad.
  destruct md as [m0|], yolo_new as [m1|], fi as [ids0|]; run_monad; try done;
    unfold restriction;
    repeat match goal with
           | |- context [match ?x with [] => _ | _ :: _ => _ end] => destruct x
           end;
    run_monad; by destruct (predict _ _ _).
Qed.

End adapter.

(** ** Counts derived from the raw detections *)

Section counting.
Implicit Types (nms : list (Z * list N)) (counts : list (list N * Z)) (k : list N).

Lemma occurrences_not_elem k (l : list (list N)) : k ∉ l → occurrences k l = 0.
Proof.
  unfold occurrences. induction l as [|x l IH]; [done|].
  rewrite not_elem_of_cons. intros [Hne Hnin].
  rewrite filter_cons_False by done. by apply IH.
Qed.

Lemma sum_values_set counts k v :
  sum (dict_values (dict_set counts k v))
  = sum (dict_values counts) - dict_get_default counts k 0 + v.
Proof.
  unfold dict_values, dict_get_default.
  induction counts as [|[k' v'] counts IH]; csimpl.
  - unfold sum. simpl. lia.
  - destruct (decide (k' = k)) as [->|Hne]; csimpl; rewrite ?sum_cons; [lia|].
    rewrite IH. lia.
Qed.

Lemma foldl_count_box nms cls : ∀ counts0,
  let counts := foldl (model.count_box nms) counts0 cls in
  (∀ k, dict_get counts k =
        if bool_decide (k ∈ allowed nms cls)
        then Some (dict_get_default counts0 k 0 + occurrences k (allowed nms cls))
        else dict_get counts0 k)
  ∧ (NoDup (dict_keys counts0) → NoDup (dict_keys counts))
  ∧ sum (dict_values counts) = sum (dict_values counts0) + Z.of_nat (length (allowed nms cls)).
Proof.
  induction cls as [|c cls IH]; intros counts0; cbn zeta.
  - split_and!; [|done|unfold allowed; simpl; lia].
    intros k. rewrite bool_decide_eq_false_2; [done|]. apply not_elem_of_nil.
  - cbn [foldl]. unfold model.count_box at 2 4 6. fold (name_of nms c).
    unfold allowed. rewrite fmap_cons. fold (allowed nms cls).
    destruct (IH (if bool_decide (name_of nms c ∈ model.FRUIT_CLASSES)
                  then dict_set counts0 (name_of nms c)
                         (dict_get_default counts0 (name_of nms c) 0 + 1)
                  else counts0)) as (Hget & Hnd & Hsum).
    clear IH. cbn zeta in *.
    destruct (bool_decide_reflect (name_of nms c ∈ model.FRUIT_CLASSES)) as [Hin|Hnin].
    + rewrite filter_cons_True by done. fold (allowed nms cls).
      split_and!.
      * intros k. rewrite Hget. unfold dict_get_default, occurrences.
        rewrite dict_get_set.
        destruct (decide (name_of nms c = k)) as [<-|Hne].
        -- rewrite (bool_decide_eq_true_2 (_ ∈ _ :: _)) by left.
           rewrite filter_cons_True by done. cbn [length default from_option id].
           rewrite Nat2Z.inj_succ.
           fold (occurrences (name_of nms c) (allowed nms cls)).
           case_bool_decide; f_equal; [lia|].
           rewrite occurrences_not_elem by done. lia.
        -- rewrite filter_cons_False by done.
           assert (k ∈ name_of nms c :: allowed nms cls ↔ k ∈ allowed nms cls) as Hiff.
           { rewrite elem_of_cons. split; [|by right]. by intros [->|?]. }
           by rewrite (bool_decide_ext _ _ Hiff).
      * intros Hnd0. by apply Hnd, dict_set_NoDup.
      * rewrite Hsum, sum_values_set. cbn [length]. lia.
    + rewrite filter_cons_False by done. fold (allowed nms cls). done.
Qed.

Lemma elem_of_dict_keys counts k : k ∈ dict_keys counts ↔ is_Some (dict_get counts k).
Proof.
  unfold dict_keys. destruct (dict_get counts k) as [v|] eqn:E.
  - split; [eauto|]. intros _. destruct (decide (k ∈ counts.*1)) as [|Hnin]; [done|].
    apply dict_get_None in Hnin. congruence.
  - split; [|by intros [? [=]]]. intros Hin. by apply dict_get_None in E.
Qed.

Lemma allowed_names_eq result :
  allowed_names result =
    match r_boxes_cls result with
    | Some cls => allowed (default [] (r_names result)) cls
    | None => []
    end.
Proof. unfold allowed_names, raw_names. by destruct (r_boxes_cls result). Qed.

(** The counts are the tally of the allow-listed raw detections, and
    nothing else. *)
Lemma counts_of_spec result :
  (∀ k, dict_get (counts_of result) k =
        if bool_decide (k ∈ allowed_names result)
        then Some (occurrences k (allowed_names result))
        else None)
  ∧ NoDup (dict_keys (counts_of result))
  ∧ (∀ k, k ∈ dict_keys (counts_of result) → k ∈ model.FRUIT_CLASSES)
  ∧ sum (dict_values (counts_of result)) = Z.of_nat (length (allowed_names result)).
Proof.
  assert ((∀ k, dict_get (counts_of result) k =
        if bool_decide (k ∈ allowed_names result)
        then Some (occurrences k (allowed_names result))
        else None)
    ∧ NoDup (dict_keys (counts_of result))
    ∧ sum (dict_values (counts_of result)) = Z.of_nat (length (allowed_names result)))
    as (Hget & Hnd & Hsum).
  { rewrite allowed_names_eq. unfold counts_of.
    destruct (r_boxes_cls result) as [cls|].
    - destruct (foldl_count_box (default [] (r_names result)) cls []) as (Hget & Hnd & Hsum).
      split_and!; [|by apply Hnd; constructor|by rewrite Hsum].
      intros k. rewrite Hget. by case_bool_decide.
    - split_and!; [done|constructor|done]. }
  split_and!; try done.
  intros k [v Hk]%elem_of_dict_keys. rewrite Hget in Hk.
  case_bool_decide as Hin; [|done].
  unfold allowed_names in Hin. by apply list_elem_of_filter in Hin as [? _].
Qed.

End counting.

Section adapter_claim.
Context `{Env}.

(** C7: once the model is loaded and the allow-listed identifiers are
    resolved to [ids], [run_detection] invokes the detector exactly once:
    restricted to [ids] when [ids] is non-empty, unrestricted when it is
    empty.  In both cases the counts are the tally, by lower-cased class
    name, of the raw detections whose name is allow-listed, and the total
    is their number, so a raw detection of an allow-listed class is never
    dropped. *)
Theorem run_detection_invocation path g m ids g1 :
  load_and_resolve g = (Ok (m, ids), g1) →
  (model._fruit_class_ids g = None → ids = resolve m)
  ∧ (ids ≠ [] → restriction ids = Some ids)
  ∧ (ids = [] → restriction ids = None)
  ∧ ∃ g2,
      model.calls g2 = model.calls g ++ [(path, restriction ids)]
      ∧ model.run_detection path g =
          (match predict m path (restriction ids) with
           | Some result =>
               Ok (counts_of result, Z.of_nat (length (allowed_names result)),
                   r_plot result, elapsed_ms)
           | None => Raise DetectorError
           end, g2)
      ∧ ∀ result k,
          predict m path (restriction ids) = Some result →
          dict_get (counts_of result) k =
            if bool_decide (k ∈ allowed_names result)
            then Some (occurrences k (allowed_names result))
            else None.
Proof.
  intros Hres.
  pose proof (load_and_resolve_inv _ _ _ _ Hres) as (_ & _ & Hcalls & _ & _ & Hids & _).
  split; [done|]. split; [by destruct ids|]. split; [by intros ->|].
  exists {| model._model := model._model g1;
            model._supported := model._supported g1;
            model._fruit_class_ids := model._fruit_class_ids g1;
            model.calls := model.calls g1 ++ [(path, restriction ids)] |}.
  split; [simpl; by rewrite Hcalls|].
  rewrite run_detection_eq, Hres. cbn zeta. split.
  - destruct (predict m path (restriction ids)) as [result|] eqn:Ep; [|done].
    by destruct (counts_of_spec result) as (_ & _ & _ & ->).
  - intros result k _. by destruct (counts_of_spec result) as (-> & _).
Qed.

End adapter_claim.

(** ** The page context *)

Section context.
Context `{Env}.

Lemma py_int_raises v e : db.py_int v = Raise e → e ≠ DetectorError.
Proof.
  destruct v; simpl; repeat case_match; intros [= <-]; done.
Qed.

Lemma for_each_raises {A B} (body : B → A → res B) (P : exn → Prop) xs : ∀ acc e,
  (∀ acc x e, body acc x = Raise e → P e) →
  for_each body acc xs = Raise e → P e.
Proof.
  induction xs as [|x xs IH]; intros acc e Hbody; simpl; [done|].
  destruct (body acc x) as [acc'|e'] eqn:Eb; simpl; [by apply IH|].
  intros [= <-]. eauto.
Qed.

Lemma add_row_raises totals r e : db.add_row totals r = Raise e → e ≠ DetectorError.
Proof.
  unfold db.add_row.
  destruct (json.loads _) as [v|e'] eqn:El.
  - simpl. destruct v; simpl; try (by intros [= <-]).
    apply (for_each_raises _ (λ e, e ≠ DetectorError)).
    intros acc [k v] e0. unfold db.add_item. simpl.
    destruct (db.py_int v) eqn:Ei; simpl; [done|]. intros [= <-].
    by eapply py_int_raises.
  - apply loads_raises in El as [->| ->]; simpl; [done|]. by intros [= <-].
Qed.

Lemma get_counts_by_class_raises s e :
  (db.get_counts_by_class s).1 = Raise e → e ≠ DetectorError.
Proof.
  rewrite get_counts_by_class_eq. simpl.
  apply (for_each_raises _ (λ e, e ≠ DetectorError)). apply add_row_raises.
Qed.

Lemma get_supported_fruits_spec b g :
  ∃ out g',
    model.get_supported_fruits b g = (out, g')
    ∧ model.calls g' = model.calls g
    ∧ (∀ m, model._model g = Some m → model._model g' = Some m)
    ∧ (∀ e, out = Raise e →
         e = DetectorError ∧ b = true ∧ model._model g = None ∧ yolo_new = None).
Proof.
  unfold model.get_supported_fruits, model.load_model.
  destruct g as [md sp fi cl]. run_monad.
  destruct sp as [l|]; [eexists _, _; split_and!; done|].
  destruct b, md as [m0|]; simpl; run_monad;
    try (eexists _, _; split_and!; done).
  destruct yolo_new as [m1|]; run_monad; eexists _, _; split_and!; try done.
  by intros e [= <-].
Qed.

(** [_build_context], read by read. *)
Lemma build_context_eq res err b w :
  main._build_context res err b w =
    match (db.get_summary (main.store w)).1 with
    | Raise e => (Raise e, w)
    | Ok summary =>
      match for_each db.add_row [] (all_rows (main.store w)) with
      | Raise e => (Raise e, w)
      | Ok totals =>
        match model.get_supported_fruits b (main.globals w) with
        | (Ok l, g') =>
            (Ok {| main.summary := summary;
                   main.counts_by_class := totals;
                   main.recent := take 10 (all_rows (main.store w));
                   main.ctx_result := res; main.error := err;
                   main.supported_fruits := json.join (str ", ") l;
                   main.max_file_mb := main.MAX_FILE_MB;
                   main.allowed_ext :=
                     json.join (str ", ") (sorted_set main.ALLOWED_EXTENSIONS) |},
             {| main.store := main.store w; main.disk := main.disk w;
                main.globals := g' |})
        | (Raise e, g') =>
            (Raise e, {| main.store := main.store w; main.disk := main.disk w;
                         main.globals := g' |})
        end
      end
    end.
Proof.
  unfold main._build_context. destruct w as [s d g]. run_monad.
  rewrite get_summary_eq, get_counts_by_class_eq, fetch_recent_10. run_monad.
  destruct (db.sql_sum _) as [total|e]; run_monad; [|done].
  destruct (for_each db.add_row [] (all_rows s)) as [totals|e] eqn:Et; run_monad;
    [|done].
  by destruct (model.get_supported_fruits b g) as [[l|e] g'].
Qed.

(** What [_build_context] leaves behind and what it answers. *)
Lemma build_context_spec res err b w :
  ∃ out w',
    main._build_context res err b w = (out, w')
    ∧ main.store w' = main.store w ∧ main.disk w' = main.disk w
    ∧ model.calls (main.globals w') = model.calls (main.globals w)
    ∧ (∀ m, model._model (main.globals w) = Some m →
            model._model (main.globals w') = Some m)
    ∧ (∀ ctx, out = Ok ctx →
         main.error ctx = err ∧ main.ctx_result ctx = res
         ∧ (db.get_summary (main.store w)).1 = Ok (main.summary ctx)
         ∧ (db.get_counts_by_class (main.store w)).1 = Ok (main.counts_by_class ctx)
         ∧ (db.fetch_recent 10 (main.store w)).1 = Ok (main.recent ctx))
    ∧ (∀ e, out = Raise e →
         (db.get_summary (main.store w)).1 = Raise e
         ∨ (db.get_counts_by_class (main.store w)).1 = Raise e
         ∨ (e = DetectorError ∧ b = true
            ∧ model._model (main.globals w) = None ∧ yolo_new = None)).
Proof.
  rewrite build_context_eq, get_counts_by_class_eq, fetch_recent_10.
  destruct (db.get_summary (main.store w)).1 as [summary|e] eqn:Es.
  - destruct (for_each db.add_row [] (all_rows (main.store w))) as [totals|e] eqn:Et.
    + destruct (get_supported_fruits_spec b (main.globals w))
        as (out & g' & -> & Hcalls & Hm & Hraise).
      destruct out as [l|e]; eexists _, _; (split; [reflexivity|]); simpl;
        split_and!; try done.
      * by intros ctx [= <-].
      * intros e' [= <-]. right. right. by apply Hraise.
    + eexists _, _. split; [reflexivity|]. simpl. split_and!; try done.
      intros e' [= <-]. right. by left.
  - eexists _, _. split; [reflexivity|]. simpl. split_and!; try done.
    intros e' [= <-]. by left.
Qed.

End context.

(** ** The upload handler *)

Section handler.
Context `{Env}.

(** The stages of [process_image], one equation per exit. *)
Lemma process_image_no_file image w :
  image = None ∨ (∃ img, image = Some img ∧ main.filename img = None) →
  main.process_image image w = main._build_context None (Some main.NoFileSelected) false w.
Proof. intros [->|(img & -> & Hf)]; [done|]. unfold main.process_image. by rewrite Hf. Qed.

Lemma process_image_bad_extension img fname w :
  main.filename img = Some fname → bad_extension fname →
  main.process_image (Some img) w
  = main._build_context None (Some main.UnsupportedType) false w.
Proof.
  intros Hf Hext. unfold main.process_image. rewrite Hf.
  by rewrite bool_decide_eq_true_2.
Qed.

Lemma process_image_too_large img fname w :
  main.filename img = Some fname → ¬ bad_extension fname →
  too_large (main.contents img) →
  main.process_image (Some img) w
  = main._build_context None (Some main.FileTooLarge) false w.
Proof.
  intros Hf Hext Hsize. unfold main.process_image. rewrite Hf.
  rewrite bool_decide_eq_false_2 by done. by rewrite bool_decide_eq_true_2.
Qed.

Lemma process_image_not_an_image img fname w :
  main.filename img = Some fname → ¬ bad_extension fname →
  ¬ too_large (main.contents img) →
  image_verifies (main.contents img) = false →
  main.process_image (Some img) w
  = main._build_context None (Some main.NotAnImage) false
      {| main.store := main.store w;
         main.disk := delete (upload_path fname) (main.disk w);
         main.globals := main.globals w |}.
Proof.
  intros Hf Hext Hsize Hver. destruct w as [s d g].
  unfold main.process_image. rewrite Hf.
  rewrite !bool_decide_eq_false_2 by done. fold (upload_path fname).
  run_monad. rewrite lookup_insert_eq. cbn [from_option]. rewrite Hver. cbn [negb].
  by rewrite delete_insert_eq.
Qed.

Lemma process_image_detection_raises img fname w e g' :
  main.filename img = Some fname → ¬ bad_extension fname →
  ¬ too_large (main.contents img) →
  image_verifies (main.contents img) = true →
  model.run_detection (upload_path fname) (main.globals w) = (Raise e, g') →
  main.process_image (Some img) w
  = (Raise e, {| main.store := main.store w;
                 main.disk := <[upload_path fname := main.contents img]> (main.disk w);
                 main.globals := g' |}).
Proof.
  intros Hf Hext Hsize Hver Hdet. destruct w as [s d g]. simpl in Hdet.
  unfold main.process_image. rewrite Hf.
  rewrite !bool_decide_eq_false_2 by done. fold (upload_path fname).
  run_monad. rewrite lookup_insert_eq. cbn [from_option]. rewrite Hver. cbn [negb].
  run_monad. by rewrite Hdet.
Qed.

Lemma process_image_detected img fname w counts total annotated ms g' :
  main.filename img = Some fname → ¬ bad_extension fname →
  ¬ too_large (main.contents img) →
  image_verifies (main.contents img) = true →
  model.run_detection (upload_path fname) (main.globals w)
    = (Ok (counts, total, annotated, ms), g') →
  let written :=
    <[main.OUTPUT_DIR ++ str "/" ++ uuid4_hex ++ str "_result.jpg" := annotated]>
      (<[upload_path fname := main.contents img]> (main.disk w)) in
  main.process_image (Some img) w
  = match inserts fname counts total ms (main.store w) with
    | (Ok i, s') =>
        main._build_context (Some (descriptor_of i fname counts total ms)) None true
          {| main.store := s'; main.disk := written; main.globals := g' |}
    | (Raise e, s') =>
        (Raise e, {| main.store := s'; main.disk := written; main.globals := g' |})
    end.
Proof.
  intros Hf Hext Hsize Hver Hdet. destruct w as [s d g]. simpl in Hdet.
  unfold main.process_image. rewrite Hf.
  rewrite !bool_decide_eq_false_2 by done. fold (upload_path fname).
  run_monad. rewrite lookup_insert_eq. cbn [from_option]. rewrite Hver. cbn [negb].
  run_monad. rewrite Hdet. run_monad. unfold inserts.
  by destruct (db.insert_request _ _ _ _ _ _ _ s) as [[i|e] s'].
Qed.

(** The two outcomes of the handler's insert. *)
Lemma inserts_inv fname counts total ms s out s' :
  inserts fname counts total ms s = (out, s') →
  match out with
  | Ok i => i = db.next_rowid s ∧ db.int64 i
            ∧ s' = inserted (record_of fname counts total ms) s
  | Raise e => s' = s ∧ insert_error e
  end.
Proof.
  intros Hins%insert_request_inv. destruct out as [i|e].
  - by destruct Hins as (-> & ? & -> & _).
  - by destruct Hins as (-> & ? & _).
Qed.

End handler.

Section pipeline_claims.
Context `{Env}.

Lemma run_detection_ok path g counts total annotated ms g' :
  model.run_detection path g = (Ok (counts, total, annotated, ms), g') →
  ∃ m ids result,
    model._model g' = Some m
    ∧ model.calls g' = model.calls g ++ [(path, restriction ids)]
    ∧ predict m path (restriction ids) = Some result
    ∧ counts = counts_of result ∧ total = sum (dict_values counts).
Proof.
  rewrite run_detection_eq.
  destruct (load_and_resolve g) as [[[m ids]|e] g1] eqn:Hres; [|done].
  apply load_and_resolve_inv in Hres as (Hm & _ & Hcalls & _).
  cbn zeta. destruct (predict m path (restriction ids)) as [result|] eqn:Ep; [|done].
  intros [= <- <- <- <- <-]. exists m, ids, result. simpl.
  by rewrite Hcalls.
Qed.

Lemma run_detection_raises path g e g' :
  model.run_detection path g = (Raise e, g') → e = DetectorError.
Proof.
  rewrite run_detection_eq.
  destruct (load_and_resolve g) as [[[m ids]|e0] g1] eqn:Hres.
  - cbn zeta. destruct (predict _ _ _); [done|]. by intros [= <- <-].
  - apply load_and_resolve_fail in Hres as (-> & _). by intros [= <- <-].
Qed.

Lemma insert_error_not_detector e : insert_error e → e ≠ DetectorError.
Proof. by intros [->|[->|[->| ->]]]. Qed.

Lemma get_summary_not_detector s e : (db.get_summary s).1 = Raise e → e ≠ DetectorError.
Proof. by intros ->%get_summary_raises. Qed.

(** C6, amended: an upload whose extension, lower-cased, is not
    allow-listed, or whose content is longer than 20 MB, leaves the store
    and the disk as they were; the response, whenever one is returned, is
    the rejection with its message and no result, and it is returned
    whenever the summary and the per-class totals of the stored history
    can be computed; an exception that replaces it is the one that one of
    these two reads raises. *)
Theorem process_image_rejects_upload img fname w :
  main.filename img = Some fname →
  bad_extension fname ∨ too_large (main.contents img) →
  ∃ out w',
    main.process_image (Some img) w = (out, w')
    ∧ main.store w' = main.store w ∧ main.disk w' = main.disk w
    ∧ (∀ ctx, out = Ok ctx →
         (main.error ctx = Some main.UnsupportedType
          ∨ main.error ctx = Some main.FileTooLarge)
         ∧ main.ctx_result ctx = None)
    ∧ (∀ e, out = Raise e →
         (db.get_summary (main.store w)).1 = Raise e
         ∨ (db.get_counts_by_class (main.store w)).1 = Raise e)
    ∧ (∀ summary totals,
         (db.get_summary (main.store w)).1 = Ok summary →
         (db.get_counts_by_class (main.store w)).1 = Ok totals →
         rejection out).
Proof.
  intros Hf Hbad.
  assert (∃ msg, (msg = main.UnsupportedType ∨ msg = main.FileTooLarge)
                 ∧ main.process_image (Some img) w
                   = main._build_context None (Some msg) false w) as (msg & Hmsg & ->).
  { destruct (decide (bad_extension fname)) as [Hext|Hext].
    - eexists. split; [by left|]. by eapply process_image_bad_extension.
    - destruct Hbad as [?|Hsize]; [done|]. eexists. split; [by right|].
      by eapply process_image_too_large. }
  destruct (build_context_spec None (Some msg) false w)
    as (out & w' & -> & Hs & Hd & _ & _ & Hok & Hraise).
  exists out, w'. split_and!; try done.
  - intros ctx Hctx. destruct (Hok ctx Hctx) as (-> & -> & _).
    split; [|done]. destruct Hmsg as [-> | ->]; eauto.
  - intros e He. destruct (Hraise e He) as [?|[?|(_ & [=] & _)]]; eauto.
  - intros summary totals Hsum Htot. destruct out as [ctx|e].
    + destruct (Hok ctx eq_refl) as (? & ? & _). by exists ctx, msg.
    + destruct (Hraise e eq_refl) as [He|[He|(_ & [=] & _)]]; congruence.
Qed.

(** C3, amended: a request answered with a rejection, or ended by an
    exception of the detector, persists no record; after a rejection no
    file the request wrote is left on disk, and the path an upload that
    could not be verified was staged at holds no file. *)
Theorem process_image_failure_cleanup image w out w' :
  main.process_image image w = (out, w') →
  rejection out ∨ out = Raise DetectorError →
  main.store w' = main.store w
  ∧ (rejection out →
       main.disk w' ⊆ main.disk w
       ∧ ∀ ctx img fname,
           out = Ok ctx → main.error ctx = Some main.NotAnImage →
           image = Some img → main.filename img = Some fname →
           main.disk w' !! upload_path fname = None).
Proof.
  intros Hrun Hexit.
  assert (∀ msg w0,
    main.store w0 = main.store w → main.disk w0 ⊆ main.disk w →
    main.process_image image w = main._build_context None (Some msg) false w0 →
    main.store w' = main.store w ∧ main.disk w' = main.disk w0 ∧
    ∀ ctx, out = Ok ctx → main.error ctx = Some msg) as Hrej.
  { intros msg w0 Hs0 Hd0 Heq. rewrite Heq in Hrun.
    destruct (build_context_spec None (Some msg) false w0)
      as (out0 & w0' & Hb & Hs & Hd & _ & _ & Hok & _).
    rewrite Hb in Hrun. injection Hrun as <- <-.
    split_and!; [congruence|done|]. intros ctx Hctx. by destruct (Hok ctx Hctx). }
  destruct image as [img|]; [destruct (main.filename img) as [fname|] eqn:Hf|].
  - destruct (decide (bad_extension fname)) as [Hext|Hext].
    { destruct (Hrej main.UnsupportedType w) as (Hs & Hd & Herr);
        [done|done|by eapply process_image_bad_extension|].
      split; [done|]. intros _. rewrite Hd. split; [done|].
      intros ctx ?? Hctx Hmsg. by rewrite (Herr ctx Hctx) in Hmsg. }
    destruct (decide (too_large (main.contents img))) as [Hsize|Hsize].
    { destruct (Hrej main.FileTooLarge w) as (Hs & Hd & Herr);
        [done|done|by eapply process_image_too_large|].
      split; [done|]. intros _. rewrite Hd. split; [done|].
      intros ctx ?? Hctx Hmsg. by rewrite (Herr ctx Hctx) in Hmsg. }
    destruct (image_verifies (main.contents img)) eqn:Hver.
    + destruct (model.run_detection (upload_path fname) (main.globals w))
        as [[[[[counts total] annotated] ms]|e] g'] eqn:Hdet.
      * exfalso.
        rewrite (process_image_detected _ _ _ _ _ _ _ _ Hf Hext Hsize Hver Hdet) in Hrun.
        cbn zeta in Hrun.
        destruct (inserts fname counts total ms (main.store w)) as [[i|e] s'] eqn:Hins;
          apply inserts_inv in Hins.
        -- apply run_detection_ok in Hdet as (m & ids & result & Hm & _).
           match type of Hrun with main._build_context ?r ?e ?b ?w0 = _ =>
             destruct (build_context_spec r e b w0)
               as (out0 & w0' & Hb & _ & _ & _ & _ & Hok & Hraise) end.
           rewrite Hb in Hrun. injection Hrun as <- <-.
           destruct Hexit as [(ctx & msg & -> & Hmsg & _)| ->].
           ++ destruct (Hok ctx eq_refl) as (Herr & _). congruence.
           ++ destruct (Hraise _ eq_refl) as [Hc|[Hc|(_ & _ & Hnone & _)]].
              ** by apply get_summary_not_detector in Hc.
              ** by apply get_counts_by_class_raises in Hc.
              ** simpl in Hnone. congruence.
        -- injection Hrun as <- <-. destruct Hins as [_ He].
           destruct Hexit as [(ctx & msg & [=] & _)|[= ->]].
           by apply insert_error_not_detector in He.
      * rewrite (process_image_detection_raises _ _ _ _ _ Hf Hext Hsize Hver Hdet) in Hrun.
        injection Hrun as <- <-. split; [done|].
        by intros (ctx & msg & [=] & _).
    + match goal with |- context [main.disk w' !! _] =>
        destruct (Hrej main.NotAnImage
                    {| main.store := main.store w;
                       main.disk := delete (upload_path fname) (main.disk w);
                       main.globals := main.globals w |}) as (Hs & Hd & Herr);
          [done|apply delete_subseteq|by eapply process_image_not_an_image|] end.
      split; [done|]. intros _. rewrite Hd. simpl. split; [apply delete_subseteq|].
      intros ctx img' fname' _ _ [= <-] Hf'. rewrite Hf in Hf'. injection Hf' as <-.
      apply lookup_delete_eq.
  - destruct (Hrej main.NoFileSelected w) as (Hs & Hd & Herr);
      [done|done|apply process_image_no_file; eauto|].
    split; [done|]. intros _. rewrite Hd. split; [done|].
    intros ctx ?? Hctx Hmsg. by rewrite (Herr ctx Hctx) in Hmsg.
  - destruct (Hrej main.NoFileSelected w) as (Hs & Hd & Herr);
      [done|done|apply process_image_no_file; eauto|].
    split; [done|]. intros _. rewrite Hd. split; [done|].
    intros ctx ?? Hctx Hmsg. by rewrite (Herr ctx Hctx) in Hmsg.
Qed.

(** C2: when the handler answers with a result, the record it persisted,
    under a new identifier, has a [total_count] equal to the sum of the
    values of its decoded [counts_json]; the keys of that mapping are
    allow-listed; and the mapping is the tally of those raw detections of
    the detector's answer whose lower-cased class name is allow-listed,
    the others being left out of the counts and of the total. *)
Theorem process_image_persists_consistent_counts image w ctx w' descr :
  main.process_image image w = (Ok ctx, w') →
  main.ctx_result ctx = Some descr →
  ∃ img fname m classes result r,
    image = Some img ∧ main.filename img = Some fname
    ∧ model._model (main.globals w') = Some m
    ∧ model.calls (main.globals w')
      = model.calls (main.globals w) ++ [(upload_path fname, classes)]
    ∧ predict m (upload_path fname) classes = Some result
    ∧ db.requests (main.store w) !! main.request_id descr = None
    ∧ db.requests (main.store w')
      = <[main.request_id descr := r]> (db.requests (main.store w))
    ∧ json.loads (db.counts_json r) = Ok (json_of (main.counts descr))
    ∧ db.total_count r = sum (dict_values (main.counts descr))
    ∧ (∀ k, k ∈ dict_keys (main.counts descr) → k ∈ model.FRUIT_CLASSES)
    ∧ (∀ k, dict_get (main.counts descr) k =
            if bool_decide (k ∈ allowed_names result)
            then Some (occurrences k (allowed_names result))
            else None)
    ∧ db.total_count r = Z.of_nat (length (allowed_names result)).
Proof.
  intros Hrun Hdescr.
  assert (∀ msg w0,
    main.process_image image w = main._build_context None (Some msg) false w0 → False)
    as Hrej.
  { intros msg w0 Heq. rewrite Heq in Hrun.
    destruct (build_context_spec None (Some msg) false w0)
      as (out0 & w0' & Hb & _ & _ & _ & _ & Hok & _).
    rewrite Hb in Hrun. injection Hrun as -> <-.
    destruct (Hok ctx eq_refl) as (_ & Hr & _). congruence. }
  destruct image as [img|];
    [|exfalso; eapply Hrej, process_image_no_file; eauto].
  destruct (main.filename img) as [fname|] eqn:Hf;
    [|exfalso; eapply Hrej, process_image_no_file; eauto].
  destruct (decide (bad_extension fname)) as [Hext|Hext];
    [exfalso; by eapply Hrej, process_image_bad_extension|].
  destruct (decide (too_large (main.contents img))) as [Hsize|Hsize];
    [exfalso; by eapply Hrej, process_image_too_large|].
  destruct (image_verifies (main.contents img)) eqn:Hver;
    [|exfalso; by eapply Hrej, process_image_not_an_image].
  destruct (model.run_detection (upload_path fname) (main.globals w))
    as [[[[[counts total] annotated] ms]|e] g'] eqn:Hdet.
  - rewrite (process_image_detected _ _ _ _ _ _ _ _ Hf Hext Hsize Hver Hdet) in Hrun.
    cbn zeta in Hrun.
    destruct (inserts fname counts total ms (main.store w)) as [[i|e] s'] eqn:Hins;
      apply inserts_inv in Hins; [|done].
    destruct Hins as (-> & _ & ->).
    apply run_detection_ok in Hdet as (m & ids & result & Hm & Hcalls & Hp & -> & ->).
    match type of Hrun with main._build_context ?r ?e ?b ?w0 = _ =>
      destruct (build_context_spec r e b w0)
        as (out0 & w0' & Hb & Hs & _ & Hc & Hmodel & Hok & _) end.
    rewrite Hb in Hrun. injection Hrun as -> <-.
    destruct (Hok ctx eq_refl) as (_ & Hr & _).
    rewrite Hdescr in Hr. injection Hr as ->.
    destruct (counts_of_spec result) as (Hget & Hnd & Hkeys & Hsum).
    exists img, fname, m, (restriction ids), result,
      (record_of fname (counts_of result) (sum (dict_values (counts_of result))) ms).
    simpl in *. split_and!; try done.
    + by apply Hmodel.
    + by rewrite Hc.
    + apply next_rowid_fresh.
    + by rewrite Hs.
    + by apply loads_dumps.
  - by rewrite (process_image_detection_raises _ _ _ _ _ Hf Hext Hsize Hver Hdet) in Hrun.
Qed.

End pipeline_claims.

(** ** Sample data *)

(** ** Rows that do not decode, rows that decode to something else *)

Section tolerance.
Context `{Env}.

Lemma for_each_add_row_tolerant totals cs rows :
  Forall2 stored_as cs rows →
  for_each db.add_row totals rows = Ok (foldl add_counts totals (omap id cs)).
Proof.
  intros Hall. revert totals.
  induction Hall as [|c r cs rows Hc _ IH]; intros totals; [done|].
  cbn [for_each]. destruct c as [counts|]; simpl in Hc.
  - rewrite (add_row_written _ counts) by done. apply IH.
  - rewrite add_row_undecodable by done. apply IH.
Qed.


(** C4: a stored [counts_json] that is valid JSON but not an object, or an
    object with a value [int] rejects, is not skipped: the aggregation
    over the whole history raises, also when the other rows are well
    formed; a row that does not decode at all is skipped. *)
Theorem get_counts_by_class_aborts_on_non_object :
  (db.get_counts_by_class
     (sample_store [sample_request (json.dumps [(apple, 2)]) 2;
                    sample_request (str "[]") 0])).1 = Raise AttributeError
  ∧ (db.get_counts_by_class (sample_store [sample_request (str "null") 0])).1
    = Raise AttributeError
  ∧ (db.get_counts_by_class
       (sample_store [sample_request
                        (str "{" ++ json.encode_basestring apple ++ str ": null}") 0])).1
    = Raise TypeError
  ∧ (db.get_counts_by_class
       (sample_store [sample_request (json.dumps [(apple, 2)]) 2;
                      sample_request (str "{oops") 0])).1 = Ok [(apple, 2)].
Proof. split_and!; vm_compute; reflexivity. Qed.

End tolerance.

(** * Further properties *)

(** ** Identifiers *)

Section identifiers.
Implicit Types (s : db.store).

Lemma foldr_max_elem (i : Z) (l : list Z) : foldr Z.max i l ∈ i :: l.
Proof.
  induction l as [|j l IH]; simpl; [by left|].
  destruct (Z.max_spec j (foldr Z.max i l)) as [[_ ->]|[_ ->]].
  - apply elem_of_cons in IH as [->|IH]; [by left|]. by right; right.
  - right. by left.
Qed.

Lemma next_rowid_least s n :
  (∀ i r, db.requests s !! i = Some r → i < n) →
  db.sqlite_sequence s < n → (db.requests s = ∅ → 0 < n) →
  db.next_rowid s ≤ n.
Proof.
  intros Hkeys Hseq Hempty. unfold db.next_rowid.
  destruct (db.id <$> db.table_scan s) as [|j l] eqn:E.
  - assert (db.requests s = ∅) as Hs.
    { apply fmap_nil_inv in E. unfold db.table_scan in E.
      apply fmap_nil_inv in E. by apply map_to_list_empty_iff in E. }
    specialize (Hempty Hs). lia.
  - pose proof (foldr_max_elem j l) as Hin. rewrite <-E in Hin.
    apply list_elem_of_fmap in Hin as ([i r] & Hi & Hin).
    apply elem_of_table_scan in Hin. apply Hkeys in Hin. simpl in Hi. lia.
Qed.

Lemma next_rowid_sequence s : db.sqlite_sequence s < db.next_rowid s.
Proof. unfold db.next_rowid. lia. Qed.

Lemma next_rowid_inserted new s :
  db.next_rowid (inserted new s) = db.next_rowid s + 1.
Proof.
  apply Z.le_antisymm.
  - apply next_rowid_least.
    + intros i r. simpl. rewrite lookup_insert_Some.
      intros [[<- _]|[_ Hi]]; [lia|]. apply next_rowid_above in Hi. lia.
    + simpl. lia.
    + simpl. intros Hempty. exfalso.
      eapply (insert_non_empty (M := gmap Z)). exact Hempty.
  - assert (db.next_rowid s < db.next_rowid (inserted new s)); [|lia].
    apply (next_rowid_above _ _ new). simpl. apply lookup_insert_eq.
Qed.

End identifiers.

(** X2: when two calls of [insert_request] in a row both return, the
    identifiers they return are consecutive; the first is above the
    AUTOINCREMENT counter and above every identifier in the table, and
    is 1 on an empty table whose counter is 0; [fetch_all] then lists
    the second record, the first and the records held before, in this
    order. *)
Theorem insert_request_ids_increase
    fn1 op1 c1 tc1 mn1 ca1 ms1 fn2 op2 c2 tc2 mn2 ca2 ms2 (s : db.store) i j s1 s2 :
  db.insert_request fn1 op1 c1 tc1 mn1 ca1 ms1 s = (Ok i, s1) →
  db.insert_request fn2 op2 c2 tc2 mn2 ca2 ms2 s1 = (Ok j, s2) →
  j = i + 1
  ∧ db.sqlite_sequence s < i
  ∧ (∀ k r, db.requests s !! k = Some r → k < i)
  ∧ (db.requests s = ∅ → db.sqlite_sequence s = 0 → i = 1)
  ∧ ∃ old r1 r2,
      db.fetch_all s = (Ok old, s)
      ∧ db.filename r1 = fn1 ∧ db.filename r2 = fn2
      ∧ db.fetch_all s2 = (Ok (db.Row j r2 :: db.Row i r1 :: old), s2).
Proof.
  intros (-> & _ & -> & _)%insert_request_inv (-> & _ & -> & _)%insert_request_inv.
  rewrite next_rowid_inserted.
  split; [done|]. split; [apply next_rowid_sequence|].
  split; [apply next_rowid_above|]. split.
  { intros Hempty Hseq. unfold db.next_rowid, db.table_scan.
    rewrite Hempty, map_to_list_empty, Hseq. done. }
  eexists _, _, _. split; [apply fetch_all_eq|].
  rewrite fetch_all_eq, !all_rows_inserted, next_rowid_inserted.
  split_and!; [| |reflexivity]; done.
Qed.


(** ** Summary after insert *)

Lemma persisted_total_inserted new s :
  persisted_total (inserted new s) = db.total_count new + persisted_total s.
Proof.
  unfold persisted_total. simpl.
  rewrite map_fold_insert_L; [done| |apply next_rowid_fresh].
  intros. lia.
Qed.

Lemma persisted_magnitude_inserted new s :
  persisted_magnitude (inserted new s)
  = Z.abs (db.total_count new) + persisted_magnitude s.
Proof.
  unfold persisted_magnitude. simpl.
  rewrite map_fold_insert_L; [done| |apply next_rowid_fresh].
  intros. lia.
Qed.

Lemma persisted_count_inserted new s :
  persisted_count (inserted new s) = persisted_count s + 1.
Proof.
  unfold persisted_count. simpl.
  rewrite map_size_insert_None by apply next_rowid_fresh. lia.
Qed.

Lemma for_each_sum_step_ok xs : ∀ acc total,
  for_each db.sum_step acc xs = Ok total → total = acc + sum xs.
Proof.
  induction xs as [|x xs IH]; intros acc total.
  - intros [= <-]. unfold sum. simpl. lia.
  - cbn [for_each]. destruct (db.sum_step acc x) as [acc'|e] eqn:E; [|done].
    intros ->%IH. unfold db.sum_step in E. case_decide; [|done].
    injection E as <-. rewrite sum_cons. lia.
Qed.

Lemma sql_sum_ok xs v :
  db.sql_sum xs = Ok v → db.coalesce v (db.SqlInt 0) = db.SqlInt (sum xs).
Proof.
  destruct xs as [|x xs]; [by intros [= <-]|].
  unfold db.sql_sum.
  destruct (for_each db.sum_step 0 (x :: xs)) as [total|e] eqn:E; [|done].
  apply for_each_sum_step_ok in E as ->. intros [= <-].
  unfold db.coalesce. by rewrite Z.add_0_l.
Qed.

(** What a summary that [get_summary] returns says. *)
Lemma get_summary_ok s summary :
  (db.get_summary s).1 = Ok summary →
  db.total_requests summary = db.SqlInt (persisted_count s)
  ∧ db.total_fruits summary = db.SqlInt (persisted_total s).
Proof.
  rewrite get_summary_eq. cbn zeta. destruct (rowid_column s) as (Hsum & _ & Hlen).
  unfold db.sql_count. rewrite <-(length_fmap (λ r, db.total_count (db.data r))), Hlen.
  destruct (db.sql_sum _) as [v|e] eqn:E; [|done].
  apply sql_sum_ok in E. intros [= <-]. cbn [db.total_requests db.total_fruits].
  by rewrite E, Hsum.
Qed.

(** X3: when [insert_request] returns, and the [total_count] values
    persisted before and the new one add up, in magnitude, to less than
    2^63, the summary is returned before and after: after the insert it
    counts one request more and [total_count] fruits more, and its
    average is a binary64. *)
Theorem get_summary_after_insert fn op counts tc mn ca ms (s : db.store) i s' :
  db.insert_request fn op counts tc mn ca ms s = (Ok i, s') →
  persisted_magnitude s + Z.abs tc < 2 ^ 63 →
  ∃ avg x,
    db.get_summary s =
      (Ok {| db.total_requests := db.SqlInt (persisted_count s);
             db.total_fruits := db.SqlInt (persisted_total s);
             db.avg_per_request := avg |}, s)
    ∧ db.get_summary s' =
        (Ok {| db.total_requests := db.SqlInt (persisted_count s + 1);
               db.total_fruits := db.SqlInt (persisted_total s + tc);
               db.avg_per_request := db.SqlReal x |}, s').
Proof.
  intros (-> & _ & -> & _)%insert_request_inv Hfit.
  destruct (get_summary_value s) as (avg & Hbefore & _); [lia|].
  destruct (get_summary_value (inserted (request_of fn op counts tc mn ca ms) s))
    as (avg' & Hafter & _ & Hreal & _).
  { rewrite persisted_magnitude_inserted. simpl. lia. }
  rewrite persisted_count_inserted, persisted_total_inserted in Hafter.
  destruct Hreal as [x ->].
  { rewrite persisted_count_inserted. unfold persisted_count. lia. }
  exists avg, x. split; [done|]. rewrite Hafter. simpl. by rewrite (Z.add_comm tc).
Qed.

(** ** What stops the aggregation *)

Section aggregation.
Context `{Env}.

Lemma py_int_conversion_error v e : db.py_int v = Raise e → conversion_error e.
Proof.
  unfold conversion_error.
  destruct v; simpl; repeat case_match; intros [= <-]; eauto.
Qed.

Lemma for_each_add_item_raises kvs : ∀ totals e,
  for_each db.add_item totals kvs = Raise e →
  ∃ k v, (k, v) ∈ kvs ∧ db.py_int v = Raise e.
Proof.
  induction kvs as [|[k v] kvs IH]; intros totals e; simpl; [done|].
  destruct (db.add_item totals (k, v)) as [t|e'] eqn:Ea; simpl.
  - intros (k' & v' & Hin & Hv)%IH. exists k', v'. split; [by right|done].
  - intros [= <-]. exists k, v. split; [by left|].
    unfold db.add_item in Ea. simpl in Ea.
    destruct (db.py_int v); simpl in Ea; [done|congruence].
Qed.

Lemma add_row_raises_inv totals r e :
  db.add_row totals r = Raise e → indigestible r e.
Proof.
  unfold db.add_row, indigestible.
  destruct (json.loads _) as [v|e'] eqn:El.
  - simpl. intros Hrun.
    destruct v as [| | | | |l|d]; simpl in Hrun; try by injection Hrun as <-.
    apply for_each_add_item_raises in Hrun as (k & x & Hin & Hx).
    exists k, x. split_and!; try done. by eapply py_int_conversion_error.
  - destruct e'; simpl; intros [= <-]; done.
Qed.

Lemma for_each_add_row_raises rows : ∀ totals e,
  for_each db.add_row totals rows = Raise e → ∃ r, r ∈ rows ∧ indigestible r e.
Proof.
  induction rows as [|r rows IH]; intros totals e; simpl; [done|].
  destruct (db.add_row totals r) as [t|e'] eqn:Er; simpl.
  - intros (r' & Hin & Hr)%IH. exists r'. split; [by right|done].
  - intros [= <-]. exists r. split; [by left|]. by eapply add_row_raises_inv.
Qed.

Lemma indigestible_not_caught r e : indigestible r e → e ≠ JSONDecodeError.
Proof.
  unfold indigestible. destruct (json.loads _) as [v|e'].
  - destruct v; try by intros ->.
    by intros (_ & _ & _ & _ & [->|[->| ->]]).
  - by intros [_ ?].
Qed.

(** X4: when [get_counts_by_class] raises, the store is as it was, the
    exception is not [JSONDecodeError], and some stored row is the cause:
    its text decodes to something without [items], or to an object with a
    value [int] rejects, or the decoder raised something the handler does
    not catch. *)
Theorem get_counts_by_class_exceptions (s : db.store) e :
  (db.get_counts_by_class s).1 = Raise e →
  e ≠ JSONDecodeError
  ∧ (db.get_counts_by_class s).2 = s
  ∧ ∃ i r, db.requests s !! i = Some r ∧ indigestible (db.Row i r) e.
Proof.
  rewrite get_counts_by_class_eq. simpl.
  intros ([i r] & Hin & Hr)%for_each_add_row_raises.
  split; [by eapply indigestible_not_caught|]. split; [done|].
  exists i, r. split; [by apply elem_of_all_rows|done].
Qed.

(** ** Totals against the summary *)

Lemma sum_values_add_counts counts : ∀ totals,
  sum (dict_values (add_counts totals counts))
  = sum (dict_values totals) + sum (dict_values counts).
Proof.
  unfold add_counts.
  induction counts as [|[k v] counts IH]; intros totals.
  - unfold dict_values at 3. unfold sum at 3. simpl. lia.
  - cbn [foldl]. rewrite IH, sum_values_set. simpl. lia.
Qed.

Lemma sum_values_foldl_add_counts cs : ∀ totals,
  sum (dict_values (foldl add_counts totals cs))
  = sum (dict_values totals) + sum ((λ c, sum (dict_values c)) <$> cs).
Proof.
  induction cs as [|c cs IH]; intros totals.
  - unfold sum at 3. simpl. lia.
  - cbn [foldl]. rewrite IH, sum_values_add_counts, fmap_cons, sum_cons. lia.
Qed.

Lemma add_counts_NoDup counts : ∀ totals,
  NoDup (dict_keys totals) → NoDup (dict_keys (add_counts totals counts)).
Proof.
  unfold add_counts.
  induction counts as [|[k v] counts IH]; intros totals Hnd; [done|].
  cbn [foldl]. by apply IH, dict_set_NoDup.
Qed.

Lemma foldl_add_counts_NoDup cs : ∀ totals,
  NoDup (dict_keys totals) → NoDup (dict_keys (foldl add_counts totals cs)).
Proof.
  induction cs as [|c cs IH]; intros totals Hnd; [done|].
  cbn [foldl]. by apply IH, add_counts_NoDup.
Qed.

Lemma pipeline_rows_written cs rows :
  Forall2 pipeline_row cs rows → Forall2 written_with cs rows.
Proof. intros Hcs. eapply Forall2_impl; [exact Hcs|]. by intros c r [? _]. Qed.

Lemma pipeline_rows_total cs rows :
  Forall2 pipeline_row cs rows →
  sum ((λ r, db.total_count (db.data r)) <$> rows)
  = sum ((λ c, sum (dict_values c)) <$> cs).
Proof.
  induction 1 as [|c r cs rows (_ & Ht & _) _ IH]; [done|].
  rewrite !fmap_cons, !sum_cons. by rewrite Ht, IH.
Qed.

Lemma pipeline_rows_keys cs rows :
  Forall2 pipeline_row cs rows →
  Forall (λ c, NoDup (dict_keys c)) cs
  ∧ Forall (λ c, ∀ k, k ∈ dict_keys c → k ∈ model.FRUIT_CLASSES) cs.
Proof.
  induction 1 as [|c r cs rows ([Hnd _] & _ & Hkeys) _ [IH1 IH2]]; split;
    constructor; done.
Qed.

(** X5: on a history whose rows are as the pipeline writes them, from
    mappings [json.dumps] prints, the per-class totals are returned,
    their keys are distinct and allow-listed, and they add up to the sum
    of the persisted [total_count], which is the [total_fruits] of every
    summary that [get_summary] returns on that store. *)
Theorem per_class_totals_match_summary (s : db.store) cs :
  Forall printable cs →
  Forall2 pipeline_row cs (all_rows s) →
  ∃ totals,
    db.get_counts_by_class s = (Ok totals, s)
    ∧ NoDup (dict_keys totals)
    ∧ (∀ k, k ∈ dict_keys totals → k ∈ model.FRUIT_CLASSES)
    ∧ sum (dict_values totals) = persisted_total s
    ∧ ∀ summary,
        (db.get_summary s).1 = Ok summary →
        db.total_requests summary = db.SqlInt (Z.of_nat (length cs))
        ∧ db.total_fruits summary = db.SqlInt (sum (dict_values totals)).
Proof.
  intros _ Hcs. eexists. rewrite get_counts_by_class_eq.
  rewrite (for_each_add_row _ cs) by by apply pipeline_rows_written.
  split; [done|].
  assert (sum (dict_values (foldl add_counts [] cs)) = persisted_total s) as Htotal.
  { rewrite sum_values_foldl_add_counts, <-(pipeline_rows_total _ _ Hcs).
    rewrite <-sum_total_count.
    rewrite (sum_Permutation (_ <$> all_rows s)
               ((λ r, db.total_count (db.data r)) <$> db.table_scan s))
      by by rewrite all_rows_perm.
    done. }
  assert (Z.of_nat (length cs) = persisted_count s) as Hcount.
  { unfold persisted_count. by rewrite (Forall2_length _ _ _ Hcs), length_all_rows. }
  destruct (pipeline_rows_keys _ _ Hcs) as [Hnd Hkeys].
  split; [apply foldl_add_counts_NoDup; constructor|]. split.
  { intros k [v Hk]%elem_of_dict_keys.
    rewrite dict_get_totals in Hk by done.
    unfold keywise_sum in Hk. case_bool_decide as Hex; [|done].
    apply Exists_exists in Hex as (c & Hc & Hkc).
    rewrite Forall_forall in Hkeys. by eapply Hkeys. }
  split; [done|]. intros summary Hsum. rewrite Htotal, Hcount.
  by apply get_summary_ok.
Qed.

End aggregation.

(** ** Sorting *)

Global Instance str_le_total : Total str_le.
Proof.
  intros a. induction a as [|x a IH]; intros [|y b]; simpl; try tauto.
  destruct (N.lt_total x y) as [?|[->|?]]; [tauto| |tauto].
  destruct (IH b); tauto.
Qed.

Global Instance str_le_trans : Transitive str_le.
Proof.
  intros a. induction a as [|x a IH]; intros [|y b] [|z c]; simpl; try tauto.
  intros [Hxy|[-> Hab]] [Hyz|[-> Hbc]]; [left; lia|by left|by left|].
  right. split; [done|]. by eapply IH.
Qed.

Lemma sorted_set_spec xs :
  StronglySorted str_lt (sorted_set xs) ∧ ∀ x, x ∈ sorted_set xs ↔ x ∈ xs.
Proof.
  unfold sorted_set. split.
  - assert (NoDup (merge_sort str_le (remove_dups xs))) as Hnd.
    { rewrite merge_sort_Permutation. apply NoDup_remove_dups. }
    pose proof (StronglySorted_merge_sort str_le (remove_dups xs)) as Hs.
    induction Hs as [|x l Hl IH Hx]; [constructor|].
    apply NoDup_cons in Hnd as [Hnin Hnd]. constructor; [by apply IH|].
    rewrite Forall_forall in Hx |- *. intros y Hy. split; [by apply Hx|].
    by intros ->.
  - intros x. by rewrite merge_sort_Permutation, elem_of_remove_dups.
Qed.

(** ** The listing of the supported fruits *)

Section supported.
Context `{Env}.

Lemma get_supported_fruits_cached b g l :
  model._supported g = Some l → model.get_supported_fruits b g = (Ok l, g).
Proof.
  intros Hs. unfold model.get_supported_fruits. destruct g as [md sp fi cl].
  simpl in Hs. subst sp. done.
Qed.

Lemma supported_by_spec m :
  StronglySorted str_lt (supported_by m)
  ∧ ∀ x, x ∈ supported_by m ↔
         x ∈ model.FRUIT_CLASSES
         ∧ ∃ i nm, (i, nm) ∈ default [] (names m) ∧ lower nm = x.
Proof.
  unfold supported_by. destruct (sorted_set_spec
    (filter (λ nm, nm ∈ model.FRUIT_CLASSES) (lower <$> (default [] (names m)).*2)))
    as [Hs Hin].
  split; [done|]. intros x. rewrite Hin, list_elem_of_filter.
  apply and_iff_compat_l. rewrite list_elem_of_fmap. split.
  - intros (nm & -> & ([i nm'] & -> & Hnm)%list_elem_of_fmap). by exists i, nm'.
  - intros (i & nm & Hnm & <-). exists nm. split; [done|].
    apply list_elem_of_fmap. by exists (i, nm).
Qed.

Lemma get_supported_fruits_eq b g :
  model.get_supported_fruits b g =
    match model._supported g with
    | Some l => (Ok l, g)
    | None =>
      match model._model g with
      | Some m =>
          (Ok (supported_by m),
           {| model._model := Some m; model._supported := Some (supported_by m);
              model._fruit_class_ids := model._fruit_class_ids g;
              model.calls := model.calls g |})
      | None =>
          if b then
            match yolo_new with
            | Some m =>
                (Ok (supported_by m),
                 {| model._model := Some m; model._supported := Some (supported_by m);
                    model._fruit_class_ids := model._fruit_class_ids g;
                    model.calls := model.calls g |})
            | None => (Raise DetectorError, g)
            end
          else (Ok [], g)
      end
    end.
Proof.
  unfold model.get_supported_fruits, model.load_model, supported_by.
  destruct g as [md sp fi cl]. run_monad.
  destruct sp as [l|]; [done|].
  destruct b, md as [m0|]; simpl; run_monad; try done.
  destruct yolo_new as [m1|]; run_monad; done.
Qed.

(** X6: [get_supported_fruits] before anything is cached.  It never
    invokes the detector and leaves the resolved identifiers alone.  It
    raises only when it may load, no model is loaded and loading fails.
    Without permission to load and without a model it answers the empty
    list and caches nothing.  Otherwise the model is the loaded one, or
    the one just loaded, the answer is strictly ascending, holds exactly
    the allow-listed lower-cased names of that model, and is what every
    later call answers without changing the globals. *)
Theorem get_supported_fruits_listing (b : bool) (g : model.globals) :
  model._supported g = None →
  ∃ out g',
    model.get_supported_fruits b g = (out, g')
    ∧ model.calls g' = model.calls g
    ∧ model._fruit_class_ids g' = model._fruit_class_ids g
    ∧ match out with
      | Raise e =>
          e = DetectorError ∧ b = true ∧ model._model g = None
          ∧ yolo_new = None ∧ g' = g
      | Ok l =>
          (b = false ∧ model._model g = None ∧ l = [] ∧ g' = g)
          ∨ (∃ m, model._model g' = Some m
                  ∧ (model._model g = None → b = true ∧ yolo_new = Some m)
                  ∧ (∀ m0, model._model g = Some m0 → m = m0)
                  ∧ StronglySorted str_lt l
                  ∧ (∀ x, x ∈ l ↔
                          x ∈ model.FRUIT_CLASSES
                          ∧ ∃ i nm, (i, nm) ∈ default [] (names m) ∧ lower nm = x)
                  ∧ ∀ b', model.get_supported_fruits b' g' = (Ok l, g'))
      end.
Proof.
  intros Hs. rewrite get_supported_fruits_eq, Hs.
  destruct (model._model g) as [m|] eqn:Hm.
  - eexists _, _. split; [reflexivity|]. simpl. split_and!; try done.
    right. exists m. destruct (supported_by_spec m) as [Hsorted Hin].
    split_and!; try done. by intros ? [= ->].
  - destruct b.
    + destruct yolo_new as [m|] eqn:Hy.
      * eexists _, _. split; [reflexivity|]. simpl. split_and!; try done.
        right. exists m. destruct (supported_by_spec m) as [Hsorted Hin].
        split_and!; try done.
      * eexists _, _. split; [reflexivity|]. done.
    + eexists _, _. split; [reflexivity|]. split_and!; try done. by left.
Qed.

(** ** Loading and resolving once *)

Lemma load_and_resolve_loaded g m ids :
  model._model g = Some m → model._fruit_class_ids g = Some ids →
  load_and_resolve g = (Ok (m, ids), g).
Proof.
  intros Hm Hi. unfold load_and_resolve, model.load_model, model._get_fruit_class_ids.
  destruct g as [md sp fi cl]. simpl in Hm, Hi. subst. done.
Qed.

(** X7: the model and the allow-listed identifiers are settled by the
    first [run_detection]: after it, loading and resolving change nothing
    and give the same model and identifiers, and a second run invokes the
    same model with the same restriction; the cached listing of supported
    fruits is not touched. *)
Theorem run_detection_resolves_once path1 path2 (g : model.globals) m ids g1 :
  load_and_resolve g = (Ok (m, ids), g1) →
  ∃ out1 g2 out2 g3,
    model.run_detection path1 g = (out1, g2)
    ∧ model.run_detection path2 g2 = (out2, g3)
    ∧ load_and_resolve g2 = (Ok (m, ids), g2)
    ∧ model._model g3 = Some m ∧ model._fruit_class_ids g3 = Some ids
    ∧ model._supported g3 = model._supported g
    ∧ model.calls g3
      = model.calls g ++ [(path1, restriction ids); (path2, restriction ids)].
Proof.
  intros Hres.
  pose proof (load_and_resolve_inv _ _ _ _ Hres) as (Hm & Hi & Hcalls & _).
  assert (model._supported g1 = model._supported g) as Hsup.
  { revert Hres. unfold load_and_resolve, model.load_model, model._get_fruit_class_ids.
    destruct g as [md sp fi cl]. run_monad.
    destruct md as [m0|], yolo_new as [m1|], fi as [ids0|]; run_monad;
      intros [=]; subst; done. }
  set (g2 := {| model._model := model._model g1;
                model._supported := model._supported g1;
                model._fruit_class_ids := model._fruit_class_ids g1;
                model.calls := model.calls g1 ++ [(path1, restriction ids)] |}).
  assert (load_and_resolve g2 = (Ok (m, ids), g2)) as Hres2
    by by apply load_and_resolve_loaded.
  assert (∃ out1, model.run_detection path1 g = (out1, g2)) as [out1 Hrun1].
  { rewrite run_detection_eq, Hres. cbn zeta. fold g2.
    destruct (predict m path1 (restriction ids)); eauto. }
  set (g3 := {| model._model := model._model g2;
                model._supported := model._supported g2;
                model._fruit_class_ids := model._fruit_class_ids g2;
                model.calls := model.calls g2 ++ [(path2, restriction ids)] |}).
  assert (∃ out2, model.run_detection path2 g2 = (out2, g3)) as [out2 Hrun2].
  { rewrite run_detection_eq, Hres2. cbn zeta. fold g3.
    destruct (predict m path2 (restriction ids)); eauto. }
  exists out1, g2, out2, g3. split_and!; try done.
  simpl. by rewrite Hcalls, <-(assoc_L (++)).
Qed.

(** X8: [run_detection] fails in two ways only, both with the detector's
    exception: the model cannot be loaded, and then the globals are as
    they were and nothing was invoked; or the one invocation it made
    failed, and then the model and the identifiers stay cached. *)
Theorem run_detection_failure_modes path (g : model.globals) e g' :
  model.run_detection path g = (Raise e, g') →
  e = DetectorError
  ∧ ((g' = g ∧ model._model g = None ∧ yolo_new = None)
     ∨ (∃ m ids,
          model._model g' = Some m ∧ model._fruit_class_ids g' = Some ids
          ∧ model.calls g' = model.calls g ++ [(path, restriction ids)]
          ∧ predict m path (restriction ids) = None)).
Proof.
  rewrite run_detection_eq.
  destruct (load_and_resolve g) as [[[m ids]|e0] g1] eqn:Hres.
  - apply load_and_resolve_inv in Hres as (Hm & Hi & Hcalls & _). cbn zeta.
    destruct (predict m path (restriction ids)) eqn:Hp; [done|].
    intros [= <- <-]. split; [done|]. right. exists m, ids. simpl.
    split_and!; try done. by rewrite Hcalls.
  - apply load_and_resolve_fail in Hres as (-> & -> & Hm & Hy).
    intros [= <- <-]. split; [done|]. by left.
Qed.

End supported.

(** ** The page *)

Section page.
Context `{Env}.

Lemma get_supported_fruits_no_load g :
  ∃ l g',
    model.get_supported_fruits false g = (Ok l, g')
    ∧ model.calls g' = model.calls g ∧ model._model g' = model._model g
    ∧ model._fruit_class_ids g' = model._fruit_class_ids g
    ∧ (model._model g = None → model._supported g = None → l = [] ∧ g' = g)
    ∧ (∀ l0, model._supported g = Some l0 → l = l0 ∧ g' = g).
Proof.
  rewrite get_supported_fruits_eq.
  destruct (model._supported g) as [l0|] eqn:Hs.
  - eexists _, _. split; [reflexivity|]. split_and!; try done. by intros ? [= ->].
  - destruct (model._model g) as [m|] eqn:Hm; eexists _, _;
      (split; [reflexivity|]); split_and!; done.
Qed.

(** X9: [index] changes neither the store nor the disk, invokes nothing,
    and loads no model; the page it returns carries no error and no
    result, the summary that [get_summary] returns on the store, the
    per-class totals that [get_counts_by_class] returns and the ten most
    recent records, and an empty listing of fruits as long as no model is
    loaded; when it raises, [get_summary] or [get_counts_by_class]
    raised that exception, and the world is as it was. *)
Theorem index_reads_only (w : main.world) :
  ∃ out w',
    main.index w = (out, w')
    ∧ main.store w' = main.store w ∧ main.disk w' = main.disk w
    ∧ model.calls (main.globals w') = model.calls (main.globals w)
    ∧ model._model (main.globals w') = model._model (main.globals w)
    ∧ model._fruit_class_ids (main.globals w')
      = model._fruit_class_ids (main.globals w)
    ∧ match out with
      | Ok ctx =>
          main.error ctx = None ∧ main.ctx_result ctx = None
          ∧ (db.get_summary (main.store w)).1 = Ok (main.summary ctx)
          ∧ (db.get_counts_by_class (main.store w)).1 = Ok (main.counts_by_class ctx)
          ∧ main.recent ctx = take 10 (all_rows (main.store w))
          ∧ (model._model (main.globals w) = None
             ∧ model._supported (main.globals w) = None →
             main.supported_fruits ctx = [])
      | Raise e =>
          ((db.get_summary (main.store w)).1 = Raise e
           ∨ (db.get_counts_by_class (main.store w)).1 = Raise e)
          ∧ w' = w
      end.
Proof.
  unfold main.index. rewrite build_context_eq, get_counts_by_class_eq. simpl.
  destruct (db.get_summary (main.store w)).1 as [summary|e] eqn:Es;
    [|eexists _, _; split; [reflexivity|]; split_and!; try done; by left].
  destruct (for_each db.add_row [] (all_rows (main.store w))) as [totals|e] eqn:Et.
  - destruct (get_supported_fruits_no_load (main.globals w))
      as (l & g' & -> & Hc & Hm & Hi & Hnone & _).
    eexists _, _. split; [reflexivity|]. simpl. split_and!; try done.
    intros [Hm0 Hs0]. by destruct (Hnone Hm0 Hs0) as [-> _].
  - eexists _, _. split; [reflexivity|]. split_and!; try done. by right.
Qed.

(** ** The exits of the handler *)

Lemma process_image_cases image w :
  (∃ msg, msg ≠ main.NotAnImage
          ∧ main.process_image image w
            = main._build_context None (Some msg) false w)
  ∨ (∃ img fname,
       image = Some img ∧ main.filename img = Some fname
       ∧ ¬ bad_extension fname ∧ ¬ too_large (main.contents img)
       ∧ ((image_verifies (main.contents img) = false
           ∧ main.process_image image w
             = main._build_context None (Some main.NotAnImage) false
                 {| main.store := main.store w;
                    main.disk := delete (upload_path fname) (main.disk w);
                    main.globals := main.globals w |})
          ∨ (image_verifies (main.contents img) = true
             ∧ ∃ e g',
                 model.run_detection (upload_path fname) (main.globals w)
                 = (Raise e, g')
                 ∧ main.process_image image w
                   = (Raise e,
                      {| main.store := main.store w;
                         main.disk :=
                           <[upload_path fname := main.contents img]> (main.disk w);
                         main.globals := g' |}))
          ∨ (image_verifies (main.contents img) = true
             ∧ ∃ counts total annotated ms g',
                 model.run_detection (upload_path fname) (main.globals w)
                 = (Ok (counts, total, annotated, ms), g')
                 ∧ ((∃ e,
                       inserts fname counts total ms (main.store w)
                       = (Raise e, main.store w)
                       ∧ main.process_image image w
                         = (Raise e,
                            {| main.store := main.store w;
                               main.disk :=
                                 <[annotated_path := annotated]>
                                   (<[upload_path fname := main.contents img]>
                                      (main.disk w));
                               main.globals := g' |}))
                    ∨ (inserts fname counts total ms (main.store w)
                       = (Ok (db.next_rowid (main.store w)),
                          inserted (record_of fname counts total ms) (main.store w))
                       ∧ main.process_image image w
                         = main._build_context
                             (Some (descriptor_of (db.next_rowid (main.store w)) fname
                                      counts total ms))
                             None true
                             {| main.store :=
                                  inserted (record_of fname counts total ms)
                                    (main.store w);
                                main.disk :=
                                  <[annotated_path := annotated]>
                                    (<[upload_path fname := main.contents img]>
                                       (main.disk w));
                                main.globals := g' |}))))).
Proof.
  destruct image as [img|];
    [|left; eexists; split; [|apply process_image_no_file; eauto]; done].
  destruct (main.filename img) as [fname|] eqn:Hf;
    [|left; eexists; split; [|apply process_image_no_file; eauto]; done].
  destruct (decide (bad_extension fname)) as [Hext|Hext];
    [left; eexists; split; [|by eapply process_image_bad_extension]; done|].
  destruct (decide (too_large (main.contents img))) as [Hsize|Hsize];
    [left; eexists; split; [|by eapply process_image_too_large]; done|].
  right. exists img, fname. split_and!; try done.
  destruct (image_verifies (main.contents img)) eqn:Hver.
  - right.
    destruct (model.run_detection (upload_path fname) (main.globals w))
      as [[[[[counts total] annotated] ms]|e] g'] eqn:Hdet.
    + right. split; [done|]. exists counts, total, annotated, ms, g'.
      split; [done|].
      rewrite (process_image_detected _ _ _ _ _ _ _ _ Hf Hext Hsize Hver Hdet).
      cbn zeta.
      destruct (inserts fname counts total ms (main.store w)) as [[i|e] s'] eqn:Hins;
        apply inserts_inv in Hins as Hinv.
      * destruct Hinv as (-> & _ & ->). by right.
      * destruct Hinv as [-> _]. left. by exists e.
    + left. split; [done|]. exists e, g'. split; [done|].
      by eapply process_image_detection_raises.
  - left. split; [done|]. by eapply process_image_not_an_image.
Qed.

(** What [_build_context] keeps. *)
Lemma build_context_store res err b w :
  main.store (main._build_context res err b w).2 = main.store w.
Proof.
  rewrite build_context_eq.
  destruct (db.get_summary (main.store w)).1; [|done].
  destruct (for_each _ _ _); [|done].
  by destruct (model.get_supported_fruits b (main.globals w)) as [[l|e] g'].
Qed.

Lemma build_context_disk res err b w :
  main.disk (main._build_context res err b w).2 = main.disk w.
Proof.
  rewrite build_context_eq.
  destruct (db.get_summary (main.store w)).1; [|done].
  destruct (for_each _ _ _); [|done].
  by destruct (model.get_supported_fruits b (main.globals w)) as [[l|e] g'].
Qed.

(** X10: whatever the upload and however the request ends,
    [process_image] leaves every stored record as it was and adds at most
    one, under the next AUTOINCREMENT identifier, which is above the
    counter and above every identifier held before. *)
Theorem process_image_appends_only image (w : main.world) :
  let s := main.store w in
  let s' := main.store (main.process_image image w).2 in
  (s' = s ∨ ∃ new, s' = inserted new s)
  ∧ (∀ i r, db.requests s !! i = Some r → db.requests s' !! i = Some r)
  ∧ (∀ i r, db.requests s' !! i = Some r → db.requests s !! i = None →
       s' = inserted r s ∧ i = db.next_rowid s
       ∧ db.sqlite_sequence s < i ∧ db.sqlite_sequence s' = i
       ∧ ∀ j r0, db.requests s !! j = Some r0 → j < i).
Proof.
  intros s s'.
  assert (s' = s ∨ ∃ new, s' = inserted new s) as Hs'.
  { unfold s', s.
    destruct (process_image_cases image w)
      as [(msg & _ & ->)|(img & fname & _ & _ & _ & _ &
            [[_ ->]|[(_ & e & g' & _ & ->)|(_ & c & t & a & ms & g' & _ &
              [(e & _ & ->)|[_ ->]])]])].
    - left. apply build_context_store.
    - left. by rewrite build_context_store.
    - by left.
    - by left.
    - right. eexists. by rewrite build_context_store. }
  split; [done|]. destruct Hs' as [->|[new ->]].
  - split; [done|]. intros i r Hi Hnone. congruence.
  - split.
    + intros i r Hi. simpl. rewrite lookup_insert_ne; [done|].
      intros <-. by rewrite next_rowid_fresh in Hi.
    + intros i r. simpl. rewrite lookup_insert_Some.
      intros [[<- <-]|[_ Hi]] Hnone; [|congruence].
      split_and!; try done; [apply next_rowid_sequence|apply next_rowid_above].
Qed.

(** X11: the only paths whose content [process_image] can change are
    [data/uploads/<uuid><ext>] with [ext] one of the three allow-listed
    extensions, and [data/outputs/<uuid>_result.jpg]: the name the client
    sent contributes nothing but the extension. *)
Theorem process_image_writes_confined image (w : main.world) p :
  main.disk (main.process_image image w).2 !! p ≠ main.disk w !! p →
  (∃ ext, ext ∈ main.ALLOWED_EXTENSIONS
          ∧ p = main.UPLOAD_DIR ++ str "/" ++ uuid4_hex ++ ext)
  ∨ p = main.OUTPUT_DIR ++ str "/" ++ uuid4_hex ++ str "_result.jpg".
Proof.
  intros Hp.
  destruct (process_image_cases image w)
    as [(msg & _ & Heq)|(img & fname & _ & _ & Hext & _ &
          [[_ Heq]|[(_ & e & g' & _ & Heq)|(_ & c & t & a & ms & g' & _ &
            [(e & _ & Heq)|[_ Heq]])]])];
    rewrite Heq in Hp.
  - by rewrite build_context_disk in Hp.
  - rewrite build_context_disk in Hp. simpl in Hp.
    left. exists (lower (pathlib.suffix fname)).
    split; [by apply dec_stable in Hext|].
    destruct (decide (p = upload_path fname)) as [->|Hne]; [done|].
    by rewrite lookup_delete_ne in Hp.
  - simpl in Hp. left. exists (lower (pathlib.suffix fname)).
    split; [by apply dec_stable in Hext|].
    destruct (decide (p = upload_path fname)) as [->|Hne]; [done|].
    by rewrite lookup_insert_ne in Hp.
  - simpl in Hp.
    destruct (decide (p = annotated_path)) as [->|Hne1]; [by right|].
    left. exists (lower (pathlib.suffix fname)).
    split; [by apply dec_stable in Hext|].
    destruct (decide (p = upload_path fname)) as [->|Hne]; [done|].
    by rewrite !lookup_insert_ne in Hp.
  - rewrite build_context_disk in Hp. simpl in Hp.
    destruct (decide (p = annotated_path)) as [->|Hne1]; [by right|].
    left. exists (lower (pathlib.suffix fname)).
    split; [by apply dec_stable in Hext|].
    destruct (decide (p = upload_path fname)) as [->|Hne]; [done|].
    by rewrite !lookup_insert_ne in Hp.
Qed.

End page.

Section completion.
Context `{Env}.

Lemma load_and_resolve_supported g m ids g1 :
  load_and_resolve g = (Ok (m, ids), g1) →
  model._supported g1 = model._supported g.
Proof.
  unfold load_and_resolve, model.load_model, model._get_fruit_class_ids.
  destruct g as [md sp fi cl]. run_monad.
  destruct md as [m0|], yolo_new as [m1|], fi as [ids0|]; run_monad;
    intros [=]; subst; done.
Qed.

Lemma get_supported_fruits_loaded b g m :
  model._model g = Some m →
  ∃ g', model.get_supported_fruits b g
        = (Ok (default (supported_by m) (model._supported g)), g')
        ∧ model._model g' = Some m ∧ model.calls g' = model.calls g.
Proof.
  intros Hm. rewrite get_supported_fruits_eq, Hm.
  destruct (model._supported g); eexists; split_and!; done.
Qed.

Lemma counts_of_pipeline_row result i fname ms :
  pipeline_row (counts_of result)
    (db.Row i (record_of fname (counts_of result)
                 (sum (dict_values (counts_of result))) ms)).
Proof.
  destruct (counts_of_spec result) as (_ & Hnd & Hkeys & _).
  split_and!; done.
Qed.

Lemma pipeline_rows_stored cs rows :
  Forall2 pipeline_row cs rows → Forall2 stored_as (Some <$> cs) rows.
Proof.
  induction 1 as [|c r cs rows [Hw _] _ IH]; csimpl; constructor; done.
Qed.

(** X12: an upload with an allow-listed extension, of at most 20 MB,
    that verifies as an image, with a detector that loads and answers, on
    a history of rows written from mappings [json.dumps] prints or
    holding text the decoder rejects, when the insert returns and
    [get_summary] returns on the store it leaves, is answered with a
    result and no error: the record is inserted under the next
    identifier, the upload and the annotated image are on disk, the
    detector was invoked once, and the page shows the new record first,
    that summary, which counts the new record, and per-class totals that
    include its counts. *)
Theorem process_image_completes
    img fname (w : main.world) m ids g1 result cs i s1 summary :
  main.filename img = Some fname →
  ¬ bad_extension fname → ¬ too_large (main.contents img) →
  image_verifies (main.contents img) = true →
  load_and_resolve (main.globals w) = (Ok (m, ids), g1) →
  predict m (upload_path fname) (restriction ids) = Some result →
  Forall printable (omap id cs) →
  Forall2 stored_as cs (all_rows (main.store w)) →
  let total := Z.of_nat (length (allowed_names result)) in
  let new := record_of fname (counts_of result) total elapsed_ms in
  inserts fname (counts_of result) total elapsed_ms (main.store w) = (Ok i, s1) →
  (db.get_summary s1).1 = Ok summary →
  ∃ ctx w',
    main.process_image (Some img) w = (Ok ctx, w')
    ∧ main.error ctx = None
    ∧ main.ctx_result ctx
      = Some (descriptor_of i fname (counts_of result) total elapsed_ms)
    ∧ i = db.next_rowid (main.store w)
    ∧ s1 = inserted new (main.store w)
    ∧ main.store w' = s1
    ∧ main.disk w'
      = <[annotated_path := r_plot result]>
          (<[upload_path fname := main.contents img]> (main.disk w))
    ∧ model.calls (main.globals w')
      = model.calls (main.globals w) ++ [(upload_path fname, restriction ids)]
    ∧ main.recent ctx = take 10 (db.Row i new :: all_rows (main.store w))
    ∧ main.summary ctx = summary
    ∧ db.total_requests summary = db.SqlInt (persisted_count (main.store w) + 1)
    ∧ db.total_fruits summary = db.SqlInt (persisted_total (main.store w) + total)
    ∧ (∀ k, dict_get (main.counts_by_class ctx) k
            = keywise_sum (counts_of result :: omap id cs) k)
    ∧ main.supported_fruits ctx
      = json.join (str ", ")
          (default (supported_by m) (model._supported (main.globals w))).
Proof.
  intros Hf Hext Hsize Hver Hres Hp _ Hcs total new Hins Hsummary.
  destruct (counts_of_spec result) as (_ & Hnd & _ & Hsum).
  pose proof (load_and_resolve_inv _ _ _ _ Hres) as (Hm & _ & Hcalls & _).
  pose proof (load_and_resolve_supported _ _ _ _ Hres) as Hsup.
  assert (model.run_detection (upload_path fname) (main.globals w)
          = (Ok (counts_of result, total, r_plot result, elapsed_ms),
             {| model._model := model._model g1;
                model._supported := model._supported g1;
                model._fruit_class_ids := model._fruit_class_ids g1;
                model.calls := model.calls g1 ++ [(upload_path fname, restriction ids)] |}))
    as Hdet.
  { rewrite run_detection_eq, Hres. cbn zeta. rewrite Hp. unfold total.
    by rewrite Hsum. }
  rewrite (process_image_detected _ _ _ _ _ _ _ _ Hf Hext Hsize Hver Hdet).
  cbn zeta. rewrite Hins.
  apply inserts_inv in Hins as (-> & _ & ->). fold new in Hsummary |- *.
  rewrite build_context_eq. cbn [main.store main.globals main.disk].
  rewrite Hsummary. rewrite all_rows_inserted.
  rewrite (for_each_add_row_tolerant _ (Some (counts_of result) :: cs))
    by (constructor; [by split|done]).
  match goal with |- context [model.get_supported_fruits true ?g] =>
    destruct (get_supported_fruits_loaded true g m Hm) as (g' & -> & _ & Hc') end.
  eexists _, _. split; [reflexivity|]. cbn [main.error main.ctx_result main.store
    main.disk main.globals main.recent main.summary main.counts_by_class
    main.supported_fruits].
  apply get_summary_ok in Hsummary as [Hrequests Hfruits].
  rewrite persisted_count_inserted in Hrequests.
  rewrite persisted_total_inserted in Hfruits.
  split_and!; try done.
  - rewrite Hc'. simpl. by rewrite Hcalls.
  - rewrite Hfruits. simpl. f_equal. lia.
  - intros k. cbn [omap]. apply dict_get_totals. constructor; [done|].
    clear -Hcs. induction Hcs as [|[c|] r cs rows Hc _ IH]; simpl; [done| |done].
    constructor; [by destruct Hc|done].
  - simpl. by rewrite Hsup.
Qed.

(** ** The history the pipeline writes *)

Lemma pipeline_written_aggregates s :
  pipeline_written s → ∃ totals, for_each db.add_row [] (all_rows s) = Ok totals.
Proof.
  intros [cs Hcs]. eexists. apply (for_each_add_row _ cs).
  by apply pipeline_rows_written.
Qed.

Lemma pipeline_written_inserted s fname result ms :
  pipeline_written s →
  pipeline_written
    (inserted (record_of fname (counts_of result)
                 (sum (dict_values (counts_of result))) ms) s).
Proof.
  intros [cs Hcs]. exists (counts_of result :: cs). rewrite all_rows_inserted.
  constructor; [apply counts_of_pipeline_row|done].
Qed.

(** X13: a history whose rows are as the pipeline writes them stays so
    across [process_image], whatever the upload and the outcome. *)
Theorem process_image_keeps_history_well_formed image (w : main.world) :
  pipeline_written (main.store w) →
  pipeline_written (main.store (main.process_image image w).2).
Proof.
  intros Hw.
  destruct (process_image_cases image w)
    as [(msg & _ & ->)|(img & fname & _ & _ & _ & _ &
          [[_ ->]|[(_ & e & g' & _ & ->)|(_ & c & t & a & ms & g' & Hdet &
            [(e & _ & ->)|[_ ->]])]])];
    rewrite ?build_context_store; try done.
  apply run_detection_ok in Hdet as (m & ids & result & _ & _ & _ & -> & ->).
  simpl. by apply pipeline_written_inserted.
Qed.

(** X14: on a history whose rows are as the pipeline writes them, from
    mappings [json.dumps] prints, an exception of [process_image] is the
    one [get_summary] raised on the store the request leaves, or the one
    [run_detection] or the insert raised for an upload that passed every
    check: the per-class aggregation and the listing of fruits raise
    nothing.  When the detector raised, the exception is the detector's,
    no record is persisted and the staged upload is left on disk; when
    the insert raised, no record is persisted and the staged upload and
    the annotated image are left on disk. *)
Theorem process_image_exceptions_on_written_history image (w : main.world) e w' :
  pipeline_printed (main.store w) →
  main.process_image image w = (Raise e, w') →
  (db.get_summary (main.store w')).1 = Raise e
  ∨ ∃ img fname,
      image = Some img ∧ main.filename img = Some fname
      ∧ ¬ bad_extension fname ∧ ¬ too_large (main.contents img)
      ∧ image_verifies (main.contents img) = true
      ∧ main.store w' = main.store w
      ∧ (((model.run_detection (upload_path fname) (main.globals w)).1 = Raise e
          ∧ e = DetectorError
          ∧ main.disk w'
            = <[upload_path fname := main.contents img]> (main.disk w))
         ∨ (∃ counts total annotated ms g',
              model.run_detection (upload_path fname) (main.globals w)
              = (Ok (counts, total, annotated, ms), g')
              ∧ (inserts fname counts total ms (main.store w)).1 = Raise e
              ∧ main.disk w'
                = <[annotated_path := annotated]>
                    (<[upload_path fname := main.contents img]> (main.disk w)))).
Proof.
  intros (cs & _ & Hcs) Hrun.
  assert (pipeline_written (main.store w)) as Hw by by exists cs.
  assert (∀ res err b w0,
    pipeline_written (main.store w0) →
    b = false ∨ is_Some (model._model (main.globals w0)) →
    main._build_context res err b w0 = (Raise e, w') →
    (db.get_summary (main.store w')).1 = Raise e) as Hctx.
  { intros res err b w0 Hw0 Hb. rewrite build_context_eq.
    destruct (db.get_summary (main.store w0)).1 as [summary|e0] eqn:Es;
      [|by intros [= <- <-]].
    destruct (pipeline_written_aggregates _ Hw0) as [totals ->].
    destruct Hb as [->|[m Hm]].
    - by destruct (get_supported_fruits_no_load (main.globals w0)) as (l & g' & -> & _).
    - by destruct (get_supported_fruits_loaded b _ m Hm) as (g' & -> & _). }
  destruct (process_image_cases image w)
    as [(msg & _ & Heq)|(img & fname & -> & Hf & Hext & Hsize &
          [[_ Heq]|[(Hver & e0 & g' & Hdet & Heq)|(Hver & c & t & a & ms & g' & Hdet &
            [(e0 & Hins & Heq)|[_ Heq]])]])];
    rewrite Heq in Hrun.
  - left. eapply Hctx; [done|by left|done].
  - left. eapply Hctx; [|by left|done]. done.
  - injection Hrun as <- <-. right. exists img, fname. split_and!; try done.
    left. rewrite Hdet. split_and!; try done. by eapply run_detection_raises.
  - injection Hrun as <- <-. right. exists img, fname. split_and!; try done.
    right. exists c, t, a, ms, g'. by rewrite Hins.
  - left. eapply Hctx; [| |done].
    + apply run_detection_ok in Hdet as (m & ids & result & _ & _ & _ & -> & ->).
      simpl. by apply pipeline_written_inserted.
    + right. apply run_detection_ok in Hdet as (m & _ & _ & Hm & _). simpl. eauto.
Qed.

End completion.

(** ** File names and extensions *)

Section extension.

Lemma rfind_None c s : pathlib.rfind c s = None ↔ c ∉ s.
Proof.
  induction s as [|x s IH]; simpl; [split; [intros _; apply not_elem_of_nil|done]|].
  rewrite not_elem_of_cons. destruct (pathlib.rfind c s) as [i|].
  - split; [done|]. intros [_ Hs]. by apply IH in Hs.
  - destruct (N.eqb_spec x c) as [->|Hne]; [split; [done|by intros [? _]]|].
    split; [|done]. intros _. split; [done|]. by apply IH.
Qed.

Lemma rfind_app c a b : c ∉ b → pathlib.rfind c (a ++ c :: b) = Some (length a).
Proof.
  intros Hb. induction a as [|x a IH]; simpl.
  - apply rfind_None in Hb. rewrite Hb. by rewrite N.eqb_refl.
  - by rewrite IH.
Qed.

Lemma rfind_Some c s i :
  pathlib.rfind c s = Some i →
  s = take i s ++ c :: drop (S i) s ∧ length (take i s) = i ∧ c ∉ drop (S i) s.
Proof.
  revert i. induction s as [|x s IH]; intros i; simpl; [done|].
  destruct (pathlib.rfind c s) as [j|] eqn:E.
  - intros [= <-]. destruct (IH j eq_refl) as (Hs & Hlen & Hnin).
    simpl. split_and!; [by rewrite <-Hs|by rewrite Hlen|done].
  - destruct (N.eqb_spec x c) as [->|Hne]; [|done]. intros [= <-].
    simpl. rewrite drop_0. split_and!; try done. by apply rfind_None.
Qed.

Lemma split_no_sep sep s : sep ∉ s → pathlib.split sep s = [s].
Proof.
  induction s as [|c s IH]; [done|]. rewrite not_elem_of_cons. intros [Hne Hs].
  simpl. destruct (N.eqb_spec c sep) as [->|_]; [done|]. by rewrite IH.
Qed.

Lemma lower_dot ext : 46%N ∈ ext → 46%N ∈ lower ext.
Proof.
  intros Hin. unfold lower. apply list_elem_of_fmap. by exists 46%N.
Qed.

Lemma lower_ext_shape ext :
  lower ext ∈ [str "jpg"; str "jpeg"; str "png"] → (46%N ∉ ext) ∧ (ext ≠ []).
Proof.
  intros Hext. split.
  - intros Hin%lower_dot. revert Hin. generalize (lower ext) Hext.
    intros l Hl. rewrite !elem_of_cons, elem_of_nil in Hl.
    destruct Hl as [->|[->|[->|[]]]]; compute_done.
  - intros ->. revert Hext. compute_done.
Qed.

Lemma lower_dotted ext :
  lower (46%N :: ext) ∈ main.ALLOWED_EXTENSIONS
  ↔ lower ext ∈ [str "jpg"; str "jpeg"; str "png"].
Proof.
  unfold lower. rewrite fmap_cons. fold (lower ext).
  change (lower_char 46) with 46%N. unfold main.ALLOWED_EXTENSIONS.
  change (str ".jpg") with (46%N :: str "jpg").
  change (str ".jpeg") with (46%N :: str "jpeg").
  change (str ".png") with (46%N :: str "png").
  rewrite !elem_of_cons, !elem_of_nil. split.
  - intros [[= ->]|[[= ->]|[[= ->]|[]]]]; eauto.
  - intros [->|[->|[->|[]]]]; eauto.
Qed.

(** X15: the extension check of [process_image].  A passing name has a
    last component made of a non-empty stem, a dot, and [jpg], [jpeg] or
    [png] in any letter case; a last component of this shape whose stem is
    not made of dots only passes; and a name without a slash, other than
    a single dot, is its own last component. *)
Theorem extension_check_characterised (fname : list N) :
  (lower (pathlib.suffix fname) ∈ main.ALLOWED_EXTENSIONS →
     ∃ stem ext,
       pathlib.name fname = stem ++ 46%N :: ext ∧ stem ≠ []
       ∧ lower ext ∈ [str "jpg"; str "jpeg"; str "png"])
  ∧ (∀ stem ext,
       pathlib.name fname = stem ++ 46%N :: ext →
       (∃ c, c ∈ stem ∧ c ≠ 46%N) →
       lower ext ∈ [str "jpg"; str "jpeg"; str "png"] →
       lower (pathlib.suffix fname) ∈ main.ALLOWED_EXTENSIONS)
  ∧ (47%N ∉ fname → fname ≠ str "." → pathlib.name fname = fname).
Proof.
  split_and!.
  - unfold pathlib.suffix.
    destruct (pathlib.rfind 46 (pathlib.name fname)) as [i|] eqn:Ei;
      [|intros Hin; exfalso; revert Hin; compute_done].
    case_bool_decide as Hi; [|intros Hin; exfalso; revert Hin; compute_done].
    apply rfind_Some in Ei as (Hnm & Hlen & Hnin).
    intros Hin. exists (take i (pathlib.name fname)), (drop (S i) (pathlib.name fname)).
    split; [done|]. split.
    { intros Hnil. rewrite Hnil in Hlen. simpl in Hlen. lia. }
    rewrite Hnm, drop_app_length' in Hin by done. by apply lower_dotted.
  - intros stem ext Hnm Hstem Hext. unfold pathlib.suffix.
    destruct (lower_ext_shape _ Hext) as [Hdot Hne].
    rewrite Hnm, rfind_app by done.
    rewrite bool_decide_eq_true_2.
    + rewrite drop_app_length. by apply lower_dotted.
    + rewrite length_app. simpl. destruct Hstem as (c & Hc & _).
      destruct stem; [by apply elem_of_nil in Hc|]. destruct ext; [done|].
      simpl. lia.
  - intros Hsep Hdot. unfold pathlib.name. rewrite split_no_sep by done.
    destruct fname as [|c r]; [done|].
    rewrite filter_cons_True; [done|]. split; [done|]. exact Hdot.
Qed.

End extension.

(** ** Invocations of the detector *)

Section invocations.
Context `{Env}.

Lemma build_context_no_load res err w :
  let g' := main.globals (main._build_context res err false w).2 in
  model.calls g' = model.calls (main.globals w)
  ∧ model._model g' = model._model (main.globals w)
  ∧ model._fruit_class_ids g' = model._fruit_class_ids (main.globals w).
Proof.
  rewrite build_context_eq.
  destruct (db.get_summary (main.store w)).1; [|done].
  destruct (for_each _ _ _); [|done].
  by destruct (get_supported_fruits_no_load (main.globals w))
    as (l & g' & -> & ? & ? & ? & _).
Qed.

Lemma build_context_calls res err b w :
  model.calls (main.globals (main._build_context res err b w).2)
  = model.calls (main.globals w).
Proof.
  by destruct (build_context_spec res err b w) as (out & w' & -> & _ & _ & Hc & _).
Qed.

Lemma build_context_error res err b w ctx :
  (main._build_context res err b w).1 = Ok ctx → main.error ctx = err.
Proof.
  destruct (build_context_spec res err b w) as (out & w' & -> & _ & _ & _ & _ & Hok & _).
  simpl. intros ->. by destruct (Hok ctx eq_refl).
Qed.

Lemma run_detection_calls path g :
  model.calls (model.run_detection path g).2 = model.calls g
  ∨ ∃ classes, model.calls (model.run_detection path g).2
               = model.calls g ++ [(path, classes)].
Proof.
  rewrite run_detection_eq.
  destruct (load_and_resolve g) as [[[m ids]|e0] g1] eqn:Hres.
  - apply load_and_resolve_inv in Hres as (_ & _ & Hcalls & _). cbn zeta.
    right. exists (restriction ids).
    destruct (predict m path (restriction ids)); simpl; by rewrite Hcalls.
  - apply load_and_resolve_fail in Hres as (_ & -> & _). by left.
Qed.

(** X16: [process_image] invokes the detector at most once, on the staged
    upload, and only for an upload that verified; a rejected request
    invokes nothing, loads no model and resolves no identifiers. *)
Theorem process_image_invokes_detector_at_most_once image (w : main.world) :
  let out := (main.process_image image w).1 in
  let g := main.globals w in
  let g' := main.globals (main.process_image image w).2 in
  (model.calls g' = model.calls g
   ∨ ∃ img fname classes,
       image = Some img ∧ main.filename img = Some fname
       ∧ image_verifies (main.contents img) = true
       ∧ model.calls g' = model.calls g ++ [(upload_path fname, classes)])
  ∧ (rejection out →
       model.calls g' = model.calls g ∧ model._model g' = model._model g
       ∧ model._fruit_class_ids g' = model._fruit_class_ids g).
Proof.
  intros out g g'. unfold out, g', g.
  destruct (process_image_cases image w)
    as [(msg & _ & ->)|(img & fname & -> & Hf & _ & _ &
          [[_ ->]|[(Hver & e & g1 & Hdet & ->)|(Hver & c & t & a & ms & g1 & Hdet &
            [(e & _ & ->)|[_ ->]])]])].
  - destruct (build_context_no_load None (Some msg) w) as (Hc & Hm & Hi).
    split; [by left|done].
  - match goal with |- context [main._build_context ?r ?e false ?w0] =>
      destruct (build_context_no_load r e w0) as (Hc & Hm & Hi) end.
    split; [by left|done].
  - simpl. split; [|by intros (ctx & msg & [=] & _)].
    destruct (run_detection_calls (upload_path fname) (main.globals w))
      as [Hc|[classes Hc]]; rewrite Hdet in Hc; simpl in Hc; [by left|].
    right. by exists img, fname, classes.
  - simpl. split; [|by intros (ctx & msg & [=] & _)].
    right. apply run_detection_ok in Hdet as (m & ids & result & _ & Hc & _).
    by exists img, fname, (restriction ids).
  - split.
    + right. rewrite build_context_calls. simpl.
      apply run_detection_ok in Hdet as (m & ids & result & _ & Hc & _).
      by exists img, fname, (restriction ids).
    + intros (ctx & msg & Hout & Hmsg & _). apply build_context_error in Hout.
      congruence.
Qed.

End invocations.

(** ** Records and their files *)

Section files.
Context `{Env}.

Lemma upload_path_not_annotated fname : upload_path fname ≠ annotated_path.
Proof.
  intros Heq. apply (f_equal (λ l, l !! 5%nat)) in Heq. by vm_compute in Heq.
Qed.

(** X17: a record [process_image] adds carries the name the client sent
    and the model name, and both its files are on disk when the handler
    ends: the staged upload, and the annotated image at [output_path]
    below the output directory. *)
Theorem process_image_record_has_files image (w : main.world) i r :
  db.requests (main.store (main.process_image image w).2) !! i = Some r →
  db.requests (main.store w) !! i = None →
  ∃ img fname,
    image = Some img ∧ main.filename img = Some fname
    ∧ db.filename r = fname ∧ db.model_name r = model.MODEL_NAME
    ∧ main.disk (main.process_image image w).2 !! upload_path fname
      = Some (main.contents img)
    ∧ is_Some (main.disk (main.process_image image w).2
                 !! (main.OUTPUT_DIR ++ str "/" ++ db.output_path r)).
Proof.
  destruct (process_image_cases image w)
    as [(msg & _ & ->)|(img & fname & -> & Hf & _ & _ &
          [[_ ->]|[(_ & e & g' & _ & ->)|(_ & c & t & a & ms & g' & _ &
            [(e & _ & ->)|[_ ->]])]])];
    rewrite ?build_context_store, ?build_context_disk; simpl;
    try (intros Hi Hnone; congruence).
  rewrite lookup_insert_Some. intros [[<- <-]|[_ Hi]] Hnone; [|congruence].
  exists img, fname. simpl. split_and!; try done.
  - rewrite lookup_insert_ne by (symmetry; apply upload_path_not_annotated).
    apply lookup_insert_eq.
  - fold annotated_path. rewrite lookup_insert_eq. eauto.
Qed.

End files.

(** ** The scenario store *)

Lemma all_rows_scenario_store :
  all_rows scenario_store
  = [db.Row 3 (sample_request (json.dumps []) 0);
     db.Row 2 (sample_request (json.dumps [(banana, 1); (apple, 1)]) 2);
     db.Row 1 (sample_request (json.dumps [(apple, 2)]) 2)].
Proof. vm_compute. reflexivity. Qed.

Lemma scenario_store_pipeline_rows :
  Forall2 pipeline_row scenario_counts (all_rows scenario_store).
Proof.
  rewrite all_rows_scenario_store. unfold scenario_counts.
  repeat (constructor;
          [split_and!;
           [split; [unfold dict_keys; compute_done|reflexivity]
           |reflexivity
           |apply Forall_forall; unfold dict_keys; compute_done]|]).
  constructor.
Qed.

Lemma scenario_counts_printable : Forall printable scenario_counts.
Proof.
  unfold scenario_counts, printable.
  repeat (constructor; [repeat (constructor; [vm_compute; reflexivity|])|]);
    constructor.
Qed.

(** ** Counterexamples *)

(** C1 as stated fails where the sum leaves the 64-bit integers: after
    two inserts that return, with [total_count] 2^63 - 1 and 1,
    [get_summary] raises.  And past 2^53 the average is not the quotient
    of the two other values: on records with [total_count] 2^53, 1 and 1
    the running binary64 sum stays at 2^53. *)
Lemma get_summary_overflow_counterexample :
  ∃ s1 s2,
    db.insert_request (str "a.jpg") (str "a_result.jpg") [(apple, 2 ^ 63 - 1)]
      (2 ^ 63 - 1) model.MODEL_NAME (str "2024-01-01 10:00:00") 40 (sample_store [])
    = (Ok 1, s1)
    ∧ db.insert_request (str "b.jpg") (str "b_result.jpg") [(apple, 1)]
        1 model.MODEL_NAME (str "2024-01-01 10:00:01") 40 s1
      = (Ok 2, s2)
    ∧ db.get_summary s2 = (Raise OperationalError, s2)
    ∧ (db.get_summary
         (sample_store [sample_request (json.dumps [(apple, 2 ^ 53)]) (2 ^ 53);
                        sample_request (json.dumps [(apple, 1)]) 1;
                        sample_request (json.dumps [(apple, 1)]) 1])).1
      = Ok {| db.total_requests := db.SqlInt 3;
              db.total_fruits := db.SqlInt (2 ^ 53 + 2);
              db.avg_per_request :=
                db.SqlReal (binary64_quotient (2 ^ 53) 3) |}
    ∧ binary64_quotient (2 ^ 53) 3 ≠ binary64_quotient (2 ^ 53 + 2) 3.
Proof.
  eexists _, _. split; [vm_compute; reflexivity|].
  split; [vm_compute; reflexivity|]. split; [vm_compute; reflexivity|].
  split; [vm_compute; reflexivity|]. vm_compute. discriminate.
Qed.

(** C5 as stated fails at both ends of the limits: [fetch_recent (2^63)]
    raises instead of returning records, and [fetch_recent (-1)] on a
    store of three records returns the three of them. *)
Lemma fetch_recent_limit_counterexample :
  db.fetch_recent (2 ^ 63) scenario_store = (Raise OverflowError, scenario_store)
  ∧ ∃ r3 r2 r1,
      db.fetch_recent (-1) scenario_store
      = (Ok [db.Row 3 r3; db.Row 2 r2; db.Row 1 r1], scenario_store).
Proof.
  split; [vm_compute; reflexivity|]. eexists _, _, _. vm_compute. reflexivity.
Qed.

(** C10 as stated fails for a negative limit below -2^63: on a store of
    three records [fetch_recent] raises instead of returning them. *)
Lemma fetch_recent_below_int64_counterexample :
  persisted_count scenario_store = 3
  ∧ db.fetch_recent (- 2 ^ 63 - 1) scenario_store
    = (Raise OverflowError, scenario_store).
Proof. split; vm_compute; reflexivity. Qed.

(** C6 as stated fails on a history the page cannot be built from: an
    upload named [a.gif] is answered with the exception of
    [get_counts_by_class] when a stored row holds the JSON text of a
    list, and with the exception of [get_summary] when the stored
    [total_count] add up to 2^63. *)
Lemma rejected_upload_raises_on_unreadable_history :
  @bad_extension (str "a.gif")
  ∧ (@main.process_image (sample_env sample_yolo true) (Some (sample_upload "a.gif"))
       (sample_world (sample_store [sample_request (json.dumps [(apple, 2)]) 2;
                                    sample_request (str "[]") 0]))).1
    = Raise AttributeError
  ∧ (@main.process_image (sample_env sample_yolo true) (Some (sample_upload "a.gif"))
       (sample_world
          (sample_store [sample_request (json.dumps [(apple, 2 ^ 62)]) (2 ^ 62);
                         sample_request (json.dumps [(apple, 2 ^ 62)]) (2 ^ 62)]))).1
    = Raise OperationalError.
Proof.
  split; [unfold bad_extension; compute_done|]. split; vm_compute; reflexivity.
Qed.

(** C3 as stated fails when the detector raises: the request ends with
    the detector's exception, no record is persisted, and the staged
    upload is still on disk. *)
Lemma staged_upload_survives_detector_error :
  (@main.process_image (sample_env failing_yolo true) (Some (sample_upload "a.jpg"))
     (sample_world scenario_store)).1 = Raise DetectorError
  ∧ main.store (@main.process_image (sample_env failing_yolo true)
                  (Some (sample_upload "a.jpg")) (sample_world scenario_store)).2
    = scenario_store
  ∧ main.disk (@main.process_image (sample_env failing_yolo true)
                 (Some (sample_upload "a.jpg")) (sample_world scenario_store)).2
      !! @upload_path (sample_env failing_yolo true) (str "a.jpg")
    = Some (main.contents (sample_upload "a.jpg")).
Proof. split_and!; vm_compute; reflexivity. Qed.

(** ** Witnesses *)

Lemma get_summary_spec_witness :
  running_totals_fit scenario_store
  ∧ ∃ avg,
      db.get_summary scenario_store
      = (Ok {| db.total_requests := db.SqlInt 3; db.total_fruits := db.SqlInt 4;
               db.avg_per_request := avg |}, scenario_store)
      ∧ avg = db.SqlReal (binary64_quotient 4 3).
Proof.
  destruct (get_summary_spec scenario_store) as (Hreturns & _ & Hmag).
  assert (running_totals_fit scenario_store) as Hfit
    by (apply Hmag; vm_compute; reflexivity).
  split; [exact Hfit|].
  destruct (Hreturns Hfit) as (avg & Hrun & _ & _ & Hexact).
  exists avg. split; [exact Hrun|]. apply Hexact; vm_compute; [reflexivity|discriminate].
Defined.

Lemma fetch_recent_spec_witness :
  db.int64 2 ∧
  ∃ rows all,
    db.fetch_recent 2 scenario_store = (Ok rows, scenario_store)
    ∧ db.fetch_all scenario_store = (Ok all, scenario_store)
    ∧ rows `prefix_of` all
    ∧ Z.of_nat (length rows) ≤ 2.
Proof.
  assert (db.int64 2) as Hfit by (unfold db.int64; lia).
  split; [exact Hfit|].
  destruct (proj1 (fetch_recent_spec scenario_store 2) Hfit)
    as (rows & all & Hrun & Hall & _ & _ & Hprefix & _ & _ & Hbound).
  exists rows, all. split; [exact Hrun|]. split; [exact Hall|].
  split; [exact Hprefix|]. apply Hbound. lia.
Defined.

Lemma fetch_recent_limit_edge_witness :
  ∃ rows,
    db.fetch_recent (-3) scenario_store = (Ok rows, scenario_store)
    ∧ Z.of_nat (length rows) = 3.
Proof.
  destruct (fetch_recent_limit_edge scenario_store (-3)) as (_ & Hneg & _).
  destruct Hneg as (rows & Hrun & _ & Hlen & _); [lia|unfold db.int64; lia|].
  exists rows. split; [exact Hrun|]. rewrite Hlen. vm_compute. reflexivity.
Defined.

Lemma insert_request_round_trip_witness :
  NoDup (dict_keys [(apple, 2); (banana, 1)]) ∧
  ∃ s' old,
    db.insert_request (str "p.jpg") (str "p_result.jpg") [(apple, 2); (banana, 1)] 3
       model.MODEL_NAME (str "2024-01-02 09:00:00") 31 scenario_store = (Ok 4, s')
    ∧ db.fetch_all scenario_store = (Ok old, scenario_store)
    ∧ db.requests scenario_store !! 4 = None
    ∧ ∃ new, db.fetch_all s' = (Ok (db.Row 4 new :: old), s').
Proof.
  assert (NoDup (dict_keys [(apple, 2); (banana, 1)])) as Hnd.
  { unfold dict_keys. compute_done. }
  split; [exact Hnd|].
  assert (db.insert_request (str "p.jpg") (str "p_result.jpg")
            [(apple, 2); (banana, 1)] 3 model.MODEL_NAME
            (str "2024-01-02 09:00:00") 31 scenario_store
          = (Ok 4, (db.insert_request (str "p.jpg") (str "p_result.jpg")
                      [(apple, 2); (banana, 1)] 3 model.MODEL_NAME
                      (str "2024-01-02 09:00:00") 31 scenario_store).2)) as Hins
    by (vm_compute; reflexivity).
  destruct (@insert_request_round_trip (sample_env sample_yolo true)
              _ _ _ _ _ _ _ _ _ _ Hnd Hins)
    as (old & Hall & _ & Hfresh & _ & Hall' & _).
  eexists _, old. split; [exact Hins|]. split; [exact Hall|].
  split; [exact Hfresh|]. eexists. exact Hall'.
Defined.

Lemma run_detection_invocation_witness :
  @load_and_resolve (sample_env sample_yolo true) fresh_globals
  = (Ok (sample_yolo, [46; 47; 49]),
     (@load_and_resolve (sample_env sample_yolo true) fresh_globals).2)
  ∧ ∃ g2,
      model.calls g2 = [(str "data/uploads/0f8a.jpg", Some [46; 47; 49])]
      ∧ (@model.run_detection (sample_env sample_yolo true)
           (str "data/uploads/0f8a.jpg") fresh_globals).2 = g2.
Proof.
  assert (@load_and_resolve (sample_env sample_yolo true) fresh_globals
          = (Ok (sample_yolo, [46; 47; 49]),
             (@load_and_resolve (sample_env sample_yolo true) fresh_globals).2))
    as Hres by (vm_compute; reflexivity).
  split; [exact Hres|].
  destruct (@run_detection_invocation (sample_env sample_yolo true)
              (str "data/uploads/0f8a.jpg") fresh_globals sample_yolo
              [46; 47; 49] _ Hres) as (_ & _ & _ & g2 & Hcalls & Hrun & _).
  exists g2. split; [exact Hcalls|]. rewrite Hrun. reflexivity.
Defined.

Lemma process_image_rejects_upload_witness :
  @bad_extension (str "a.GIF") ∧
  ∃ out w',
    @main.process_image (sample_env sample_yolo true) (Some (sample_upload "a.GIF"))
      (sample_world scenario_store) = (out, w')
    ∧ main.store w' = scenario_store ∧ main.disk w' = ∅.
Proof.
  assert (bad_extension (str "a.GIF")) as Hext by (unfold bad_extension; compute_done).
  split; [exact Hext|].
  destruct (@process_image_rejects_upload (sample_env sample_yolo true)
              (sample_upload "a.GIF") (str "a.GIF") (sample_world scenario_store)
              eq_refl (or_introl Hext)) as (out & w' & Hrun & Hs & Hd & _).
  exists out, w'. split; [exact Hrun|]. split; [exact Hs|exact Hd].
Defined.

Lemma process_image_failure_cleanup_witness :
  rejection (@main.process_image (sample_env sample_yolo false)
               (Some (sample_upload "a.png")) (sample_world scenario_store)).1
  ∧ main.store (@main.process_image (sample_env sample_yolo false)
                  (Some (sample_upload "a.png")) (sample_world scenario_store)).2
    = scenario_store.
Proof.
  assert (rejection (@main.process_image (sample_env sample_yolo false)
            (Some (sample_upload "a.png")) (sample_world scenario_store)).1) as Hrej.
  { eexists _, _. split_and!; vm_compute; reflexivity. }
  split; [exact Hrej|].
  exact (proj1 (@process_image_failure_cleanup (sample_env sample_yolo false)
                  (Some (sample_upload "a.png")) (sample_world scenario_store) _ _
                  (surjective_pairing _) (or_introl Hrej))).
Defined.

Lemma process_image_persists_consistent_counts_witness :
  ∃ ctx descr r,
    (@main.process_image (sample_env sample_yolo true)
       (Some (sample_upload "a.jpg")) (sample_world scenario_store)).1 = Ok ctx
    ∧ main.ctx_result ctx = Some descr
    ∧ db.requests (main.store (@main.process_image (sample_env sample_yolo true)
         (Some (sample_upload "a.jpg")) (sample_world scenario_store)).2)
      = <[main.request_id descr := r]> (db.requests scenario_store)
    ∧ db.total_count r = sum (dict_values (main.counts descr)).
Proof.
  eexists _, _.
  assert (∀ A (x : A * main.world) a, x.1 = a → x = (a, x.2)) as Hpair
    by (intros ? [??] ? <-; reflexivity).
  match goal with |- ∃ r, ?run.1 = Ok ?ctx ∧ main.ctx_result _ = Some ?descr ∧ _ =>
    assert (run.1 = Ok ctx) as Hrun by (vm_compute; reflexivity);
    assert (main.ctx_result ctx = Some descr) as Hres by reflexivity;
    destruct (@process_image_persists_consistent_counts (sample_env sample_yolo true)
                _ _ _ _ _ (Hpair _ _ _ Hrun) Hres)
      as (_ & _ & _ & _ & _ & r & _ & _ & _ & _ & _ & _ & Hreq & _ & Htotal & _)
  end.
  exists r. split; [exact Hrun|]. split; [exact Hres|]. split; [exact Hreq|exact Htotal].
Defined.


Lemma get_counts_by_class_exceptions_witness :
  (@db.get_counts_by_class (sample_env sample_yolo true)
     (sample_store [sample_request (json.dumps [(apple, 2)]) 2;
                    sample_request (str "[]") 0])).1 = Raise AttributeError
  ∧ ∃ i r,
      db.requests (sample_store [sample_request (json.dumps [(apple, 2)]) 2;
                                 sample_request (str "[]") 0]) !! i = Some r
      ∧ @indigestible (sample_env sample_yolo true) (db.Row i r) AttributeError.
Proof.
  assert ((@db.get_counts_by_class (sample_env sample_yolo true)
     (sample_store [sample_request (json.dumps [(apple, 2)]) 2;
                    sample_request (str "[]") 0])).1 = Raise AttributeError) as Hrun
    by (vm_compute; reflexivity).
  split; [exact Hrun|].
  exact (proj2 (proj2 (@get_counts_by_class_exceptions (sample_env sample_yolo true)
                         _ _ Hrun))).
Defined.

Lemma per_class_totals_match_summary_witness :
  Forall printable scenario_counts
  ∧ Forall2 pipeline_row scenario_counts (all_rows scenario_store)
  ∧ ∃ totals,
      @db.get_counts_by_class (sample_env sample_yolo true) scenario_store
      = (Ok totals, scenario_store)
      ∧ sum (dict_values totals) = 4
      ∧ ∃ summary, (db.get_summary scenario_store).1 = Ok summary
                   ∧ db.total_fruits summary = db.SqlInt (sum (dict_values totals)).
Proof.
  split; [exact scenario_counts_printable|].
  split; [exact scenario_store_pipeline_rows|].
  destruct (@per_class_totals_match_summary (sample_env sample_yolo true)
              scenario_store scenario_counts scenario_counts_printable
              scenario_store_pipeline_rows)
    as (totals & Hrun & _ & _ & Htotal & Hsummary).
  exists totals. split; [exact Hrun|].
  split; [rewrite Htotal; vm_compute; reflexivity|].
  assert ((db.get_summary scenario_store).1
          = Ok {| db.total_requests := db.SqlInt 3; db.total_fruits := db.SqlInt 4;
                  db.avg_per_request := db.SqlReal (binary64_quotient 4 3) |}) as Hs
    by (vm_compute; reflexivity).
  eexists. split; [exact Hs|]. exact (proj2 (Hsummary _ Hs)).
Defined.

Lemma insert_request_ids_increase_witness :
  ∃ s1 s2,
    db.insert_request (str "p.jpg") (str "p_result.jpg") [(apple, 2)] 2
      model.MODEL_NAME (str "2024-01-02 09:00:00") 31 scenario_store = (Ok 4, s1)
    ∧ db.insert_request (str "q.jpg") (str "q_result.jpg") [(banana, 1)] 1
        model.MODEL_NAME (str "2024-01-02 09:00:05") 28 s1 = (Ok 5, s2)
    ∧ 5 = 4 + 1 ∧ db.sqlite_sequence scenario_store < 4.
Proof.
  assert (db.insert_request (str "p.jpg") (str "p_result.jpg") [(apple, 2)] 2
            model.MODEL_NAME (str "2024-01-02 09:00:00") 31 scenario_store
          = (Ok 4, (db.insert_request (str "p.jpg") (str "p_result.jpg") [(apple, 2)] 2
                      model.MODEL_NAME (str "2024-01-02 09:00:00") 31
                      scenario_store).2)) as Hfirst
    by (vm_compute; reflexivity).
  assert (db.insert_request (str "q.jpg") (str "q_result.jpg") [(banana, 1)] 1
            model.MODEL_NAME (str "2024-01-02 09:00:05") 28
            (db.insert_request (str "p.jpg") (str "p_result.jpg") [(apple, 2)] 2
               model.MODEL_NAME (str "2024-01-02 09:00:00") 31 scenario_store).2
          = (Ok 5, (db.insert_request (str "q.jpg") (str "q_result.jpg") [(banana, 1)] 1
                      model.MODEL_NAME (str "2024-01-02 09:00:05") 28
                      (db.insert_request (str "p.jpg") (str "p_result.jpg")
                         [(apple, 2)] 2 model.MODEL_NAME (str "2024-01-02 09:00:00") 31
                         scenario_store).2).2)) as Hsecond
    by (vm_compute; reflexivity).
  destruct (insert_request_ids_increase
              _ _ _ _ _ _ _ _ _ _ _ _ _ _ _ _ _ _ _ Hfirst Hsecond)
    as (Hnext & Hseq & _).
  eexists _, _. split; [exact Hfirst|]. split; [exact Hsecond|].
  split; [exact Hnext|exact Hseq].
Defined.

Lemma get_summary_after_insert_witness :
  ∃ s' avg x,
    db.insert_request (str "p.jpg") (str "p_result.jpg") [(apple, 2)] 2
      model.MODEL_NAME (str "2024-01-02 09:00:00") 31 scenario_store = (Ok 4, s')
    ∧ persisted_magnitude scenario_store + Z.abs 2 < 2 ^ 63
    ∧ db.get_summary scenario_store
      = (Ok {| db.total_requests := db.SqlInt (persisted_count scenario_store);
               db.total_fruits := db.SqlInt (persisted_total scenario_store);
               db.avg_per_request := avg |}, scenario_store)
    ∧ db.get_summary s'
      = (Ok {| db.total_requests := db.SqlInt (persisted_count scenario_store + 1);
               db.total_fruits := db.SqlInt (persisted_total scenario_store + 2);
               db.avg_per_request := db.SqlReal x |}, s').
Proof.
  assert (db.insert_request (str "p.jpg") (str "p_result.jpg") [(apple, 2)] 2
            model.MODEL_NAME (str "2024-01-02 09:00:00") 31 scenario_store
          = (Ok 4, (db.insert_request (str "p.jpg") (str "p_result.jpg") [(apple, 2)] 2
                      model.MODEL_NAME (str "2024-01-02 09:00:00") 31
                      scenario_store).2)) as Hins
    by (vm_compute; reflexivity).
  assert (persisted_magnitude scenario_store + Z.abs 2 < 2 ^ 63) as Hfit
    by (vm_compute; reflexivity).
  destruct (get_summary_after_insert _ _ _ _ _ _ _ _ _ _ Hins Hfit)
    as (avg & x & Hbefore & Hafter).
  eexists _, avg, x. split; [exact Hins|]. split; [exact Hfit|].
  split; [exact Hbefore|exact Hafter].
Defined.

Lemma get_supported_fruits_listing_witness :
  model._supported fresh_globals = None
  ∧ ∃ out g',
      @model.get_supported_fruits (sample_env sample_yolo true) true fresh_globals
      = (out, g')
      ∧ model.calls g' = [] ∧ model._fruit_class_ids g' = None.
Proof.
  split; [reflexivity|].
  destruct (@get_supported_fruits_listing (sample_env sample_yolo true) true
              fresh_globals eq_refl) as (out & g' & Hrun & Hcalls & Hids & _).
  exists out, g'. split; [exact Hrun|]. split; [exact Hcalls|exact Hids].
Defined.

Lemma run_detection_resolves_once_witness :
  @load_and_resolve (sample_env sample_yolo true) fresh_globals
  = (Ok (sample_yolo, [46; 47; 49]),
     (@load_and_resolve (sample_env sample_yolo true) fresh_globals).2)
  ∧ ∃ g3,
      (@model.run_detection (sample_env sample_yolo true) (str "b.png")
         (@model.run_detection (sample_env sample_yolo true) (str "a.jpg")
            fresh_globals).2).2 = g3
      ∧ model.calls g3
        = [(str "a.jpg", Some [46; 47; 49]); (str "b.png", Some [46; 47; 49])].
Proof.
  assert (@load_and_resolve (sample_env sample_yolo true) fresh_globals
          = (Ok (sample_yolo, [46; 47; 49]),
             (@load_and_resolve (sample_env sample_yolo true) fresh_globals).2))
    as Hres by (vm_compute; reflexivity).
  split; [exact Hres|].
  destruct (@run_detection_resolves_once (sample_env sample_yolo true)
              (str "a.jpg") (str "b.png") fresh_globals sample_yolo [46; 47; 49] _ Hres)
    as (out1 & g2 & out2 & g3 & Hrun1 & Hrun2 & _ & _ & _ & _ & Hcalls).
  exists g3. rewrite Hrun1. simpl. rewrite Hrun2. split; [reflexivity|exact Hcalls].
Defined.

Lemma run_detection_failure_modes_witness :
  @model.run_detection (sample_env failing_yolo true) (str "a.jpg") fresh_globals
  = (Raise DetectorError,
     (@model.run_detection (sample_env failing_yolo true) (str "a.jpg")
        fresh_globals).2)
  ∧ ∃ m ids,
      model._model (@model.run_detection (sample_env failing_yolo true)
                      (str "a.jpg") fresh_globals).2 = Some m
      ∧ predict m (str "a.jpg") (restriction ids) = None.
Proof.
  assert (@model.run_detection (sample_env failing_yolo true) (str "a.jpg") fresh_globals
          = (Raise DetectorError,
             (@model.run_detection (sample_env failing_yolo true) (str "a.jpg")
                fresh_globals).2)) as Hrun by (vm_compute; reflexivity).
  split; [exact Hrun|].
  destruct (@run_detection_failure_modes (sample_env failing_yolo true) _ _ _ _ Hrun)
    as [_ [(Hg & _)|(m & ids & Hm & _ & _ & Hp)]].
  - vm_compute in Hg. discriminate Hg.
  - exists m, ids. split; [exact Hm|exact Hp].
Defined.

Lemma process_image_writes_confined_witness :
  main.disk (@main.process_image (sample_env sample_yolo true)
               (Some (sample_upload "a.jpg")) (sample_world scenario_store)).2
    !! str "data/uploads/0f8a.jpg"
  ≠ main.disk (sample_world scenario_store) !! str "data/uploads/0f8a.jpg"
  ∧ ((∃ ext, ext ∈ main.ALLOWED_EXTENSIONS
             ∧ str "data/uploads/0f8a.jpg"
               = main.UPLOAD_DIR ++ str "/" ++ str "0f8a" ++ ext)
     ∨ str "data/uploads/0f8a.jpg"
       = main.OUTPUT_DIR ++ str "/" ++ str "0f8a" ++ str "_result.jpg").
Proof.
  assert (main.disk (@main.process_image (sample_env sample_yolo true)
               (Some (sample_upload "a.jpg")) (sample_world scenario_store)).2
            !! str "data/uploads/0f8a.jpg"
          ≠ main.disk (sample_world scenario_store) !! str "data/uploads/0f8a.jpg")
    as Hp by (intros Heq; vm_compute in Heq; discriminate Heq).
  split; [exact Hp|].
  exact (@process_image_writes_confined (sample_env sample_yolo true) _ _ _ Hp).
Defined.

Lemma process_image_completes_witness :
  ∃ ctx w',
    @main.process_image (sample_env sample_yolo true) (Some (sample_upload "a.jpg"))
      (sample_world scenario_store) = (Ok ctx, w')
    ∧ main.error ctx = None
    ∧ db.total_requests (main.summary ctx) = db.SqlInt 4
    ∧ db.total_fruits (main.summary ctx) = db.SqlInt 9
    ∧ dict_get (main.counts_by_class ctx) apple = Some 6.
Proof.
  assert (Forall2 stored_as (Some <$> scenario_counts)
            (all_rows (main.store (sample_world scenario_store)))) as Hcs
    by exact (pipeline_rows_stored _ _ scenario_store_pipeline_rows).
  assert (Forall printable (omap id (Some <$> scenario_counts))) as Hprint
    by exact scenario_counts_printable.
  assert (¬ bad_extension (str "a.jpg")) as Hext
    by (unfold bad_extension; compute_done).
  assert (¬ too_large (main.contents (sample_upload "a.jpg"))) as Hsize
    by (unfold too_large; compute_done).
  assert (@load_and_resolve (sample_env sample_yolo true)
            (main.globals (sample_world scenario_store))
          = (Ok (sample_yolo, [46; 47; 49]),
             (@load_and_resolve (sample_env sample_yolo true) fresh_globals).2))
    as Hres by (vm_compute; reflexivity).
  assert (@inserts (sample_env sample_yolo true) (str "a.jpg")
            (counts_of sample_result) 5 12 scenario_store
          = (Ok 4, (@inserts (sample_env sample_yolo true) (str "a.jpg")
                      (counts_of sample_result) 5 12 scenario_store).2)) as Hins
    by (vm_compute; reflexivity).
  assert ((db.get_summary (@inserts (sample_env sample_yolo true) (str "a.jpg")
                             (counts_of sample_result) 5 12 scenario_store).2).1
          = Ok {| db.total_requests := db.SqlInt 4; db.total_fruits := db.SqlInt 9;
                  db.avg_per_request := db.SqlReal (binary64_quotient 9 4) |})
    as Hsummary by (vm_compute; reflexivity).
  destruct (@process_image_completes (sample_env sample_yolo true)
              (sample_upload "a.jpg") (str "a.jpg") (sample_world scenario_store)
              sample_yolo [46; 47; 49] _ sample_result (Some <$> scenario_counts)
              _ _ _ eq_refl Hext Hsize eq_refl Hres eq_refl Hprint Hcs Hins Hsummary)
    as (ctx & w' & Hrun & Herr & _ & _ & _ & _ & _ & _ & _ & Hsum & _ & _ & Hcounts & _).
  exists ctx, w'. split; [exact Hrun|]. split; [exact Herr|].
  split; [by rewrite Hsum|]. split; [by rewrite Hsum|].
  rewrite Hcounts. vm_compute. reflexivity.
Defined.

Lemma process_image_keeps_history_well_formed_witness :
  pipeline_written (main.store (sample_world scenario_store))
  ∧ pipeline_written
      (main.store (@main.process_image (sample_env sample_yolo true)
                     (Some (sample_upload "a.jpg")) (sample_world scenario_store)).2).
Proof.
  assert (pipeline_written (main.store (sample_world scenario_store))) as Hw
    by (exists scenario_counts; exact scenario_store_pipeline_rows).
  split; [exact Hw|].
  exact (@process_image_keeps_history_well_formed (sample_env sample_yolo true) _ _ Hw).
Defined.

Lemma process_image_exceptions_on_written_history_witness :
  pipeline_printed (main.store (sample_world scenario_store))
  ∧ (@main.process_image (sample_env failing_yolo true) (Some (sample_upload "a.jpg"))
       (sample_world scenario_store)).1 = Raise DetectorError
  ∧ ∃ img fname,
      Some (sample_upload "a.jpg") = Some img ∧ main.filename img = Some fname
      ∧ main.store (@main.process_image (sample_env failing_yolo true)
                      (Some (sample_upload "a.jpg")) (sample_world scenario_store)).2
        = scenario_store.
Proof.
  assert (pipeline_printed (main.store (sample_world scenario_store))) as Hw
    by (exists scenario_counts; split;
        [exact scenario_counts_printable|exact scenario_store_pipeline_rows]).
  assert (@main.process_image (sample_env failing_yolo true)
            (Some (sample_upload "a.jpg")) (sample_world scenario_store)
          = (Raise DetectorError,
             (@main.process_image (sample_env failing_yolo true)
                (Some (sample_upload "a.jpg")) (sample_world scenario_store)).2))
    as Hrun by (vm_compute; reflexivity).
  split; [exact Hw|]. split; [by rewrite Hrun|].
  destruct (@process_image_exceptions_on_written_history
              (sample_env failing_yolo true) _ _ _ _ Hw Hrun)
    as [Hsummary|(img & fname & Himg & Hf & _ & _ & _ & Hstore & _)].
  - vm_compute in Hsummary. discriminate Hsummary.
  - exists img, fname. split; [exact Himg|]. split; [exact Hf|exact Hstore].
Defined.

Lemma process_image_record_has_files_witness :
  ∃ r img fname,
    db.requests (main.store (@main.process_image (sample_env sample_yolo true)
                   (Some (sample_upload "a.jpg")) (sample_world scenario_store)).2)
      !! 4 = Some r
    ∧ db.requests scenario_store !! 4 = None
    ∧ Some (sample_upload "a.jpg") = Some img ∧ main.filename img = Some fname
    ∧ db.filename r = fname
    ∧ is_Some (main.disk (@main.process_image (sample_env sample_yolo true)
                 (Some (sample_upload "a.jpg")) (sample_world scenario_store)).2
                 !! (main.OUTPUT_DIR ++ str "/" ++ db.output_path r)).
Proof.
  exists (@record_of (sample_env sample_yolo true) (str "a.jpg")
            (counts_of sample_result) 5 12).
  assert (db.requests (main.store (@main.process_image (sample_env sample_yolo true)
                   (Some (sample_upload "a.jpg")) (sample_world scenario_store)).2)
            !! 4 = Some (@record_of (sample_env sample_yolo true) (str "a.jpg")
                           (counts_of sample_result) 5 12)) as Hi
    by (vm_compute; reflexivity).
  assert (db.requests (main.store (sample_world scenario_store)) !! 4 = None) as Hnone
    by (vm_compute; reflexivity).
  destruct (@process_image_record_has_files (sample_env sample_yolo true) _ _ _ _
              Hi Hnone) as (img & fname & Himg & Hf & Hname & _ & _ & Hout).
  exists img, fname. split; [exact Hi|]. split; [exact Hnone|].
  split; [exact Himg|]. split; [exact Hf|]. split; [exact Hname|exact Hout].
Defined.
